(** * Masking and imputation of the Kerala environmental tables

    A shallow embedding of [src/Preprocessing/preprocess-master.py]:
    [clean_and_mask], [impute_data], the part of [preprocess_file] that
    runs them and builds the per-table report, and [main] with the files it
    reads and writes.

    Modelling choices.
    - A [DataFrame] is column oriented, as in pandas: the three key columns
      the code groups and sorts by ([grid_id], [date], [month]) and a finite
      map from the names of the remaining columns to their [Series].  A
      series carries its dtype: an object column holds cells as read, a
      float column holds numbers and NaN.
    - A float64 cell is an exact rational or NaN ([option Q]); rounding,
      infinities and overflow of IEEE doubles are not modelled.
    - A cell of [grid_id] or [month] is an integer or blank (NaN, [None]);
      a [date] is a day number or NaT ([None]), as left by
      [pd.to_datetime(..., errors='coerce')].  A [DataFrame] has the three
      key columns: a table as read that lacks one of them makes
      [preprocess_file] raise a KeyError (line 88 for [date], line 57 for
      [grid_id], line 72 for [month], or line 102 when it has no covariate
      either) before it writes anything, and is not a [DataFrame].
    - The pandas and numpy operations are modelled after their documented
      behaviour: [sort_values] on two keys is a stable sort with a blank
      grid identifier last and NaT last, [groupby] leaves the rows with a
      blank key out of the groups and [transform] returns NaN in these rows,
      [interpolate(method='linear', limit_direction='both')] takes the rows
      of a series as equally spaced and holds the first and last valid value
      constant at the ends, [median] skips NaN, and [df[names]] raises a
      KeyError when a name is not a column.
    - Exceptions are values of [result]; a function that cannot raise is a
      plain function.
    - Reading a CSV, normalising the header, parsing the dates and writing
      a table or the summary are operations on the content of files; they
      are the fields of the interface [FileIO], of which nothing is
      assumed.  The files are a finite map from paths (directory and name)
      to contents.  File names are matched and compared as on Linux, case
      sensitive and byte by byte.  What is printed on the console, and
      writes that fail, are not modelled. *)

From Stdlib Require Import QArith Qminmax Lqa.
From stdpp Require Import base list sorting strings gmap.

Local Open Scope Z_scope.

(** ** Cells and series *)

(** A float64 cell: [None] is NaN. *)
Abbreviation cell := (option Q).

(** A cell of an object column as [read_csv] leaves it: something that reads
    as a number, a blank, or text that does not read as a number. *)
Inductive raw : Type :=
  | RNum (q : Q)
  | RBlank
  | RText (s : string).

(** A column with its dtype. *)
Inductive Series : Type :=
  | Object (xs : list raw)
  | Float64 (xs : list cell).

Definition series_len (s : Series) : nat :=
  match s with
  | Object xs => length xs
  | Float64 xs => length xs
  end.

Record DataFrame : Type := mkDataFrame {
  grid_id : list (option Z);
  date : list (option Z);
  month : list (option Z);
  cols : gmap string Series
}.

(** [len(df)] *)
Definition len (df : DataFrame) : nat := length (grid_id df).

(** Every column of a frame has [len df] rows. *)
Definition wf (df : DataFrame) : Prop :=
  length (date df) = len df ∧
  length (month df) = len df ∧
  map_Forall (λ _ s, series_len s = len df) (cols df).

(** [df[col] = s] *)
Definition set_column (col : string) (s : Series) (df : DataFrame) : DataFrame :=
  {| grid_id := grid_id df; date := date df; month := month df;
     cols := <[col := s]> (cols df) |}.

(** ** Configuration *)

Definition IMPUTE_COLUMNS : list string :=
  ["lst_celsius"; "ndvi"; "ndwi"; "radar_vh"; "rainfall_mm"]%string.

Definition MIN_VALID_LST : Q := 10.
Definition MAX_VALID_LST : Q := 60.
Definition GEE_UNMASK_VALUE : Q := -999.

(** ** Errors *)

Inductive exn : Type :=
  | KeyError (missing : list string)
  | NotNumeric (col : string).

Inductive result (A : Type) : Type :=
  | Ok (a : A)
  | Err (e : exn).
Arguments Ok {A} a.
Arguments Err {A} e.

Global Instance result_bind : MBind result := λ A B k r,
  match r with
  | Ok a => k a
  | Err e => Err e
  end.

Fixpoint foldM {A B} (f : B → A → result B) (b : B) (l : list A) : result B :=
  match l with
  | [] => Ok b
  | a :: l' => b' ← f b a; foldM f b' l'
  end.

(** ** The pandas operations the pipeline uses *)

(** [pd.to_numeric(s, errors="coerce")] *)
Definition coerce (r : raw) : cell :=
  match r with
  | RNum q => Some q
  | RBlank | RText _ => None
  end.

Definition to_numeric (s : Series) : list cell :=
  match s with
  | Object xs => coerce <$> xs
  | Float64 xs => xs
  end.

(** Comparisons of a float column with a scalar; NaN compares false. *)
Definition Qltb (a b : Q) : bool := negb (Qle_bool b a).

(** [series.mask(invalid)] *)
Definition mask (invalid : cell → bool) (xs : list cell) : list cell :=
  (λ c, if invalid c then None else c) <$> xs.

(** [int(invalid.sum())] *)
Definition count_true (invalid : cell → bool) (xs : list cell) : Z :=
  Z.of_nat (length (filter (λ c, invalid c = true) xs)).

(** [s.isna().sum()] *)
Definition isna_sum (xs : list cell) : Z :=
  Z.of_nat (length (filter (λ c : cell, c = None) xs)).

(** The non-missing values of a column, in order. *)
Definition dropna (xs : list cell) : list Q := omap id xs.

(** ** clean_and_mask *)

(** The predicate [invalid] of lines 40-43, cell by cell. *)
Definition invalid (col : string) (c : cell) : bool :=
  match c with
  | None => false
  | Some v =>
      if String.eqb col "lst_celsius"
      then Qeq_bool v GEE_UNMASK_VALUE || Qltb v MIN_VALID_LST || Qltb MAX_VALID_LST v
      else Qeq_bool v GEE_UNMASK_VALUE
  end.

(** What [clean_and_mask] stores in a covariate column. *)
Definition masked_series (col : string) (s : Series) : Series :=
  Float64 (mask (invalid col) (to_numeric s)).

(** One iteration of the loop of [clean_and_mask]. *)
Definition mask_column (st : DataFrame * gmap string Z) (col : string)
    : DataFrame * gmap string Z :=
  match cols st.1 !! col with
  | None => st
  | Some s =>
      let series := to_numeric s in
      (set_column col (Float64 (mask (invalid col) series)) st.1,
       <[col := count_true (invalid col) series]> st.2)
  end.

(** [clean_and_mask(df)]: the frame after the in-place update, and
    [mask_stats]. *)
Definition clean_and_mask (df : DataFrame) : DataFrame * gmap string Z :=
  foldl mask_column (df, ∅) IMPUTE_COLUMNS.

(** ** sort_values *)

(** The sort key of a row: [(grid_id, date)]; either part may be blank. *)
Definition key : Type := option Z * option Z.

(** Dates ascending, NaT last ([na_position='last']). *)
Definition date_leb (a b : option Z) : bool :=
  match a, b with
  | Some x, Some y => x <=? y
  | _, None => true
  | None, Some _ => false
  end.

(** Grid identifiers ascending, a blank one last, as for the dates. *)
Definition grid_ltb (a b : option Z) : bool :=
  match a, b with
  | Some x, Some y => x <? y
  | Some _, None => true
  | None, _ => false
  end.

Definition grid_eqb (a b : option Z) : bool :=
  match a, b with
  | Some x, Some y => x =? y
  | None, None => true
  | _, _ => false
  end.

Definition key_leb (a b : key) : bool :=
  grid_ltb a.1 b.1 || (grid_eqb a.1 b.1 && date_leb a.2 b.2).

(** The order on rows tagged with their position: by key, and by position
    among rows with equal keys, so that sorting is stable as pandas' lexsort
    for several keys is. *)
Definition row_le (a b : key * nat) : Prop :=
  key_leb a.1 b.1 = true ∧ (key_leb b.1 a.1 = true → (a.2 ≤ b.2)%nat).

Global Instance row_le_dec : RelDecision row_le.
Proof. intros a b. unfold row_le. apply _. Defined.

(** The positions of the rows in sorted order. *)
Definition argsort (ks : list key) : list nat :=
  (merge_sort row_le (zip ks (seq 0 (length ks)))).*2.

(** [xs.take(order)] *)
Definition reindex {A} (order : list nat) (xs : list A) : list A :=
  omap (λ i, xs !! i) order.

Definition reindex_series (order : list nat) (s : Series) : Series :=
  match s with
  | Object xs => Object (reindex order xs)
  | Float64 xs => Float64 (reindex order xs)
  end.

Definition sort_order (df : DataFrame) : list nat :=
  argsort (zip (grid_id df) (date df)).

(** [df.sort_values(['grid_id', 'date'])] *)
Definition sort_values (df : DataFrame) : DataFrame :=
  let order := sort_order df in
  {| grid_id := reindex order (grid_id df);
     date := reindex order (date df);
     month := reindex order (month df);
     cols := reindex_series order <$> cols df |}.

(** ** groupby and transform *)

(** A key column holds integers and blanks.  [groupby] forms a group for
    every integer that occurs and leaves the rows with a blank key out of
    the groups ([dropna=True] is the default); [transform] returns NaN in
    these rows. *)

(** The rows of [xs] whose key is [g], in order. *)
Definition group {A} (g : option Z) (keys : list (option Z)) (xs : list A)
    : list A :=
  (filter (λ p, p.1 = g) (zip keys xs)).*2.

(** How often [g] occurs in [keys]. *)
Definition occurrences (g : option Z) (keys : list (option Z)) : nat :=
  length (filter (λ k, k = g) keys).

(** The entry of a row with key [k] in the result of a transform, [entry]
    being what the transformed group of [k] holds for the row. *)
Definition transformed (k : option Z) (entry : cell) : cell :=
  match k with
  | Some _ => entry
  | None => None
  end.

(** Row by row: the row is the [occurrences k seen]-th of its group [k], and
    receives that entry of the transformed group [F k]. *)
Fixpoint transform_go (F : option Z → list cell) (seen keys : list (option Z))
    : list cell :=
  match keys with
  | [] => []
  | k :: ks =>
      transformed k (default None (F k !! occurrences k seen))
        :: transform_go F (k :: seen) ks
  end.

(** [df.groupby(keys)[col].transform(f)] for a function [f] on series. *)
Definition transform (f : list cell → list cell) (keys : list (option Z))
    (xs : list cell) : list cell :=
  transform_go (λ k, f (group k keys xs)) [] keys.

(** [df.groupby(keys)[col].transform(agg)] for a reduction [agg]: every row
    of a group receives the aggregate of the group. *)
Definition transform_agg (agg : list cell → cell) (keys : list (option Z))
    (xs : list cell) : list cell :=
  (λ k, transformed k (agg (group k keys xs))) <$> keys.

(** ** interpolate *)

(** The positions and values of the non-missing cells, from position [n]. *)
Fixpoint valid_from (n : nat) (xs : list cell) : list (nat * Q) :=
  match xs with
  | [] => []
  | Some v :: r => (n, v) :: valid_from (S n) r
  | None :: r => valid_from (S n) r
  end.

Definition pos (n : nat) : Q := inject_Z (Z.of_nat n).

(** [np.interp] right of the point [p]: the segment that contains [x], or
    the last value held constant. *)
Fixpoint interp_scan (x : nat) (p : nat * Q) (ps : list (nat * Q)) : Q :=
  match ps with
  | [] => p.2
  | q :: ps' =>
      if (x <? q.1)%nat
      then ((q.2 - p.2) / (pos q.1 - pos p.1) * (pos x - pos p.1) + p.2)%Q
      else interp_scan x q ps'
  end.

(** [np.interp(x, xp, fp)] on the points [pts]: the first value is held
    constant to the left. *)
Definition np_interp (x : nat) (pts : list (nat * Q)) : cell :=
  match pts with
  | [] => None
  | p :: ps => Some (if (x <=? p.1)%nat then p.2 else interp_scan x p ps)
  end.

(** [x.interpolate(method='linear', limit_direction='both')]: rows are taken
    as equally spaced; a series without a valid value is returned as is. *)
Definition interpolate (xs : list cell) : list cell :=
  let pts := valid_from 0 xs in
  imap (λ i c, match c with Some v => Some v | None => np_interp i pts end) xs.

(** ** median and fillna *)

Global Instance Qle_dec : RelDecision Qle.
Proof. intros x y. unfold Qle. apply _. Defined.

(** The middle of a sorted list; the mean of the two middle values for an
    even length. *)
Definition middle (vs : list Q) : cell :=
  let n := length vs in
  if Nat.odd n then vs !! (n / 2)%nat
  else
    match vs !! (n / 2 - 1)%nat, vs !! (n / 2)%nat with
    | Some a, Some b => Some ((a + b) / 2)%Q
    | _, _ => None
    end.

(** [s.median()]: NaN is skipped; NaN when nothing is left. *)
Definition median (xs : list cell) : cell :=
  middle (merge_sort Qle (dropna xs)).

(** [s.fillna(other)] with a series. *)
Definition fillna_series (xs other : list cell) : list cell :=
  zip_with (λ x o, match x with Some v => Some v | None => o end) xs other.

(** [s.fillna(value)] with a scalar, which may be NaN. *)
Definition fillna (xs : list cell) (value : cell) : list cell :=
  (λ x, match x with Some v => Some v | None => value end) <$> xs.

(** ** impute_data *)

(** Stage 1: interpolation within each grid. *)
Definition stage1 (grid : list (option Z)) (xs : list cell) : list cell :=
  transform interpolate grid xs.

(** Stage 2: the median of the month. *)
Definition stage2 (months : list (option Z)) (xs : list cell) : list cell :=
  let seasonal_medians := transform_agg median months xs in
  fillna_series xs seasonal_medians.

(** Stage 3: the global median. *)
Definition stage3 (xs : list cell) : list cell :=
  fillna xs (median xs).

(** The three assignments to [df[col]] of one iteration. *)
Definition impute_series (grid months : list (option Z)) (xs : list cell)
    : list cell :=
  stage3 (stage2 months (stage1 grid xs)).

(** One iteration of the loop of [impute_data].  A column that is not
    numeric cannot be interpolated; after [clean_and_mask] there is none. *)
Definition impute_column (st : DataFrame * gmap string Z) (col : string)
    : result (DataFrame * gmap string Z) :=
  match cols st.1 !! col with
  | None => Ok st
  | Some (Object _) => Err (NotNumeric col)
  | Some (Float64 xs) =>
      let initial_nan := isna_sum xs in
      let ys := impute_series (grid_id st.1) (month st.1) xs in
      Ok (set_column col (Float64 ys) st.1,
          <[col := initial_nan - isna_sum ys]> st.2)
  end.

(** [impute_data(df)]: the sorted, filled frame and [impute_counts]. *)
Definition impute_data (df : DataFrame) : result (DataFrame * gmap string Z) :=
  foldM impute_column (sort_values df, ∅) IMPUTE_COLUMNS.

(** ** preprocess_file *)

Record Stats : Type := mkStats {
  total_rows : nat;
  outliers_masked : gmap string Z;
  values_imputed : gmap string Z;
  final_null_count : gmap string Z
}.

Definition is_blank (r : raw) : bool :=
  match r with
  | RBlank => true
  | RNum _ | RText _ => false
  end.

(** [s.isna().sum()] on a series of either dtype. *)
Definition series_isna_sum (s : Series) : Z :=
  match s with
  | Object xs => Z.of_nat (length (filter (λ r, is_blank r = true) xs))
  | Float64 xs => isna_sum xs
  end.

(** [df[names]]: a [KeyError] that lists the names that are not columns. *)
Definition select (names : list string) (df : DataFrame)
    : result (list (string * Series)) :=
  match filter (λ c, cols df !! c = None) names with
  | [] => Ok (omap (λ c, (λ s, (c, s)) <$> cols df !! c) names)
  | missing => Err (KeyError missing)
  end.

(** [df[IMPUTE_COLUMNS].isna().sum().to_dict()] *)
Definition null_counts (df : DataFrame) : result (gmap string Z) :=
  sel ← select IMPUTE_COLUMNS df;
  Ok (list_to_map (prod_map id series_isna_sum <$> sel)).

(** [preprocess_file] from the frame as read: masking, imputation and the
    report. *)
Definition preprocess_file (df : DataFrame) : result (DataFrame * Stats) :=
  let '(masked, mask_stats) := clean_and_mask df in
  '(out, impute_stats) ← impute_data masked;
  nulls ← null_counts out;
  Ok (out, {| total_rows := len out;
              outliers_masked := mask_stats;
              values_imputed := impute_stats;
              final_null_count := nulls |}).

(** ** Notions used to state the properties *)

(** Decidability of [wf], to check it on a given table. *)
Global Instance wf_dec df : Decision (wf df).
Proof. unfold wf. apply _. Defined.

(** The orders decided by [date_leb] and [key_leb]. *)
Definition date_le (a b : option Z) : Prop := date_leb a b = true.
Definition key_le (a b : key) : Prop := key_leb a b = true.

(** The frame at the start of the loop of [impute_data] in
    [preprocess_file]: masked, then sorted. *)
Definition prepared (df : DataFrame) : DataFrame :=
  sort_values (clean_and_mask df).1.

(** A column of the prepared frame after each stage of the loop. *)
Definition after_stage1 (df : DataFrame) (xs : list cell) : list cell :=
  stage1 (grid_id (prepared df)) xs.

Definition after_stage2 (df : DataFrame) (xs : list cell) : list cell :=
  stage2 (month (prepared df)) (after_stage1 df xs).

Definition after_stage3 (df : DataFrame) (xs : list cell) : list cell :=
  stage3 (after_stage2 df xs).

(** The rows of grid [g], and of month [m], of a column of the prepared
    frame. *)
Definition grid_series {A} (df : DataFrame) (g : Z) (xs : list A) : list A :=
  group (Some g) (grid_id (prepared df)) xs.

Definition month_series {A} (df : DataFrame) (m : Z) (xs : list A) : list A :=
  group (Some m) (month (prepared df)) xs.

(** A column with the cells of the rows without a grid identifier blanked:
    what is left of it for the groups of [groupby('grid_id')]. *)
Definition located (grid : list (option Z)) (xs : list cell) : list cell :=
  zip_with transformed grid xs.

(** The readings of a series as [clean_and_mask] sees them. *)
Definition masked_cells (col : string) (s : Series) : list cell :=
  mask (invalid col) (to_numeric s).

(** The columns named in [names] that are present are float columns. *)
Definition numeric (names : list string) (df : DataFrame) : Prop :=
  ∀ c s, c ∈ names → cols df !! c = Some s → ∃ xs, s = Float64 xs.

(** What one iteration of [impute_data] stores in a float column. *)
Definition imputed_series (grid months : list (option Z)) (s : Series) : Series :=
  match s with
  | Float64 xs => Float64 (impute_series grid months xs)
  | Object _ => s
  end.

(** The median in the words of the specification: the middle of the values
    in ascending order, the midpoint average of the two middle values for an
    even count. *)
Definition is_median (vs : list Q) (m : Q) : Prop :=
  ∃ s, s ≡ₚ vs ∧ Sorted Qle s ∧
    if Nat.odd (length s) then s !! (length s / 2)%nat = Some m
    else ∃ a b, s !! (length s / 2 - 1)%nat = Some a ∧
                s !! (length s / 2)%nat = Some b ∧
                m = ((a + b) / 2)%Q.

(** A temperature cell as the specification bounds it. *)
Definition temperature_ok (c : cell) : Prop :=
  match c with
  | None => True
  | Some v => (10 <= v <= 60)%Q ∧ ¬ (v == -999)%Q
  end.

(** A cell the specification counts as neither a sentinel nor, in the
    temperature column, out of range. *)
Definition unmasked (col : string) (c : cell) : Prop :=
  match c with
  | None => True
  | Some v =>
      ¬ (v == -999)%Q ∧
      (col = "lst_celsius"%string → (10 <= v)%Q ∧ (v <= 60)%Q)
  end.

(** A table whose covariates hold no sentinel and no out-of-range
    temperature. *)
Definition already_masked (df : DataFrame) : Prop :=
  ∀ col s, col ∈ IMPUTE_COLUMNS → cols df !! col = Some s →
    Forall (unmasked col) (to_numeric s).

(** The cell of a series at row [i], tagged with the dtype. *)
Definition series_row (s : Series) (i : nat) : option (raw + cell) :=
  match s with
  | Object xs => inl <$> xs !! i
  | Float64 xs => inr <$> xs !! i
  end.

(** The least and the greatest of a list of values. *)
Definition minimum (vs : list Q) : option Q :=
  match vs with
  | [] => None
  | v :: vs' => Some (foldr Qmin v vs')
  end.

Definition maximum (vs : list Q) : option Q :=
  match vs with
  | [] => None
  | v :: vs' => Some (foldr Qmax v vs')
  end.

(** ** A small table *)

(** Three grids over three months, rows out of order.  Grid 1 lost its
    February temperature to the sentinel, grid 2 has no temperature at all,
    grid 3 ends with an implausible one; [radar_vh] is empty throughout. *)
Definition example_table : DataFrame :=
  {| grid_id := Some <$> [2; 1; 3; 1; 2; 3; 1; 3; 2];
     date := [Some 1; Some 60; Some 1; Some 1; Some 32; Some 60; Some 32;
              Some 32; Some 60];
     month := Some <$> [1; 3; 1; 1; 2; 3; 2; 2; 3];
     cols :=
       list_to_map
         [("lst_celsius"%string,
           Object [RBlank; RNum 24; RNum 18; RNum 20; RText "no data"; RNum 5;
                   RNum (-999); RNum 21; RBlank]);
          ("ndvi"%string,
           Float64 [Some (1 # 2); Some (3 # 10); None; Some (2 # 5); Some (1 # 2);
                    Some (3 # 5); Some (1 # 5); Some (7 # 10); Some (1 # 2)]%Q);
          ("ndwi"%string,
           Float64 [Some (1 # 10); Some (1 # 10); Some (1 # 5); Some (1 # 10);
                    Some (1 # 10); Some (1 # 5); Some (1 # 10); Some (1 # 5);
                    Some (1 # 10)]%Q);
          ("radar_vh"%string,
           Float64 [None; None; None; None; None; None; None; None; None]);
          ("rainfall_mm"%string,
           Float64 [Some 12; Some (-999); Some 3; Some 7; Some 0; Some 40;
                    Some 9; Some 11; Some 2]%Q);
          ("slope"%string,
           Float64 [Some 2; Some 1; Some 3; Some 1; Some 2; Some 3; Some 1;
                    Some 3; Some 2]%Q);
          ("elevation"%string,
           Object [RNum 120; RNum 80; RText "high"; RNum 80; RNum 120;
                   RText "high"; RNum 80; RText "high"; RNum 120])] |}.

(** The same table without the [ndvi] column. *)
Definition example_without_ndvi : DataFrame :=
  {| grid_id := grid_id example_table;
     date := date example_table;
     month := month example_table;
     cols := delete "ndvi"%string (cols example_table) |}.

(** A table of three rows, the second without a grid identifier.  Its
    temperature is the only one of the table; its vegetation index is a
    valid 9/10. *)
Definition example_blank_grid : DataFrame :=
  {| grid_id := [Some 1; None; Some 1];
     date := [Some 1; Some 1; Some 32];
     month := [Some 1; Some 1; Some 2];
     cols :=
       list_to_map
         [("lst_celsius"%string, Object [RBlank; RNum 20; RBlank]);
          ("ndvi"%string, Float64 [Some (1 # 5); Some (9 # 10); Some (2 # 5)]%Q);
          ("ndwi"%string, Float64 [Some (1 # 10); Some (1 # 10); Some (1 # 10)]%Q);
          ("radar_vh"%string, Float64 [Some (-12); Some (-11); Some (-10)]%Q);
          ("rainfall_mm"%string, Float64 [Some 3; Some 4; Some 5]%Q)] |}.

(** The temperature column of [example_table] after masking and sorting. *)
Definition example_lst : list cell :=
  [Some 20; None; Some 24; None; None; None; Some 18; Some 21; None]%Q.


(** ** main and the files *)

(** What pandas and [json] do with the content of a file is the interface
    [FileIO]; nothing is assumed of its operations.  A [frame] is a table as
    [pd.read_csv] returns it, [load_table] is lines 84 to 88 of
    [preprocess_file] ([read_csv], [_normalize_columns] and [to_datetime])
    up to the table [clean_and_mask] receives.  It is [None] when one of
    them raises, and when the table lacks the [grid_id] or the [month]
    column: [preprocess_file] then raises further down, at line 57, 72 or
    102, in every case before it writes the file. *)
Class FileIO : Type := {
  content : Type;
  frame : Type;
  load_table : content → option DataFrame;
  to_csv : DataFrame → content;
  read_csv : content → option frame;
  concat : list frame → frame;
  frame_to_csv : frame → content;
  json_dump : list (string * Stats) → content;
}.

(** A path is a directory and a file name. *)
Abbreviation path := (string * string)%type.

(** The files: a finite map from paths to contents.  Two directory names
    denote the same directory only when they are equal. *)
Abbreviation files := (gmap path content).

Definition master_name : string := "kerala_env_master_imputed.csv".
Definition summary_name : string := "imputation_summary.json".

(** [s] without the prefix [p], when it starts with it. *)
Fixpoint strip_prefix (p s : string) : option string :=
  match p, s with
  | EmptyString, _ => Some s
  | String a p', String b s' => if Ascii.eqb a b then strip_prefix p' s' else None
  | String _ _, EmptyString => None
  end.

(** [s] ends with [suffix]: it is the suffix, or its tail ends with it. *)
Fixpoint ends_with (suffix s : string) : bool :=
  String.eqb s suffix ||
  match s with
  | EmptyString => false
  | String _ s' => ends_with suffix s'
  end.

(** The pattern [kerala_env_*.csv]: the name starts with [kerala_env_] and
    what follows ends with [.csv]; the star stands for any characters, none
    included. *)
Definition glob_match (name : string) : bool :=
  match strip_prefix "kerala_env_" name with
  | Some rest => ends_with ".csv" rest
  | None => false
  end.

(** The names of the files of a directory. *)
Definition listdir `{FileIO} (fs : files) (dir : string) : list string :=
  (filter (λ p : path, p.1 = dir) (map_to_list fs).*1).*2.

(** [sorted(list(data_dir.glob("kerala_env_*.csv")))] *)
Definition csv_files `{FileIO} (fs : files) (data_dir : string) : list string :=
  merge_sort String.le (filter (λ n, glob_match n = true) (listdir fs data_dir)).

(** Lines 84 to 103 of [preprocess_file]: the cleaned table and the report
    of a source file, [None] when reading or processing it raises. *)
Definition cleaned `{FileIO} (fs : files) (source : path)
    : option (DataFrame * Stats) :=
  c ← fs !! source;
  df ← load_table c;
  match preprocess_file df with
  | Ok r => Some r
  | Err _ => None
  end.

(** [preprocess_file(source, output_dir)]: the files after it and the report
    with the name of the source, [None] when it raises; the file is written
    after the report is built, so nothing is written then. *)
Definition preprocess_source `{FileIO} (fs : files) (source : path)
    (output_dir : string) : option (files * (string * Stats)) :=
  r ← cleaned fs source;
  Some (<[(output_dir, source.2) := to_csv r.1]> fs, (source.2, r.2)).

(** The loop of [main]: a file whose processing raises is reported on the
    console and skipped. *)
Fixpoint process_files `{FileIO} (data_dir output_dir : string)
    (csv_files : list string) (fs : files) (all_stats : list (string * Stats))
    : files * list (string * Stats) :=
  match csv_files with
  | [] => (fs, all_stats)
  | name :: rest =>
      match preprocess_source fs (data_dir, name) output_dir with
      | Some (fs', stats) =>
          process_files data_dir output_dir rest fs' (all_stats ++ [stats])
      | None => process_files data_dir output_dir rest fs all_stats
      end
  end.

(** How [main] ends: it returns, or an exception leaves it, with the files
    as they are then. *)
Inductive outcome `{FileIO} : Type :=
  | Returns (fs : files)
  | Raises (fs : files).

(** [main], with the two directories of the command line. *)
Definition main `{FileIO} (data_dir output_dir : string) (fs : files) : outcome :=
  let csv := csv_files fs data_dir in
  match csv with
  | [] => Returns fs
  | _ :: _ =>
      let '(fs1, all_stats) := process_files data_dir output_dir csv fs [] in
      match all_stats with
      | [] => Returns fs1
      | _ :: _ =>
          match mapM (λ f, fs1 !! (output_dir, f) ≫= read_csv) csv with
          | None => Raises fs1
          | Some frames =>
              let fs2 :=
                <[(output_dir, master_name) := frame_to_csv (concat frames)]> fs1 in
              Returns (<[(output_dir, summary_name) := json_dump all_stats]> fs2)
          end
      end
  end.

(** Files for the examples: a file holds a table, a list of tables, a list
    of reports, or something that is no table. *)
Inductive example_content : Type :=
  | Table (df : DataFrame)
  | Tables (dfs : list DataFrame)
  | Reports (rs : list (string * Stats))
  | Garbage.

Definition example_io : FileIO := {|
  content := example_content;
  frame := list DataFrame;
  load_table c := match c with Table df => Some df | _ => None end;
  to_csv := Table;
  read_csv c :=
    match c with
    | Table df => Some [df]
    | Tables dfs => Some dfs
    | _ => None
    end;
  concat := mjoin;
  frame_to_csv := Tables;
  json_dump := Reports;
|}.

(** A data directory with two tables and a file that is no table, and
    another file next to them. *)
Definition example_files : gmap path example_content :=
  <[("data", "kerala_env_2021.csv") := Table example_table]>
  (<[("data", "kerala_env_2020.csv") := Garbage]>
  (<[("data", "kerala_env_2019.csv") := Table example_table]>
  (<[("data", "notes.txt") := Garbage]> ∅))).

(** The same without the file that is no table. *)
Definition example_files_good : gmap path example_content :=
  delete ("data", "kerala_env_2020.csv") example_files.

(** The same with a table of an earlier run in the output directory, under
    the name of the file that is no table. *)
Definition example_files_stale : gmap path example_content :=
  <[("out", "kerala_env_2020.csv") := Table example_without_ndvi]> example_files.

(** ** The rows in another order *)

(** [df.take(order)]: the rows of [df] at the positions [order]. *)
Definition take_rows (order : list nat) (df : DataFrame) : DataFrame :=
  {| grid_id := reindex order (grid_id df);
     date := reindex order (date df);
     month := reindex order (month df);
     cols := reindex_series order <$> cols df |}.


(** ** _normalize_columns *)

(** [str.isspace] on a character below 256: the ASCII white space, the
    separators 28 to 31, the next-line character and the no-break space. *)
Definition isspace (a : Ascii.ascii) : bool :=
  let n := Ascii.nat_of_ascii a in
  ((9 <=? n) && (n <=? 13) || (28 <=? n) && (n <=? 32) ||
   (n =? 133) || (n =? 160))%nat.

Fixpoint lstrip (s : string) : string :=
  match s with
  | EmptyString => EmptyString
  | String a s' => if isspace a then lstrip s' else s
  end.

Fixpoint rstrip (s : string) : string :=
  match s with
  | EmptyString => EmptyString
  | String a s' =>
      match rstrip s' with
      | EmptyString => if isspace a then EmptyString else String a EmptyString
      | String b r => String a (String b r)
      end
  end.

(** [c.strip()] *)
Definition strip (s : string) : string := rstrip (lstrip s).

(** [_normalize_columns(df)], on the column labels of the frame. *)
Definition _normalize_columns (columns : list string) : list string :=
  strip <$> columns.

(** A string of white space only. *)
Fixpoint all_space (s : string) : bool :=
  match s with
  | EmptyString => true
  | String a s' => isspace a && all_space s'
  end.

Definition starts_with_space (s : string) : bool :=
  match s with
  | EmptyString => false
  | String a _ => isspace a
  end.

Fixpoint ends_with_space (s : string) : bool :=
  match s with
  | EmptyString => false
  | String a EmptyString => isspace a
  | String _ s' => ends_with_space s'
  end.

(** A label without white space at either end. *)
Definition trimmed (s : string) : Prop :=
  starts_with_space s = false ∧ ends_with_space s = false.

(** * Properties *)

(** Closed decidable facts are settled by evaluation. *)
Ltac decide_by_compute := apply (bool_decide_unpack _); vm_compute; exact I.

(** ** The loop of clean_and_mask *)

Lemma IMPUTE_COLUMNS_NoDup : NoDup IMPUTE_COLUMNS.
Proof. decide_by_compute. Qed.

Lemma mask_column_keys st col :
  grid_id (mask_column st col).1 = grid_id st.1 ∧
  date (mask_column st col).1 = date st.1 ∧
  month (mask_column st col).1 = month st.1.
Proof. unfold mask_column. destruct (cols st.1 !! col); done. Qed.

Lemma mask_column_cols st col c :
  cols (mask_column st col).1 !! c =
    if decide (c = col) then masked_series col <$> cols st.1 !! c
    else cols st.1 !! c.
Proof.
  unfold mask_column. case_decide as Hc.
  - subst c. destruct (cols st.1 !! col) as [s|] eqn:E; simpl.
    + by rewrite lookup_insert_eq.
    + by rewrite E.
  - destruct (cols st.1 !! col); simpl; [|done].
    by rewrite lookup_insert_ne.
Qed.

Lemma mask_column_stats st col c :
  (mask_column st col).2 !! c =
    if decide (c = col)
    then match cols st.1 !! c with
         | Some s => Some (count_true (invalid col) (to_numeric s))
         | None => st.2 !! c
         end
    else st.2 !! c.
Proof.
  unfold mask_column. case_decide as Hc.
  - subst c. destruct (cols st.1 !! col) as [s|]; simpl; [|done].
    by rewrite lookup_insert_eq.
  - destruct (cols st.1 !! col); simpl; [|done].
    by rewrite lookup_insert_ne.
Qed.

Lemma mask_fold_keys names st :
  grid_id (foldl mask_column st names).1 = grid_id st.1 ∧
  date (foldl mask_column st names).1 = date st.1 ∧
  month (foldl mask_column st names).1 = month st.1.
Proof.
  revert st. induction names as [|a names IH]; intros st; simpl; [done|].
  destruct (IH (mask_column st a)) as (-> & -> & ->).
  apply mask_column_keys.
Qed.

Lemma mask_fold_cols names st c :
  NoDup names →
  cols (foldl mask_column st names).1 !! c =
    if decide (c ∈ names) then masked_series c <$> cols st.1 !! c
    else cols st.1 !! c.
Proof.
  intros Hnd. revert st. induction Hnd as [|a names Ha Hnd IH]; intros st; cbn [foldl].
  { by rewrite decide_False by apply not_elem_of_nil. }
  rewrite IH, mask_column_cols.
  destruct (decide (c = a)) as [->|Hca].
  - rewrite (decide_False _ _ Ha), decide_True by left. done.
  - destruct (decide (c ∈ names)) as [Hin|Hin].
    + by rewrite decide_True by (by right).
    + rewrite decide_False; [done|]. by intros [?|?]%elem_of_cons.
Qed.

Lemma mask_fold_stats names st c :
  NoDup names →
  (foldl mask_column st names).2 !! c =
    if decide (c ∈ names)
    then match cols st.1 !! c with
         | Some s => Some (count_true (invalid c) (to_numeric s))
         | None => st.2 !! c
         end
    else st.2 !! c.
Proof.
  intros Hnd. revert st. induction Hnd as [|a names Ha Hnd IH]; intros st; cbn [foldl].
  { by rewrite decide_False by apply not_elem_of_nil. }
  rewrite IH, mask_column_stats, mask_column_cols.
  destruct (decide (c = a)) as [->|Hca].
  - rewrite (decide_False _ _ Ha), decide_True by left. done.
  - destruct (decide (c ∈ names)) as [Hin|Hin].
    + by rewrite decide_True by (by right).
    + rewrite decide_False; [done|]. by intros [?|?]%elem_of_cons.
Qed.

Lemma clean_and_mask_keys df :
  grid_id (clean_and_mask df).1 = grid_id df ∧
  date (clean_and_mask df).1 = date df ∧
  month (clean_and_mask df).1 = month df.
Proof. apply (mask_fold_keys IMPUTE_COLUMNS (df, ∅)). Qed.

Lemma clean_and_mask_cols df c :
  cols (clean_and_mask df).1 !! c =
    if decide (c ∈ IMPUTE_COLUMNS) then masked_series c <$> cols df !! c
    else cols df !! c.
Proof. apply (mask_fold_cols IMPUTE_COLUMNS (df, ∅)), IMPUTE_COLUMNS_NoDup. Qed.

Lemma clean_and_mask_stats df c :
  (clean_and_mask df).2 !! c =
    if decide (c ∈ IMPUTE_COLUMNS)
    then (λ s, count_true (invalid c) (to_numeric s)) <$> cols df !! c
    else None.
Proof.
  unfold clean_and_mask.
  rewrite (mask_fold_stats IMPUTE_COLUMNS (df, ∅)) by apply IMPUTE_COLUMNS_NoDup.
  simpl. case_decide; [|done]. by destruct (cols df !! c).
Qed.

Lemma length_mask inv xs : length (mask inv xs) = length xs.
Proof. unfold mask. by rewrite length_fmap. Qed.

Lemma length_to_numeric s : length (to_numeric s) = series_len s.
Proof. destruct s; simpl; [by rewrite length_fmap|done]. Qed.

Lemma clean_and_mask_len df : len (clean_and_mask df).1 = len df.
Proof. unfold len. by destruct (clean_and_mask_keys df) as (-> & _). Qed.

Lemma clean_and_mask_wf df : wf df → wf (clean_and_mask df).1.
Proof.
  intros (Hd & Hm & Hc). unfold wf.
  rewrite clean_and_mask_len.
  destruct (clean_and_mask_keys df) as (_ & -> & ->).
  split_and!; [done..|].
  intros c s. rewrite clean_and_mask_cols.
  case_decide.
  - destruct (cols df !! c) as [s0|] eqn:E; simpl; [|done].
    intros [= <-]. simpl. rewrite length_mask, length_to_numeric.
    by apply (Hc c).
  - apply Hc.
Qed.

(** ** sort_values is a reordering by a sorting permutation *)

Ltac key_order :=
  unfold key_le, date_le, key_leb, date_leb in *; simpl in *;
  repeat match goal with
  | x : key |- _ => destruct x as [? ?]; simpl in *
  | x : option Z |- _ => destruct x; simpl in *
  end;
  rewrite ?orb_true_iff, ?andb_true_iff, ?Z.ltb_lt, ?Z.eqb_eq, ?Z.leb_le in *.

Lemma key_leb_total (a b : key) : key_leb a b = true ∨ key_leb b a = true.
Proof. key_order; lia. Qed.

Lemma key_leb_trans (a b c : key) :
  key_leb a b = true → key_leb b c = true → key_leb a c = true.
Proof. key_order; lia. Qed.

Global Instance row_le_total : Total row_le.
Proof.
  intros a b. unfold row_le.
  destruct (key_leb a.1 b.1) eqn:E1, (key_leb b.1 a.1) eqn:E2.
  - destruct (Nat.le_ge_cases a.2 b.2); [left|right]; done.
  - by left.
  - by right.
  - destruct (key_leb_total a.1 b.1); congruence.
Qed.

Global Instance row_le_trans : Transitive row_le.
Proof.
  intros a b c [Hab Hba] [Hbc Hcb]. split.
  - by eapply key_leb_trans.
  - intros Hca.
    pose proof (key_leb_trans _ _ _ Hca Hab) as Hcb'.
    pose proof (key_leb_trans _ _ _ Hbc Hca) as Hba'.
    specialize (Hba Hba'). specialize (Hcb Hcb'). lia.
Qed.

Lemma reindex_seq_app {A} (l1 l2 : list A) :
  omap (λ i, (l1 ++ l2) !! i) (seq (length l1) (length l2)) = l2.
Proof.
  revert l1. induction l2 as [|x l2 IH]; intros l1; [done|].
  cbn [length seq omap list_omap].
  rewrite lookup_app_r, Nat.sub_diag by lia. cbn. f_equal.
  specialize (IH (l1 ++ [x])).
  rewrite <-(assoc_L (++)), length_app in IH. cbn in IH.
  by rewrite Nat.add_1_r in IH.
Qed.

Lemma reindex_seq {A} (xs : list A) : reindex (seq 0 (length xs)) xs = xs.
Proof. apply (reindex_seq_app [] xs). Qed.

Lemma reindex_Permutation {A} order (xs : list A) :
  order ≡ₚ seq 0 (length xs) → reindex order xs ≡ₚ xs.
Proof.
  intros H. transitivity (reindex (seq 0 (length xs)) xs).
  - unfold reindex. by rewrite H.
  - by rewrite reindex_seq.
Qed.

Lemma length_reindex {A} order (xs : list A) :
  order ≡ₚ seq 0 (length xs) → length (reindex order xs) = length xs.
Proof. intros H. by rewrite (reindex_Permutation order xs H). Qed.

Lemma argsort_Permutation ks : argsort ks ≡ₚ seq 0 (length ks).
Proof.
  unfold argsort. rewrite merge_sort_Permutation.
  rewrite snd_zip; [done|]. by rewrite length_seq.
Qed.

Lemma reindex_zip {A B} order (xs : list A) (ys : list B) :
  length xs = length ys →
  reindex order (zip xs ys) = zip (reindex order xs) (reindex order ys).
Proof.
  intros Hlen. unfold reindex.
  induction order as [|i order IH]; [done|]. cbn.
  rewrite IH. rewrite lookup_zip_with.
  destruct (xs !! i) as [x|] eqn:Ex; cbn.
  - destruct (ys !! i) as [y|] eqn:Ey; cbn; [done|].
    apply lookup_lt_Some in Ex. apply lookup_ge_None in Ey. lia.
  - destruct (ys !! i) as [y|] eqn:Ey; cbn; [|done].
    apply lookup_lt_Some in Ey. apply lookup_ge_None in Ex. lia.
Qed.

Lemma reindex_tagged {A} (xs : list A) (l : list (A * nat)) :
  Forall (λ p, xs !! p.2 = Some p.1) l → reindex (l.*2) xs = l.*1.
Proof.
  unfold reindex. induction 1 as [|[x i] l Hx _ IH]; [done|].
  cbn in *. by rewrite Hx, IH.
Qed.

Lemma zip_seq_tagged {A} (xs : list A) :
  Forall (λ p, xs !! p.2 = Some p.1) (zip xs (seq 0 (length xs))).
Proof.
  apply Forall_forall. intros [x i] Hin.
  apply list_elem_of_lookup in Hin as [j Hj].
  rewrite lookup_zip_with in Hj.
  destruct (xs !! j) as [x'|] eqn:Ex; [|done]. cbn in Hj.
  destruct (seq 0 (length xs) !! j) as [i'|] eqn:Ei; [|done]. cbn in Hj.
  injection Hj as -> ->. apply lookup_seq in Ei as [-> _]. done.
Qed.

(** Reordering a key list by its own [argsort] sorts it. *)
Lemma reindex_argsort_sorted ks :
  StronglySorted key_le (reindex (argsort ks) ks).
Proof.
  unfold argsort. rewrite reindex_tagged.
  - apply (StronglySorted_fmap fst row_le key_le); [by intros ?? [? _]|].
    apply StronglySorted_merge_sort; apply _.
  - eapply Forall_forall. intros p Hp.
    rewrite merge_sort_Permutation in Hp.
    by apply (proj1 (Forall_forall _ _) (zip_seq_tagged ks)).
Qed.

Lemma sort_order_perm df : wf df → sort_order df ≡ₚ seq 0 (len df).
Proof.
  intros (Hd & _). unfold sort_order.
  rewrite argsort_Permutation, length_zip_with.
  unfold len in *. by rewrite Hd, Nat.min_id.
Qed.

Lemma sort_values_len df : wf df → len (sort_values df) = len df.
Proof. intros Hwf. unfold len at 1. simpl. by apply length_reindex, sort_order_perm. Qed.

Lemma length_reindex_series order s :
  order ≡ₚ seq 0 (series_len s) →
  series_len (reindex_series order s) = series_len s.
Proof. destruct s; simpl; apply length_reindex. Qed.

Lemma sort_values_wf df : wf df → wf (sort_values df).
Proof.
  intros Hwf. pose proof (sort_order_perm df Hwf) as Hp.
  destruct Hwf as (Hd & Hm & Hc). unfold wf.
  assert (len (sort_values df) = len df) as ->.
  { unfold len at 1. simpl. by apply length_reindex. }
  simpl. split_and!.
  - rewrite length_reindex; [done|]. by rewrite Hd.
  - rewrite length_reindex; [done|]. by rewrite Hm.
  - intros c s. rewrite lookup_fmap.
    destruct (cols df !! c) as [s0|] eqn:E; [|done]. cbn. intros [= <-].
    specialize (Hc c s0 E). cbn in Hc.
    rewrite length_reindex_series; [done|]. by rewrite Hc.
Qed.

(** The rows of the sorted frame ascend in [(grid_id, date)]. *)
Lemma sort_values_sorted df :
  wf df →
  StronglySorted key_le (zip (grid_id (sort_values df)) (date (sort_values df))).
Proof.
  intros (Hd & _). simpl. rewrite <-reindex_zip by done.
  apply reindex_argsort_sorted.
Qed.

(** Within one grid the dates of a sorted key list ascend, NaT last. *)
Lemma group_dates_sorted g (ks : list (option Z)) (ds : list (option Z)) :
  StronglySorted key_le (zip ks ds) → StronglySorted date_le (group g ks ds).
Proof.
  unfold group. generalize (zip ks ds). intros l.
  induction 1 as [|x l Hs IH Hx]; [constructor|].
  rewrite filter_cons. case_decide as Hg; [|done].
  cbn. constructor; [done|].
  apply Forall_fmap, Forall_forall. intros y [Hy Hin]%list_elem_of_filter.
  rewrite Forall_forall in Hx. specialize (Hx y Hin).
  cbn. clear -Hx Hg Hy. destruct x as [gx dx], y as [gy dy]. cbn in *.
  subst gx gy. unfold key_le, key_leb in Hx. cbn in Hx. unfold date_le.
  apply orb_true_iff in Hx as [Hx|[_ Hx]%andb_true_iff]; [|done].
  destruct g as [z|]; cbn in Hx; [lia|done].
Qed.

(** ** groupby and transform *)

Lemma group_cons {A} g k ks (x : A) xs :
  group g (k :: ks) (x :: xs) =
    if decide (k = g) then x :: group g ks xs else group g ks xs.
Proof. unfold group. cbn [zip_with]. rewrite filter_cons. cbn. by case_decide. Qed.

Lemma group_nil {A} g (xs : list A) : group g [] xs = [].
Proof. done. Qed.

Lemma occurrences_cons g k ks :
  occurrences g (k :: ks) =
    if decide (k = g) then S (occurrences g ks) else occurrences g ks.
Proof. unfold occurrences. rewrite filter_cons. by case_decide. Qed.

Lemma length_group {A} g keys (xs : list A) :
  length xs = length keys → length (group g keys xs) = occurrences g keys.
Proof.
  revert xs. induction keys as [|k ks IH]; intros [|x xs] Hlen; try done.
  rewrite group_cons, occurrences_cons. injection Hlen as Hlen.
  case_decide; cbn; by rewrite IH.
Qed.

Lemma elem_of_group {A} g keys (xs : list A) x :
  x ∈ group g keys xs → x ∈ xs.
Proof.
  unfold group. intros ([k y] & -> & [_ Hin]%list_elem_of_filter)%list_elem_of_fmap.
  by apply elem_of_zip_r in Hin.
Qed.

(** The row at position [i] is the entry of its group at its rank. *)
Lemma group_lookup_rank {A} keys (xs : list A) i k :
  length xs = length keys →
  keys !! i = Some k →
  group k keys xs !! occurrences k (take i keys) = xs !! i.
Proof.
  revert xs i. induction keys as [|k0 ks IH]; intros [|x xs] i Hlen Hk; try done.
  injection Hlen as Hlen. rewrite group_cons.
  destruct i as [|i]; cbn in Hk.
  - injection Hk as ->. by rewrite decide_True.
  - cbn [take]. rewrite occurrences_cons.
    case_decide; cbn; by apply IH.
Qed.

Lemma length_transform_go F seen keys :
  length (transform_go F seen keys) = length keys.
Proof.
  revert seen. induction keys as [|k ks IH]; intros seen; [done|].
  cbn. by rewrite IH.
Qed.

Lemma length_transform f keys xs : length (transform f keys xs) = length keys.
Proof. apply length_transform_go. Qed.

Lemma transform_go_lookup F seen keys i k :
  keys !! i = Some k →
  transform_go F seen keys !! i =
    Some (transformed k
            (default None
               (F k !! (occurrences k seen + occurrences k (take i keys))%nat))).
Proof.
  revert seen i. induction keys as [|k0 ks IH]; intros seen i Hk; [done|].
  destruct i as [|i]; cbn in Hk.
  - injection Hk as ->. cbn. by rewrite Nat.add_0_r.
  - cbn [transform_go lookup list_lookup take]. rewrite (IH _ _ Hk).
    rewrite !occurrences_cons. case_decide; [|done].
    by rewrite Nat.add_succ_r.
Qed.

Lemma transform_lookup f keys xs i k :
  keys !! i = Some k →
  transform f keys xs !! i =
    Some (transformed k
            (default None (f (group k keys xs) !! occurrences k (take i keys)))).
Proof. intros Hk. unfold transform. by rewrite (transform_go_lookup _ _ _ _ _ Hk). Qed.

(** A row without a key receives NaN. *)
Lemma transform_blank f keys xs i :
  keys !! i = Some None → transform f keys xs !! i = Some None.
Proof. intros Hk. by rewrite (transform_lookup _ _ _ _ _ Hk). Qed.

Lemma transform_go_group F seen keys g :
  (occurrences g seen + occurrences g keys ≤ length (F g))%nat →
  group g keys (transform_go F seen keys) =
    transformed g <$> take (occurrences g keys) (drop (occurrences g seen) (F g)).
Proof.
  revert seen. induction keys as [|k ks IH]; intros seen Hlen.
  { by rewrite group_nil. }
  cbn [transform_go]. rewrite group_cons. rewrite occurrences_cons in Hlen |- *.
  case_decide as Hk.
  - rewrite Hk in *.
    rewrite IH by (rewrite occurrences_cons, decide_True by done; lia).
    rewrite occurrences_cons, decide_True by done.
    destruct (lookup_lt_is_Some_2 (F g) (occurrences g seen)) as [d Hd]; [lia|].
    rewrite Hd. cbn [default].
    by rewrite (drop_S _ _ _ Hd).
  - rewrite IH by (rewrite occurrences_cons, decide_False by done; lia).
    by rewrite occurrences_cons, decide_False by done.
Qed.

(** The transformed column, read group by group, is the transformed group. *)
Lemma transform_group f keys xs (g : Z) :
  (∀ ys, length (f ys) = length ys) →
  length xs = length keys →
  group (Some g) keys (transform f keys xs) = f (group (Some g) keys xs).
Proof.
  intros Hf Hlen. unfold transform.
  rewrite transform_go_group; cbn.
  - rewrite drop_0, list_fmap_id. apply take_ge. by rewrite Hf, length_group.
  - by rewrite Hf, length_group.
Qed.

Lemma length_transform_agg agg keys xs :
  length (transform_agg agg keys xs) = length keys.
Proof. unfold transform_agg. by rewrite length_fmap. Qed.

Lemma transform_agg_lookup agg keys xs i :
  transform_agg agg keys xs !! i =
    (λ k, transformed k (agg (group k keys xs))) <$> keys !! i.
Proof. unfold transform_agg. by rewrite list_lookup_fmap. Qed.

(** ** Arithmetic of the interpolation formula *)

Lemma pos_le (a b : nat) : (a ≤ b)%nat → (pos a <= pos b)%Q.
Proof. intros H. unfold pos. rewrite <-Zle_Qle. lia. Qed.

Lemma pos_lt (a b : nat) : (a < b)%nat → (pos a < pos b)%Q.
Proof. intros H. unfold pos. rewrite <-Zlt_Qlt. lia. Qed.

Lemma convex_bounds (lo hi y0 y1 s : Q) :
  (0 <= s)%Q → (s <= 1)%Q →
  (lo <= y0 <= hi)%Q → (lo <= y1 <= hi)%Q →
  (lo <= (y1 - y0) * s + y0 <= hi)%Q.
Proof.
  intros Hs0 Hs1 [H0l H0h] [H1l H1h].
  assert (0 <= s * (y1 - lo))%Q by (apply Qmult_le_0_compat; lra).
  assert (0 <= (1 - s) * (y0 - lo))%Q by (apply Qmult_le_0_compat; lra).
  assert (0 <= s * (hi - y1))%Q by (apply Qmult_le_0_compat; lra).
  assert (0 <= (1 - s) * (hi - y0))%Q by (apply Qmult_le_0_compat; lra).
  split; lra.
Qed.

(** A point of a segment lies between the values at its ends. *)
Lemma segment_bounds (lo hi y0 y1 t d : Q) :
  (0 <= t)%Q → (t <= d)%Q → (0 < d)%Q →
  (lo <= y0 <= hi)%Q → (lo <= y1 <= hi)%Q →
  (lo <= (y1 - y0) / d * t + y0 <= hi)%Q.
Proof.
  intros Ht Htd Hd H0 H1.
  assert (E : ((y1 - y0) / d * t + y0 == (y1 - y0) * (t / d) + y0)%Q).
  { field. lra. }
  rewrite E. apply convex_bounds; [| |done..].
  - apply Qle_shift_div_l; [done|]. lra.
  - apply Qle_shift_div_r; [done|]. lra.
Qed.

(** The slope form used by the code and the weighted form of the
    specification agree. *)
Lemma segment_formula (a b : Q) (i k j : nat) :
  (i < j)%nat →
  ((b - a) / (pos j - pos i) * (pos k - pos i) + a ==
   a + (b - a) * ((pos k - pos i) / (pos j - pos i)))%Q.
Proof. intros H. apply pos_lt in H. field. lra. Qed.

(** ** interpolate *)

Lemma length_interpolate xs : length (interpolate xs) = length xs.
Proof. unfold interpolate. by rewrite length_imap. Qed.

Lemma interpolate_lookup xs i :
  interpolate xs !! i =
    (λ c : cell, match c with
                 | Some v => Some v
                 | None => np_interp i (valid_from 0 xs)
                 end) <$> xs !! i.
Proof. unfold interpolate. by rewrite list_lookup_imap. Qed.

(** Interpolation keeps every valid cell. *)
Lemma interpolate_keeps xs i v :
  xs !! i = Some (Some v) → interpolate xs !! i = Some (Some v).
Proof. intros H. by rewrite interpolate_lookup, H. Qed.

Lemma valid_from_app n l1 l2 :
  valid_from n (l1 ++ l2) = valid_from n l1 ++ valid_from (n + length l1) l2.
Proof.
  revert n. induction l1 as [|[v|] l1 IH]; intros n; cbn.
  - by rewrite Nat.add_0_r.
  - by rewrite IH, Nat.add_succ_r.
  - by rewrite IH, Nat.add_succ_r.
Qed.

Lemma valid_from_replicate n m : valid_from n (replicate m None) = [].
Proof. revert n. induction m as [|m IH]; intros n; cbn; [done|]. apply IH. Qed.

Lemma valid_from_dropna n xs : (valid_from n xs).*2 = dropna xs.
Proof.
  revert n. induction xs as [|[v|] xs IH]; intros n; cbn; [done| |].
  - by rewrite IH.
  - apply IH.
Qed.

Lemma valid_from_nil n xs : valid_from n xs = [] ↔ dropna xs = [].
Proof.
  rewrite <-(valid_from_dropna n). split; [by intros ->|].
  by destruct (valid_from n xs).
Qed.

Lemma valid_from_range n xs :
  Forall (λ p, (n ≤ p.1 < n + length xs)%nat) (valid_from n xs).
Proof.
  revert n. induction xs as [|[v|] xs IH]; intros n; cbn; [done| |].
  - constructor; [cbn; lia|].
    eapply Forall_impl; [apply IH|]. cbn. intros; lia.
  - eapply Forall_impl; [apply IH|]. cbn. intros; lia.
Qed.

Lemma dropna_nil_lookup xs i c :
  dropna xs = [] → xs !! i = Some c → c = None.
Proof.
  revert i. induction xs as [|[v|] xs IH]; intros i; cbn; [done..|].
  intros H. destruct i; cbn; [by intros [= <-]|]. by apply IH.
Qed.

Lemma elem_of_dropna xs v : v ∈ dropna xs ↔ Some v ∈ xs.
Proof.
  unfold dropna. rewrite list_elem_of_omap. split.
  - intros (c & Hc & E). cbn in E. by subst c.
  - intros H. by exists (Some v).
Qed.

(** A series without a valid value is returned as it is. *)
Lemma interpolate_all_missing xs : dropna xs = [] → interpolate xs = xs.
Proof.
  intros H. apply list_eq. intros i. rewrite interpolate_lookup.
  destruct (xs !! i) as [c|] eqn:E; [|done]. cbn.
  rewrite (dropna_nil_lookup _ _ _ H E).
  by rewrite (proj2 (valid_from_nil 0 xs) H).
Qed.

(** A series with a valid value is filled completely. *)
Lemma interpolate_fills xs i :
  dropna xs ≠ [] → (i < length xs)%nat → ∃ v, interpolate xs !! i = Some (Some v).
Proof.
  intros Hne Hi. rewrite interpolate_lookup.
  destruct (lookup_lt_is_Some_2 xs i Hi) as [c ->]. cbn.
  destruct c as [v|]; [by eexists|].
  destruct (valid_from 0 xs) as [|p ps] eqn:E.
  - by apply valid_from_nil in E.
  - cbn. by eexists.
Qed.

Lemma interp_scan_skip x p l1 q l2 :
  Forall (λ r, (r.1 ≤ x)%nat) (l1 ++ [q]) →
  interp_scan x p (l1 ++ q :: l2) = interp_scan x q l2.
Proof.
  revert p. induction l1 as [|r l1 IH]; intros p H; cbn [interp_scan app].
  - cbn [app] in H. rewrite Forall_singleton in H. cbn beta in H.
    by rewrite (proj2 (Nat.ltb_ge _ _)) by lia.
  - cbn [app] in H. rewrite Forall_cons in H. destruct H as [Hr H]. cbn beta in Hr.
    rewrite (proj2 (Nat.ltb_ge _ _)) by lia. by apply IH.
Qed.

Lemma np_interp_skip x l1 q l2 :
  Forall (λ r, (r.1 < x)%nat) (l1 ++ [q]) →
  np_interp x (l1 ++ q :: l2) = Some (interp_scan x q l2).
Proof.
  intros H. destruct l1 as [|p l1]; unfold np_interp; cbn [app].
  - cbn [app] in H. rewrite Forall_singleton in H. cbn beta in H.
    by rewrite (proj2 (Nat.leb_gt _ _)) by lia.
  - cbn [app] in H. rewrite Forall_cons in H. destruct H as [Hp H]. cbn beta in Hp.
    rewrite (proj2 (Nat.leb_gt _ _)) by lia.
    f_equal. apply interp_scan_skip.
    eapply Forall_impl; [done|]. cbn. intros; lia.
Qed.

(** The points of a series around a valid cell at position [i]. *)
Lemma valid_from_split xs i a :
  xs !! i = Some (Some a) →
  valid_from 0 xs =
    valid_from 0 (take i xs) ++ (i, a) :: valid_from (S i) (drop (S i) xs).
Proof.
  intros H. rewrite <-(take_drop_middle xs i (Some a) H) at 1.
  rewrite valid_from_app. cbn.
  rewrite length_take_le by (apply lookup_lt_Some in H; lia). done.
Qed.

Lemma all_missing_replicate (xs : list cell) :
  (∀ t, (t < length xs)%nat → xs !! t = Some None) →
  xs = replicate (length xs) None.
Proof.
  intros H. apply list_eq. intros t.
  destruct (decide (t < length xs)%nat) as [Ht|Ht].
  - rewrite (H t Ht). symmetry. by apply lookup_replicate_2.
  - rewrite lookup_ge_None_2 by lia.
    symmetry. apply lookup_ge_None_2. rewrite length_replicate. lia.
Qed.

Lemma valid_from_missing n (xs : list cell) :
  (∀ t, (t < length xs)%nat → xs !! t = Some None) → valid_from n xs = [].
Proof.
  intros H. rewrite (all_missing_replicate xs H). apply valid_from_replicate.
Qed.

Lemma valid_from_take_lt i xs q :
  Forall (λ r, (r.1 < S i)%nat) (valid_from 0 (take i xs) ++ [(i, q)]).
Proof.
  apply Forall_app. split; [|apply Forall_singleton; cbn; lia].
  eapply Forall_impl; [apply valid_from_range|]. cbn.
  intros r Hr. rewrite length_take in Hr. lia.
Qed.

Lemma valid_from_split_at n xs i a :
  xs !! i = Some (Some a) →
  valid_from n xs =
    valid_from n (take i xs) ++
    (n + i, a)%nat :: valid_from (S (n + i)) (drop (S i) xs).
Proof.
  intros H. rewrite <-(take_drop_middle xs i (Some a) H) at 1.
  rewrite valid_from_app. cbn.
  rewrite length_take_le by (apply lookup_lt_Some in H; lia). done.
Qed.

(** Between two valid cells with only missing cells in between, the filled
    value lies on the straight line through them, rows equally spaced. *)
Lemma interpolate_interior xs i j k a b :
  (i < k < j)%nat →
  xs !! i = Some (Some a) →
  xs !! j = Some (Some b) →
  (∀ t, (i < t < j)%nat → xs !! t = Some None) →
  ∃ v, interpolate xs !! k = Some (Some v) ∧
       (v == a + (b - a) * ((pos k - pos i) / (pos j - pos i)))%Q.
Proof.
  intros Hk Hi Hj Hgap.
  rewrite interpolate_lookup, (Hgap k Hk). cbn.
  rewrite (valid_from_split xs i a Hi).
  assert (Hj' : drop (S i) xs !! (j - S i)%nat = Some (Some b)).
  { rewrite lookup_drop. by replace (S i + (j - S i))%nat with j by lia. }
  rewrite (valid_from_split_at (S i) _ _ b Hj').
  rewrite (valid_from_missing (S i)).
  2:{ intros t Ht. rewrite length_take in Ht.
      rewrite lookup_take_lt by lia. rewrite lookup_drop. apply Hgap. lia. }
  cbn [app]. replace (S i + (j - S i))%nat with j by lia.
  rewrite np_interp_skip.
  2:{ eapply Forall_impl; [apply valid_from_take_lt|]. cbn. intros; lia. }
  cbn [interp_scan fst snd].
  rewrite (proj2 (Nat.ltb_lt k j)) by lia.
  eexists. split; [done|]. apply segment_formula. lia.
Qed.

(** Before the first valid cell its value is held constant. *)
Lemma interpolate_leading xs j k b :
  (k < j)%nat →
  xs !! j = Some (Some b) →
  (∀ t, (t < j)%nat → xs !! t = Some None) →
  interpolate xs !! k = Some (Some b).
Proof.
  intros Hk Hj Hgap.
  rewrite interpolate_lookup, (Hgap k Hk). cbn.
  rewrite (valid_from_split xs j b Hj).
  rewrite valid_from_missing.
  2:{ intros t Ht. rewrite length_take in Ht.
      rewrite lookup_take_lt by lia. apply Hgap. lia. }
  cbn. by rewrite (proj2 (Nat.leb_le k j)) by lia.
Qed.

(** After the last valid cell its value is held constant. *)
Lemma interpolate_trailing xs i k a :
  (i < k < length xs)%nat →
  xs !! i = Some (Some a) →
  (∀ t, (i < t < length xs)%nat → xs !! t = Some None) →
  interpolate xs !! k = Some (Some a).
Proof.
  intros Hk Hi Hgap.
  rewrite interpolate_lookup, (Hgap k Hk). cbn.
  rewrite (valid_from_split xs i a Hi).
  rewrite (valid_from_missing (S i)).
  2:{ intros t Ht. rewrite length_drop in Ht.
      rewrite lookup_drop. apply Hgap. lia. }
  rewrite np_interp_skip; [done|].
  eapply Forall_impl; [apply valid_from_take_lt|]. cbn. intros; lia.
Qed.

Lemma interp_scan_bounds (lo hi : Q) x p ps :
  (p.1 ≤ x)%nat →
  (lo <= p.2 <= hi)%Q →
  Forall (λ q, (lo <= q.2 <= hi)%Q) ps →
  (lo <= interp_scan x p ps <= hi)%Q.
Proof.
  intros Hx Hp Hps. revert p Hx Hp.
  induction Hps as [|q ps Hq _ IH]; intros p Hx Hp; cbn [interp_scan]; [done|].
  destruct (Nat.ltb_spec x q.1) as [Hlt|Hge].
  - apply segment_bounds; [| | |done..].
    + apply pos_le in Hx. lra.
    + assert (pos x <= pos q.1)%Q by (apply pos_le; lia). lra.
    + assert (pos p.1 < pos q.1)%Q by (apply pos_lt; lia). lra.
  - by apply IH.
Qed.

Lemma np_interp_bounds (lo hi : Q) x pts v :
  Forall (λ q, (lo <= q.2 <= hi)%Q) pts →
  np_interp x pts = Some v → (lo <= v <= hi)%Q.
Proof.
  intros Hpts. destruct Hpts as [|p ps Hp Hps]; cbn; [done|].
  intros [= <-]. destruct (Nat.leb_spec x p.1); [done|].
  apply interp_scan_bounds; [lia|done..].
Qed.

Lemma valid_from_values n xs :
  Forall (λ q, Some q.2 ∈ xs) (valid_from n xs).
Proof.
  revert n. induction xs as [|[v|] xs IH]; intros n; cbn; [done| |].
  - constructor; [cbn; left|].
    eapply Forall_impl; [apply IH|]. cbn. intros. by right.
  - eapply Forall_impl; [apply IH|]. cbn. intros. by right.
Qed.

(** Interpolation stays within any bounds of the valid values. *)
Lemma interpolate_bounds (lo hi : Q) xs i v :
  (∀ w, Some w ∈ xs → (lo <= w <= hi)%Q) →
  interpolate xs !! i = Some (Some v) → (lo <= v <= hi)%Q.
Proof.
  intros Hxs. rewrite interpolate_lookup.
  destruct (xs !! i) as [[w|]|] eqn:E; cbn; [| |done].
  - intros [= <-]. apply Hxs. by eapply list_elem_of_lookup_2.
  - intros [= Hv]. eapply np_interp_bounds; [|done].
    eapply Forall_impl; [apply valid_from_values|]. cbn. auto.
Qed.

(** ** median *)

Global Instance Qle_total : Total Qle.
Proof.
  intros x y. destruct (Qlt_le_dec x y) as [H|H];
    [left; exact (Qlt_le_weak _ _ H)|right; exact H].
Qed.

Lemma middle_None vs : middle vs = None ↔ vs = [].
Proof.
  split; [|by intros ->].
  unfold middle. destruct vs as [|v vs]; [done|]. intros H. exfalso.
  remember (v :: vs) as l eqn:El.
  assert (Hn : (0 < length l)%nat) by (subst; cbn; lia).
  clear El.
  assert (Hh : (length l / 2 < length l)%nat) by (apply Nat.div_lt; lia).
  destruct (lookup_lt_is_Some_2 l (length l / 2)%nat) as [b Hb]; [done|].
  destruct (Nat.odd (length l)); [congruence|].
  destruct (lookup_lt_is_Some_2 l (length l / 2 - 1)%nat) as [a Ha]; [lia|].
  by rewrite Ha, Hb in H.
Qed.

Lemma middle_bounds (lo hi : Q) vs m :
  Forall (λ w, (lo <= w <= hi)%Q) vs →
  middle vs = Some m → (lo <= m <= hi)%Q.
Proof.
  intros Hvs. rewrite Forall_lookup in Hvs. unfold middle.
  destruct (Nat.odd (length vs)).
  - intros H. by eapply Hvs.
  - destruct (vs !! (length vs / 2 - 1)%nat) as [a|] eqn:Ea; [|done].
    destruct (vs !! (length vs / 2)%nat) as [b|] eqn:Eb; [|done].
    intros [= <-]. apply Hvs in Ea, Eb.
    split.
    + apply Qle_shift_div_l; lra.
    + apply Qle_shift_div_r; lra.
Qed.

Lemma median_None xs : median xs = None ↔ dropna xs = [].
Proof.
  unfold median. rewrite middle_None. split.
  - intros H. apply Permutation_nil_r. by rewrite <-H, merge_sort_Permutation.
  - intros ->. done.
Qed.

Lemma median_Some xs : dropna xs ≠ [] → ∃ m, median xs = Some m.
Proof.
  intros H. destruct (median xs) as [m|] eqn:E; [by eexists|].
  by apply median_None in E.
Qed.

(** The modelled [median] is the median of the specification. *)
Lemma median_is_median xs m : median xs = Some m → is_median (dropna xs) m.
Proof.
  unfold median, middle. intros H.
  exists (merge_sort Qle (dropna xs)). split_and!.
  - apply merge_sort_Permutation.
  - apply Sorted_merge_sort, _.
  - destruct (Nat.odd _); [done|].
    destruct (_ !! (_ - 1)%nat) as [a|]; [|done].
    destruct (_ !! _) as [b|]; [|done].
    injection H as <-. by exists a, b.
Qed.

Lemma median_bounds (lo hi : Q) xs m :
  (∀ w, Some w ∈ xs → (lo <= w <= hi)%Q) →
  median xs = Some m → (lo <= m <= hi)%Q.
Proof.
  intros Hxs. unfold median. apply middle_bounds.
  apply Forall_forall. intros w Hw.
  rewrite merge_sort_Permutation in Hw. by apply Hxs, elem_of_dropna.
Qed.

(** ** The loop of impute_data *)

Lemma impute_column_ok st a :
  (∀ s, cols st.1 !! a = Some s → ∃ xs, s = Float64 xs) →
  ∃ st1, impute_column st a = Ok st1 ∧
    grid_id st1.1 = grid_id st.1 ∧ date st1.1 = date st.1 ∧
    month st1.1 = month st.1 ∧
    (∀ c, cols st1.1 !! c =
       if decide (c = a)
       then imputed_series (grid_id st.1) (month st.1) <$> cols st.1 !! c
       else cols st.1 !! c) ∧
    (∀ c, st1.2 !! c =
       if decide (c = a)
       then match cols st.1 !! c with
            | Some s =>
                Some (series_isna_sum s -
                      series_isna_sum (imputed_series (grid_id st.1) (month st.1) s))
            | None => st.2 !! c
            end
       else st.2 !! c).
Proof.
  intros Hnum. unfold impute_column.
  destruct (cols st.1 !! a) as [s|] eqn:E.
  - destruct (Hnum s eq_refl) as [xs ->].
    eexists. split; [done|]. cbn. split_and!; try done.
    + intros c. case_decide as Hc.
      * subst c. by rewrite lookup_insert_eq, E.
      * by rewrite lookup_insert_ne.
    + intros c. case_decide as Hc.
      * subst c. by rewrite lookup_insert_eq, E.
      * by rewrite lookup_insert_ne.
  - exists st. split; [done|]. split_and!; try done.
    + intros c. case_decide as Hc; [|done]. subst c. by rewrite E.
    + intros c. case_decide as Hc; [|done]. subst c. by rewrite E.
Qed.

Lemma impute_fold_ok names st :
  NoDup names →
  numeric names st.1 →
  ∃ st', foldM impute_column st names = Ok st' ∧
    grid_id st'.1 = grid_id st.1 ∧ date st'.1 = date st.1 ∧
    month st'.1 = month st.1 ∧
    (∀ c, cols st'.1 !! c =
       if decide (c ∈ names)
       then imputed_series (grid_id st.1) (month st.1) <$> cols st.1 !! c
       else cols st.1 !! c) ∧
    (∀ c, st'.2 !! c =
       if decide (c ∈ names)
       then match cols st.1 !! c with
            | Some s =>
                Some (series_isna_sum s -
                      series_isna_sum (imputed_series (grid_id st.1) (month st.1) s))
            | None => st.2 !! c
            end
       else st.2 !! c).
Proof.
  intros Hnd. revert st.
  induction Hnd as [|a names Ha Hnd IH]; intros st Hnum; cbn [foldM].
  { exists st. split_and!; try done; intros c;
      by rewrite decide_False by apply not_elem_of_nil. }
  destruct (impute_column_ok st a) as (st1 & -> & Hg & Hd & Hm & Hc & Hs).
  { intros s. apply Hnum. by left. }
  cbn. destruct (IH st1) as (st' & -> & Hg' & Hd' & Hm' & Hc' & Hs').
  { intros c s Hin. rewrite Hc, decide_False by (by intros ->).
    apply Hnum. by right. }
  exists st'. split; [done|]. rewrite Hg', Hd', Hm', Hg, Hd, Hm.
  split_and!; try done.
  - intros c. rewrite Hc', Hc, Hg, Hm.
    destruct (decide (c = a)) as [->|Hca].
    + by rewrite (decide_False _ _ Ha), decide_True by left.
    + destruct (decide (c ∈ names)) as [Hin|Hin].
      * by rewrite decide_True by (by right).
      * rewrite decide_False; [done|]. by intros [?|?]%elem_of_cons.
  - intros c. rewrite Hs', Hs, Hc, Hg, Hm.
    destruct (decide (c = a)) as [->|Hca].
    + by rewrite (decide_False _ _ Ha), decide_True by left.
    + destruct (decide (c ∈ names)) as [Hin|Hin].
      * by rewrite decide_True by (by right).
      * rewrite decide_False; [done|]. by intros [?|?]%elem_of_cons.
Qed.

Lemma sort_values_numeric names df : numeric names df → numeric names (sort_values df).
Proof.
  intros H c s Hin. cbn. rewrite lookup_fmap.
  destruct (cols df !! c) as [s0|] eqn:E; [|done]. cbn. intros [= <-].
  destruct (H c s0 Hin E) as [xs ->]. by eexists.
Qed.

Lemma clean_and_mask_numeric df : numeric IMPUTE_COLUMNS (clean_and_mask df).1.
Proof.
  intros c s Hin. rewrite clean_and_mask_cols, decide_True by done.
  destruct (cols df !! c) as [s0|]; [|done]. cbn. intros [= <-]. by eexists.
Qed.

(** On a frame whose covariates are numeric, [impute_data] returns, and
    every present covariate holds its imputed series. *)
Lemma impute_data_ok df :
  numeric IMPUTE_COLUMNS df →
  ∃ out counts, impute_data df = Ok (out, counts) ∧
    grid_id out = grid_id (sort_values df) ∧
    date out = date (sort_values df) ∧
    month out = month (sort_values df) ∧
    (∀ c, cols out !! c =
       if decide (c ∈ IMPUTE_COLUMNS)
       then imputed_series (grid_id (sort_values df)) (month (sort_values df))
              <$> cols (sort_values df) !! c
       else cols (sort_values df) !! c) ∧
    (∀ c, counts !! c =
       if decide (c ∈ IMPUTE_COLUMNS)
       then (λ s, series_isna_sum s -
                    series_isna_sum (imputed_series (grid_id (sort_values df))
                                       (month (sort_values df)) s))
              <$> cols (sort_values df) !! c
       else None).
Proof.
  intros Hnum. unfold impute_data.
  destruct (impute_fold_ok IMPUTE_COLUMNS (sort_values df, ∅))
    as ([out counts] & -> & Hg & Hd & Hm & Hc & Hs).
  { apply IMPUTE_COLUMNS_NoDup. }
  { by apply sort_values_numeric. }
  exists out, counts. cbn [fst snd] in *. split_and!; try done.
Qed.

(** ** The three stages, cell by cell *)

Lemma dropna_nonempty xs : dropna xs ≠ [] ↔ ∃ v, Some v ∈ xs.
Proof.
  split.
  - destruct (dropna xs) as [|v vs] eqn:E; [done|]. intros _.
    exists v. apply elem_of_dropna. rewrite E. by left.
  - intros [v Hv%elem_of_dropna] E. rewrite E in Hv. by apply not_elem_of_nil in Hv.
Qed.

Lemma length_stage1 grid xs : length (stage1 grid xs) = length grid.
Proof. apply length_transform. Qed.

(** Stage 1 at row [i] is the interpolated series of the row's grid at the
    row's rank in the grid. *)
Lemma stage1_lookup grid xs i (k : Z) :
  length xs = length grid →
  grid !! i = Some (Some k) →
  stage1 grid xs !! i =
    interpolate (group (Some k) grid xs) !! occurrences (Some k) (take i grid).
Proof.
  intros Hlen Hk. unfold stage1. rewrite (transform_lookup _ _ _ _ _ Hk).
  pose proof (group_lookup_rank grid xs i (Some k) Hlen Hk) as Hr.
  destruct (lookup_lt_is_Some_2 xs i) as [c Hc].
  { rewrite Hlen. by eapply lookup_lt_Some. }
  rewrite Hc in Hr. apply lookup_lt_Some in Hr.
  rewrite <-length_interpolate in Hr.
  destruct (lookup_lt_is_Some_2 _ _ Hr) as [d Hd]. by rewrite Hd.
Qed.

(** In a row without a grid identifier stage 1 leaves NaN, whatever the
    cell held. *)
Lemma stage1_blank grid xs i :
  grid !! i = Some None → stage1 grid xs !! i = Some None.
Proof. apply transform_blank. Qed.

Lemma stage1_group grid xs (g : Z) :
  length xs = length grid →
  group (Some g) grid (stage1 grid xs) = interpolate (group (Some g) grid xs).
Proof. intros Hlen. apply transform_group; [apply length_interpolate|done]. Qed.

Lemma stage1_keeps grid xs i (k : Z) v :
  length xs = length grid →
  grid !! i = Some (Some k) →
  xs !! i = Some (Some v) → stage1 grid xs !! i = Some (Some v).
Proof.
  intros Hlen Hk Hv.
  rewrite (stage1_lookup _ _ _ _ Hlen Hk). apply interpolate_keeps.
  by rewrite (group_lookup_rank _ _ _ _ Hlen Hk).
Qed.

Lemma stage1_bounds (lo hi : Q) grid xs i v :
  length xs = length grid →
  (∀ w, Some w ∈ xs → (lo <= w <= hi)%Q) →
  stage1 grid xs !! i = Some (Some v) → (lo <= v <= hi)%Q.
Proof.
  intros Hlen Hxs Hv.
  destruct (lookup_lt_is_Some_2 grid i) as [[k|] Hk].
  { rewrite <-(length_stage1 grid xs). by eapply lookup_lt_Some. }
  - rewrite (stage1_lookup _ _ _ _ Hlen Hk) in Hv.
    eapply interpolate_bounds; [|done].
    intros w Hw. by apply Hxs, (elem_of_group (Some k) grid).
  - by rewrite (stage1_blank _ _ _ Hk) in Hv.
Qed.

Lemma length_stage2 months xs :
  length xs = length months → length (stage2 months xs) = length xs.
Proof.
  intros Hlen. unfold stage2, fillna_series.
  rewrite length_zip_with, length_transform_agg. lia.
Qed.

Lemma stage2_lookup months xs i :
  stage2 months xs !! i =
    match xs !! i, months !! i with
    | Some (Some v), Some _ => Some (Some v)
    | Some None, Some m => Some (transformed m (median (group m months xs)))
    | _, _ => None
    end.
Proof.
  unfold stage2, fillna_series.
  rewrite lookup_zip_with, transform_agg_lookup.
  destruct (xs !! i) as [[v|]|]; destruct (months !! i); done.
Qed.

Lemma stage2_keeps months xs i v :
  length xs = length months →
  xs !! i = Some (Some v) → stage2 months xs !! i = Some (Some v).
Proof.
  intros Hlen Hv. rewrite stage2_lookup, Hv.
  destruct (lookup_lt_is_Some_2 months i) as [m ->]; [|done].
  rewrite <-Hlen. by eapply lookup_lt_Some.
Qed.

Lemma stage2_bounds (lo hi : Q) months xs i v :
  (∀ w, Some w ∈ xs → (lo <= w <= hi)%Q) →
  stage2 months xs !! i = Some (Some v) → (lo <= v <= hi)%Q.
Proof.
  intros Hxs. rewrite stage2_lookup.
  destruct (xs !! i) as [[w|]|] eqn:E; destruct (months !! i) as [m|]; try done.
  - intros [= <-]. apply Hxs. by eapply list_elem_of_lookup_2.
  - destruct m as [m|]; [|done]. intros [= Hv]. eapply median_bounds; [|done].
    intros w Hw. by apply Hxs, (elem_of_group (Some m) months).
Qed.

Lemma length_stage3 xs : length (stage3 xs) = length xs.
Proof. unfold stage3, fillna. by rewrite length_fmap. Qed.

Lemma stage3_lookup xs i :
  stage3 xs !! i =
    (λ x : cell, match x with Some v => Some v | None => median xs end) <$> xs !! i.
Proof. unfold stage3, fillna. by rewrite list_lookup_fmap. Qed.

Lemma stage3_keeps xs i v :
  xs !! i = Some (Some v) → stage3 xs !! i = Some (Some v).
Proof. intros Hv. by rewrite stage3_lookup, Hv. Qed.

Lemma stage3_bounds (lo hi : Q) xs i v :
  (∀ w, Some w ∈ xs → (lo <= w <= hi)%Q) →
  stage3 xs !! i = Some (Some v) → (lo <= v <= hi)%Q.
Proof.
  intros Hxs. rewrite stage3_lookup.
  destruct (xs !! i) as [[w|]|] eqn:E; cbn; try done.
  - intros [= <-]. apply Hxs. by eapply list_elem_of_lookup_2.
  - intros [= Hv]. by eapply median_bounds.
Qed.

(** A bound on the valid values of a column carries over to each stage. *)
Lemma stage1_all_bounds (lo hi : Q) grid xs :
  length xs = length grid →
  (∀ w, Some w ∈ xs → (lo <= w <= hi)%Q) →
  ∀ w, Some w ∈ stage1 grid xs → (lo <= w <= hi)%Q.
Proof.
  intros Hlen Hxs w [i Hi]%list_elem_of_lookup. by eapply stage1_bounds.
Qed.

Lemma stage2_all_bounds (lo hi : Q) months xs :
  (∀ w, Some w ∈ xs → (lo <= w <= hi)%Q) →
  ∀ w, Some w ∈ stage2 months xs → (lo <= w <= hi)%Q.
Proof. intros Hxs w [i Hi]%list_elem_of_lookup. by eapply stage2_bounds. Qed.

Lemma stage3_all_bounds (lo hi : Q) xs :
  (∀ w, Some w ∈ xs → (lo <= w <= hi)%Q) →
  ∀ w, Some w ∈ stage3 xs → (lo <= w <= hi)%Q.
Proof. intros Hxs w [i Hi]%list_elem_of_lookup. by eapply stage3_bounds. Qed.

(** The cells of [located]. *)
Lemma located_lookup grid xs i :
  located grid xs !! i =
    match grid !! i, xs !! i with
    | Some k, Some c => Some (transformed k c)
    | _, _ => None
    end.
Proof.
  unfold located. rewrite lookup_zip_with.
  by destruct (grid !! i) as [k|]; destruct (xs !! i).
Qed.

Lemma located_value grid xs v :
  Some v ∈ located grid xs ↔
  ∃ i (k : Z), grid !! i = Some (Some k) ∧ xs !! i = Some (Some v).
Proof.
  split.
  - intros [i Hi]%list_elem_of_lookup. rewrite located_lookup in Hi.
    destruct (grid !! i) as [[k|]|] eqn:Hk; destruct (xs !! i) as [c|] eqn:Hc;
      try done.
    cbn in Hi. injection Hi as ->. by exists i, k.
  - intros (i & k & Hk & Hv). apply list_elem_of_lookup. exists i.
    by rewrite located_lookup, Hk, Hv.
Qed.

(** When every row has a grid identifier nothing is blanked. *)
Lemma located_all grid xs :
  length xs = length grid → Forall is_Some grid → located grid xs = xs.
Proof.
  intros Hlen Hall. apply list_eq. intros i. rewrite located_lookup.
  destruct (grid !! i) as [k|] eqn:Hk.
  - rewrite Forall_lookup in Hall. destruct (Hall i k Hk) as [z ->].
    by destruct (xs !! i).
  - apply lookup_ge_None in Hk. symmetry. apply lookup_ge_None. lia.
Qed.

(** The rows of a group, with their positions. *)
Lemma elem_of_group_lookup {A} g keys (xs : list A) x :
  x ∈ group g keys xs → ∃ i, keys !! i = Some g ∧ xs !! i = Some x.
Proof.
  unfold group. intros ([k y] & -> & [Hk Hin]%list_elem_of_filter)%list_elem_of_fmap.
  cbn in Hk. subst k. apply list_elem_of_lookup in Hin as [i Hi].
  rewrite lookup_zip_with in Hi. exists i.
  destruct (keys !! i) as [k|]; [|done]. cbn in Hi.
  destruct (xs !! i) as [z|]; [|done]. cbn in Hi. by injection Hi as -> ->.
Qed.

(** A column keeps a valid value through stage 1 exactly when a row with a
    grid identifier holds one, and through stage 2 whenever it has one. *)
Lemma stage1_nonempty grid xs :
  length xs = length grid →
  dropna (located grid xs) ≠ [] → dropna (stage1 grid xs) ≠ [].
Proof.
  intros Hlen. rewrite !dropna_nonempty.
  intros [v (i & k & Hk & Hv)%located_value]. exists v.
  eapply list_elem_of_lookup_2. by eapply stage1_keeps.
Qed.

Lemma stage1_empty grid xs :
  length xs = length grid →
  dropna (located grid xs) = [] → dropna (stage1 grid xs) = [].
Proof.
  intros Hlen Hnone.
  destruct (dropna (stage1 grid xs)) as [|v vs] eqn:E; [done|]. exfalso.
  assert (Hv : Some v ∈ stage1 grid xs) by (apply elem_of_dropna; rewrite E; left).
  apply list_elem_of_lookup in Hv as [i Hi].
  destruct (lookup_lt_is_Some_2 grid i) as [[k|] Hk].
  { rewrite <-(length_stage1 grid xs). by eapply lookup_lt_Some. }
  - rewrite (stage1_lookup _ _ _ _ Hlen Hk) in Hi.
    destruct (dropna (group (Some k) grid xs)) as [|w ws] eqn:Eg.
    + rewrite interpolate_all_missing in Hi by done.
      apply list_elem_of_lookup_2, elem_of_dropna in Hi.
      rewrite Eg in Hi. by apply not_elem_of_nil in Hi.
    + assert (Hw : Some w ∈ group (Some k) grid xs)
        by (apply elem_of_dropna; rewrite Eg; left).
      apply elem_of_group_lookup in Hw as (j & Hj & Hw).
      assert (Hl : Some w ∈ located grid xs) by (apply located_value; eauto).
      apply elem_of_dropna in Hl. rewrite Hnone in Hl.
      by apply not_elem_of_nil in Hl.
  - by rewrite (stage1_blank _ _ _ Hk) in Hi.
Qed.

Lemma stage2_nonempty months xs :
  length xs = length months → dropna xs ≠ [] → dropna (stage2 months xs) ≠ [].
Proof.
  intros Hlen. rewrite !dropna_nonempty.
  intros [v [i Hi]%list_elem_of_lookup]. exists v.
  eapply list_elem_of_lookup_2. by apply stage2_keeps.
Qed.

(** A column without a valid value is left as it is by every stage. *)
Lemma all_missing_lookup xs i :
  dropna xs = [] → (i < length xs)%nat → xs !! i = Some None.
Proof.
  intros H Hi. destruct (lookup_lt_is_Some_2 xs i Hi) as [c Hc].
  by rewrite Hc, (dropna_nil_lookup _ _ _ H Hc).
Qed.

Lemma group_all_missing g keys xs : dropna xs = [] → dropna (group g keys xs) = [].
Proof.
  intros H. destruct (dropna (group g keys xs)) as [|v vs] eqn:E; [done|].
  assert (Hv : v ∈ dropna (group g keys xs)) by (rewrite E; left).
  apply elem_of_dropna, elem_of_group, elem_of_dropna in Hv.
  rewrite H in Hv. by apply not_elem_of_nil in Hv.
Qed.

Lemma stage1_all_missing grid xs :
  length xs = length grid → dropna xs = [] → stage1 grid xs = xs.
Proof.
  intros Hlen H. apply list_eq. intros i.
  destruct (grid !! i) as [[k|]|] eqn:Hk.
  - rewrite (stage1_lookup _ _ _ _ Hlen Hk).
    rewrite interpolate_all_missing by by apply group_all_missing.
    by apply group_lookup_rank.
  - rewrite (stage1_blank _ _ _ Hk). symmetry. apply all_missing_lookup; [done|].
    rewrite Hlen. by eapply lookup_lt_Some.
  - apply lookup_ge_None in Hk.
    rewrite !lookup_ge_None_2; [done|lia|].
    rewrite length_stage1. lia.
Qed.

Lemma stage2_all_missing months xs :
  length xs = length months → dropna xs = [] → stage2 months xs = xs.
Proof.
  intros Hlen H. apply list_eq. intros i. rewrite stage2_lookup.
  destruct (xs !! i) as [c|] eqn:Hc; [|done].
  rewrite (dropna_nil_lookup _ _ _ H Hc).
  destruct (lookup_lt_is_Some_2 months i) as [[m|] ->].
  { rewrite <-Hlen. by eapply lookup_lt_Some. }
  - cbn. by rewrite (proj2 (median_None _)) by by apply group_all_missing.
  - done.
Qed.

Lemma stage3_all_missing xs : dropna xs = [] → stage3 xs = xs.
Proof.
  intros H. apply list_eq. intros i. rewrite stage3_lookup.
  destruct (xs !! i) as [c|] eqn:Hc; [|done]. cbn.
  rewrite (dropna_nil_lookup _ _ _ H Hc).
  by rewrite (proj2 (median_None _)).
Qed.

(** Stage 3 fills every cell of a column with a valid value. *)
Lemma stage3_fills xs i :
  dropna xs ≠ [] → (i < length xs)%nat → ∃ v, stage3 xs !! i = Some (Some v).
Proof.
  intros Hne Hi. rewrite stage3_lookup.
  destruct (lookup_lt_is_Some_2 xs i Hi) as [c ->]. cbn.
  destruct c as [v|]; [by eexists|].
  destruct (median_Some xs Hne) as [m ->]. by eexists.
Qed.

(** ** The frame the loop of impute_data works on *)

Lemma sort_order_masked df : sort_order (clean_and_mask df).1 = sort_order df.
Proof.
  unfold sort_order. by destruct (clean_and_mask_keys df) as (-> & -> & _).
Qed.

Lemma prepared_keys df :
  grid_id (prepared df) = reindex (sort_order df) (grid_id df) ∧
  date (prepared df) = reindex (sort_order df) (date df) ∧
  month (prepared df) = reindex (sort_order df) (month df).
Proof.
  unfold prepared, sort_values. cbn [grid_id date month]. rewrite sort_order_masked.
  by destruct (clean_and_mask_keys df) as (-> & -> & ->).
Qed.

Lemma prepared_cols df c :
  cols (prepared df) !! c =
    if decide (c ∈ IMPUTE_COLUMNS)
    then (λ s, Float64 (reindex (sort_order df) (masked_cells c s))) <$> cols df !! c
    else reindex_series (sort_order df) <$> cols df !! c.
Proof.
  unfold prepared, sort_values. cbn [cols].
  rewrite sort_order_masked, lookup_fmap, clean_and_mask_cols.
  case_decide; [|done]. by destruct (cols df !! c).
Qed.

Lemma prepared_wf df : wf df → wf (prepared df).
Proof. intros H. by apply sort_values_wf, clean_and_mask_wf. Qed.

Lemma prepared_len df : wf df → len (prepared df) = len df.
Proof.
  intros H. unfold prepared.
  rewrite sort_values_len by by apply clean_and_mask_wf.
  apply clean_and_mask_len.
Qed.

Lemma prepared_lengths df col xs :
  wf df →
  cols (prepared df) !! col = Some (Float64 xs) →
  length xs = len df ∧
  length (grid_id (prepared df)) = len df ∧
  length (month (prepared df)) = len df.
Proof.
  intros Hwf Hx. pose proof (prepared_wf df Hwf) as (_ & Hm & Hc).
  rewrite <-(prepared_len df Hwf). split_and!; [|done..].
  apply (Hc col _ Hx).
Qed.

(** The masked column and the column the loop starts from hold the same
    cells. *)
Lemma prepared_masked df col ms :
  wf df → col ∈ IMPUTE_COLUMNS →
  cols (clean_and_mask df).1 !! col = Some (Float64 ms) →
  ∃ xs, cols (prepared df) !! col = Some (Float64 xs) ∧ xs ≡ₚ ms.
Proof.
  intros Hwf Hin Hms. unfold prepared, sort_values. cbn [cols].
  rewrite lookup_fmap, Hms. cbn [fmap option_fmap option_map reindex_series].
  eexists. split; [done|]. apply reindex_Permutation.
  pose proof (clean_and_mask_wf df Hwf) as Hwf'.
  rewrite (sort_order_perm _ Hwf').
  destruct Hwf' as (_ & _ & Hc). by rewrite <-(Hc col _ Hms).
Qed.

(** The imputer returns on the masker's output, and a present covariate
    leaves the loop as the result of the three stages. *)
Lemma pipeline_column df col xs :
  col ∈ IMPUTE_COLUMNS →
  cols (prepared df) !! col = Some (Float64 xs) →
  ∃ out counts,
    impute_data (clean_and_mask df).1 = Ok (out, counts) ∧
    grid_id out = grid_id (prepared df) ∧
    date out = date (prepared df) ∧
    month out = month (prepared df) ∧
    cols out !! col =
      Some (Float64 (impute_series (grid_id (prepared df)) (month (prepared df)) xs)) ∧
    counts !! col =
      Some (isna_sum xs -
            isna_sum (impute_series (grid_id (prepared df)) (month (prepared df)) xs)).
Proof.
  intros Hin Hx.
  destruct (impute_data_ok _ (clean_and_mask_numeric df))
    as (out & counts & Hrun & Hg & Hd & Hm & Hc & Hs).
  exists out, counts. fold (prepared df) in *. split_and!; try done.
  - by rewrite Hc, decide_True, Hx by done.
  - by rewrite Hs, decide_True, Hx by done.
Qed.

Lemma isna_sum_Permutation xs ys : xs ≡ₚ ys → isna_sum xs = isna_sum ys.
Proof. intros H. unfold isna_sum. by rewrite H. Qed.

Lemma isna_sum_replicate n : isna_sum (replicate n None) = Z.of_nat n.
Proof.
  unfold isna_sum. f_equal. induction n as [|n IH]; [done|].
  cbn [replicate]. rewrite filter_cons_True by done. cbn. by rewrite IH.
Qed.

Lemma isna_sum_all_missing xs :
  (∀ i, (i < length xs)%nat → xs !! i = Some None) →
  isna_sum xs = Z.of_nat (length xs).
Proof.
  intros H. rewrite <-isna_sum_replicate. f_equal. by apply all_missing_replicate.
Qed.

Lemma dropna_Permutation xs ys : xs ≡ₚ ys → dropna xs ≡ₚ dropna ys.
Proof. intros H. unfold dropna. by rewrite H. Qed.

Lemma example_table_wf : wf example_table.
Proof. decide_by_compute. Defined.

Lemma lst_celsius_covariate : "lst_celsius"%string ∈ IMPUTE_COLUMNS.
Proof. decide_by_compute. Defined.

Lemma example_lst_prepared :
  cols (prepared example_table) !! "lst_celsius"%string = Some (Float64 example_lst).
Proof. vm_compute. reflexivity. Defined.

Lemma temperature_ok_bounds xs :
  Forall temperature_ok xs ↔ ∀ w, Some w ∈ xs → (10 <= w <= 60)%Q.
Proof.
  rewrite Forall_forall. split.
  - intros H w Hw. by destruct (H _ Hw).
  - intros H [w|] Hw; [|done]. cbn. specialize (H w Hw). split; [done|]. lra.
Qed.

Lemma Qltb_false a b : Qltb a b = false → (b <= a)%Q.
Proof. unfold Qltb. rewrite negb_false_iff. apply Qle_bool_iff. Qed.

Lemma Qltb_true a b : Qltb a b = true → (a < b)%Q.
Proof.
  unfold Qltb. rewrite negb_true_iff. intros H. apply Qnot_le_lt.
  intros Hle. apply Qle_bool_iff in Hle. congruence.
Qed.

(** What the masker lets through in the temperature column. *)
Lemma invalid_lst_false v :
  invalid "lst_celsius" (Some v) = false → (10 <= v <= 60)%Q ∧ ¬ (v == -999)%Q.
Proof.
  unfold invalid. cbn [String.eqb Ascii.eqb Bool.eqb].
  rewrite !orb_false_iff. intros [[He Hl] Hh].
  apply Qltb_false in Hl, Hh. unfold MIN_VALID_LST, MAX_VALID_LST in *.
  split; [done|]. lra.
Qed.

Lemma mask_lst_ok ys : Forall temperature_ok (mask (invalid "lst_celsius") ys).
Proof.
  unfold mask. apply Forall_fmap, Forall_forall. intros c _. cbn.
  destruct (invalid "lst_celsius" c) eqn:E; [done|].
  destruct c as [v|]; [|done]. by apply invalid_lst_false.
Qed.

Lemma elem_of_reindex {A} order (xs : list A) x : x ∈ reindex order xs → x ∈ xs.
Proof.
  unfold reindex. rewrite list_elem_of_omap. intros (i & _ & Hi).
  by eapply list_elem_of_lookup_2.
Qed.

(** ** The report of preprocess_file *)

Lemma select_missing names df :
  filter (λ c, cols df !! c = None) names = [] ↔
  ∀ c, c ∈ names → is_Some (cols df !! c).
Proof.
  split.
  - intros H c Hin. destruct (cols df !! c) eqn:E; [by eexists|].
    assert (c ∈ filter (λ c, cols df !! c = None) names)
      by by apply list_elem_of_filter.
    rewrite H in *. by apply not_elem_of_nil in H0.
  - intros H. destruct (filter _ names) as [|c l] eqn:E; [done|].
    assert (Hc : c ∈ filter (λ c, cols df !! c = None) names)
      by (rewrite E; left).
    apply list_elem_of_filter in Hc as [Hn Hin].
    destruct (H c Hin) as [s Hs]. congruence.
Qed.

Lemma null_counts_lookup names df c :
  (∀ c, c ∈ names → is_Some (cols df !! c)) →
  (list_to_map (prod_map id series_isna_sum <$>
                omap (λ c, (λ s, (c, s)) <$> cols df !! c) names)
     : gmap string Z) !! c =
    if decide (c ∈ names) then series_isna_sum <$> cols df !! c else None.
Proof.
  induction names as [|a names IH]; intros H.
  { cbn. by rewrite decide_False by apply not_elem_of_nil. }
  destruct (H a) as [s Hs]; [by left|].
  cbn [omap list_omap]. rewrite Hs. cbn [fmap option_fmap option_map list_fmap].
  cbn [list_to_map foldr prod_map fst snd id uncurry].
  destruct (decide (c = a)) as [->|Hca].
  - by rewrite lookup_insert_eq, decide_True, Hs by left.
  - rewrite lookup_insert_ne by done. rewrite IH by (intros; apply H; by right).
    destruct (decide (c ∈ names)) as [Hin|Hin].
    + by rewrite decide_True by (by right).
    + rewrite decide_False; [done|]. by intros [?|?]%elem_of_cons.
Qed.

Lemma null_counts_ok df :
  (∀ c, c ∈ IMPUTE_COLUMNS → is_Some (cols df !! c)) →
  ∃ nulls, null_counts df = Ok nulls ∧
    ∀ c, c ∈ IMPUTE_COLUMNS → nulls !! c = series_isna_sum <$> cols df !! c.
Proof.
  intros H. unfold null_counts, select.
  rewrite (proj2 (select_missing _ _) H). cbn [mbind result_bind].
  eexists. split; [done|]. intros c Hin.
  by rewrite null_counts_lookup, decide_True.
Qed.

Lemma null_counts_inv df nulls :
  null_counts df = Ok nulls →
  ∀ c, c ∈ IMPUTE_COLUMNS → is_Some (cols df !! c).
Proof.
  unfold null_counts, select.
  destruct (filter _ IMPUTE_COLUMNS) as [|c l] eqn:E; [|done].
  intros _. by apply select_missing.
Qed.

Lemma null_counts_err df c :
  c ∈ IMPUTE_COLUMNS → cols df !! c = None →
  ∃ missing, null_counts df = Err (KeyError missing) ∧ c ∈ missing.
Proof.
  intros Hin Hc. unfold null_counts, select.
  assert (Hm : c ∈ filter (λ c, cols df !! c = None) IMPUTE_COLUMNS)
    by by apply list_elem_of_filter.
  destruct (filter _ IMPUTE_COLUMNS) as [|c0 l] eqn:E.
  - by apply not_elem_of_nil in Hm.
  - by eexists.
Qed.

Lemma preprocess_file_unfold df :
  preprocess_file df =
    (r ← impute_data (clean_and_mask df).1;
     nulls ← null_counts r.1;
     Ok (r.1, {| total_rows := len r.1;
                 outliers_masked := (clean_and_mask df).2;
                 values_imputed := r.2;
                 final_null_count := nulls |})).
Proof.
  unfold preprocess_file. destruct (clean_and_mask df) as [masked mask_stats].
  cbn [fst snd]. destruct (impute_data masked) as [[out counts]|e]; done.
Qed.

(** The covariates present in the input are the covariates present in the
    table [impute_data] returns. *)
Lemma impute_data_present df out counts c :
  c ∈ IMPUTE_COLUMNS →
  impute_data (clean_and_mask df).1 = Ok (out, counts) →
  (is_Some (cols out !! c) ↔ is_Some (cols df !! c)).
Proof.
  intros Hin Hrun.
  destruct (impute_data_ok _ (clean_and_mask_numeric df))
    as (out' & counts' & Hrun' & _ & _ & _ & Hc & _).
  rewrite Hrun in Hrun'. injection Hrun' as <- <-.
  rewrite Hc, decide_True by done. fold (prepared df).
  rewrite prepared_cols, decide_True by done.
  rewrite !fmap_is_Some. done.
Qed.

Lemma preprocess_file_ok df :
  (∀ c, c ∈ IMPUTE_COLUMNS → is_Some (cols df !! c)) →
  ∃ out stats, preprocess_file df = Ok (out, stats).
Proof.
  intros H. rewrite preprocess_file_unfold.
  destruct (impute_data_ok _ (clean_and_mask_numeric df))
    as (out & counts & Hrun & _).
  rewrite Hrun. cbn.
  destruct (null_counts_ok out) as (nulls & -> & _).
  { intros c Hin. apply (impute_data_present df out counts c Hin Hrun). by apply H. }
  cbn. by eexists _, _.
Qed.

Lemma preprocess_file_inv df out stats :
  preprocess_file df = Ok (out, stats) →
  ∃ counts nulls,
    impute_data (clean_and_mask df).1 = Ok (out, counts) ∧
    null_counts out = Ok nulls ∧
    (∀ c, c ∈ IMPUTE_COLUMNS → nulls !! c = series_isna_sum <$> cols out !! c) ∧
    stats = {| total_rows := len out;
               outliers_masked := (clean_and_mask df).2;
               values_imputed := counts;
               final_null_count := nulls |}.
Proof.
  rewrite preprocess_file_unfold.
  destruct (impute_data (clean_and_mask df).1) as [[out' counts]|e] eqn:Hrun; [|done].
  cbn. destruct (null_counts out') as [nulls|e] eqn:Hn; [|done].
  cbn. intros [= <- <-]. exists counts, nulls. split_and!; try done.
  destruct (null_counts_ok out' (null_counts_inv _ _ Hn)) as (nulls' & Hn' & Hl).
  rewrite Hn in Hn'. by injection Hn' as <-.
Qed.

(** A table that lacks a covariate column gets no report: the selection of
    the five covariates for the final count fails. *)
Lemma preprocess_file_err df c :
  c ∈ IMPUTE_COLUMNS → cols df !! c = None →
  ∃ missing, preprocess_file df = Err (KeyError missing) ∧ c ∈ missing.
Proof.
  intros Hin Hc. rewrite preprocess_file_unfold.
  destruct (impute_data_ok _ (clean_and_mask_numeric df))
    as (out & counts & Hrun & _).
  rewrite Hrun. cbn.
  destruct (null_counts_err out c Hin) as (missing & -> & Hm).
  - destruct (cols out !! c) eqn:E; [|done].
    assert (Hs : is_Some (cols df !! c)).
    { apply (impute_data_present df out counts c Hin Hrun). by eexists. }
    destruct Hs as [s' Hs]. congruence.
  - by exists missing.
Qed.

(** ** The three stages together *)

Lemma length_impute_series grid months xs :
  length xs = length grid → length xs = length months →
  length (impute_series grid months xs) = length xs.
Proof.
  intros Hg Hm. unfold impute_series.
  rewrite length_stage3, length_stage2; rewrite length_stage1; congruence.
Qed.

Lemma impute_series_all_missing grid months xs :
  length xs = length grid → length xs = length months →
  dropna xs = [] → impute_series grid months xs = xs.
Proof.
  intros Hg Hm H. unfold impute_series.
  rewrite (stage1_all_missing _ _ Hg H), (stage2_all_missing _ _ Hm H).
  by apply stage3_all_missing.
Qed.

Lemma impute_series_fills grid months xs i :
  length xs = length grid → length xs = length months →
  dropna (located grid xs) ≠ [] → (i < length xs)%nat →
  ∃ v, impute_series grid months xs !! i = Some (Some v).
Proof.
  intros Hg Hm H Hi. unfold impute_series. apply stage3_fills.
  - apply stage2_nonempty; [rewrite length_stage1; congruence|].
    by apply stage1_nonempty.
  - rewrite length_stage2; rewrite length_stage1; congruence.
Qed.

(** When no row with a grid identifier holds a value, stage 1 leaves the
    column without a value and the medians have nothing to fill it with. *)
Lemma impute_series_empty grid months xs i :
  length xs = length grid → length xs = length months →
  dropna (located grid xs) = [] → (i < length xs)%nat →
  impute_series grid months xs !! i = Some None.
Proof.
  intros Hg Hm H Hi. unfold impute_series.
  pose proof (stage1_empty grid xs Hg H) as H1.
  assert (Hl1 : length (stage1 grid xs) = length months)
    by (rewrite length_stage1; congruence).
  rewrite (stage2_all_missing _ _ Hl1 H1), (stage3_all_missing _ H1).
  apply all_missing_lookup; [done|]. rewrite length_stage1. congruence.
Qed.

(** A covariate present after masking, followed through [impute_data]. *)
Lemma pipeline_masked df col ms :
  wf df → col ∈ IMPUTE_COLUMNS →
  cols (clean_and_mask df).1 !! col = Some (Float64 ms) →
  ∃ xs out counts,
    cols (prepared df) !! col = Some (Float64 xs) ∧
    xs ≡ₚ ms ∧
    length xs = len df ∧
    length (grid_id (prepared df)) = len df ∧
    length (month (prepared df)) = len df ∧
    impute_data (clean_and_mask df).1 = Ok (out, counts) ∧
    len out = len df ∧
    cols out !! col =
      Some (Float64 (impute_series (grid_id (prepared df)) (month (prepared df)) xs)) ∧
    counts !! col =
      Some (isna_sum xs -
            isna_sum (impute_series (grid_id (prepared df)) (month (prepared df)) xs)).
Proof.
  intros Hwf Hin Hms.
  destruct (prepared_masked df col ms Hwf Hin Hms) as (xs & Hx & Hp).
  destruct (prepared_lengths df col xs Hwf Hx) as (Hlx & Hlg & Hlm).
  destruct (pipeline_column df col xs Hin Hx)
    as (out & counts & Hrun & Hg & _ & _ & Hc & Hs).
  exists xs, out, counts. split_and!; try done.
  unfold len at 1. by rewrite Hg.
Qed.

Lemma ndvi_covariate : "ndvi"%string ∈ IMPUTE_COLUMNS.
Proof. decide_by_compute. Defined.

Lemma radar_vh_covariate : "radar_vh"%string ∈ IMPUTE_COLUMNS.
Proof. decide_by_compute. Defined.

Lemma example_table_complete c :
  c ∈ IMPUTE_COLUMNS → is_Some (cols example_table !! c).
Proof.
  intros Hin. unfold IMPUTE_COLUMNS in Hin.
  repeat (apply elem_of_cons in Hin as [->|Hin]; [vm_compute; by eexists|]).
  by apply not_elem_of_nil in Hin.
Defined.

(** The predicate of the code flags exactly the cells the specification
    names. *)
Lemma invalid_false_unmasked col c : invalid col c = false ↔ unmasked col c.
Proof.
  destruct c as [v|]; [|done]. unfold invalid, unmasked.
  unfold GEE_UNMASK_VALUE, MIN_VALID_LST, MAX_VALID_LST.
  destruct (String.eqb_spec col "lst_celsius") as [->|Hne].
  - rewrite !orb_false_iff. split.
    + intros [[He Hl] Hh]. apply Qltb_false in Hl, Hh. split; [|done].
      intros E. apply Qeq_bool_iff in E. congruence.
    + intros [He [Hl Hh]]; [done|]. split_and!.
      * destruct (Qeq_bool v (-999)) eqn:E; [|done].
        by apply Qeq_bool_iff in E.
      * destruct (Qltb v 10) eqn:E; [|done]. apply Qltb_true in E. lra.
      * destruct (Qltb 60 v) eqn:E; [|done]. apply Qltb_true in E. lra.
  - split.
    + intros He. split; [|done]. intros E. apply Qeq_bool_iff in E. congruence.
    + intros [He _]. destruct (Qeq_bool v (-999)) eqn:E; [|done].
      by apply Qeq_bool_iff in E.
Qed.

Lemma mask_unmasked col xs : Forall (unmasked col) xs → mask (invalid col) xs = xs.
Proof.
  induction 1 as [|c xs Hc _ IH]; [done|].
  unfold mask in *. cbn. rewrite IH.
  by rewrite (proj2 (invalid_false_unmasked col c) Hc).
Qed.

Lemma count_true_unmasked col xs :
  Forall (unmasked col) xs → count_true (invalid col) xs = 0.
Proof.
  intros H. unfold count_true.
  induction H as [|c xs Hc _ IH]; [done|].
  rewrite filter_cons_False; [done|].
  by rewrite (proj2 (invalid_false_unmasked col c) Hc).
Qed.

Lemma mask_is_unmasked col xs : Forall (unmasked col) (mask (invalid col) xs).
Proof.
  unfold mask. apply Forall_fmap, Forall_forall. intros c _. cbn.
  destruct (invalid col c) eqn:E; [done|]. by apply invalid_false_unmasked.
Qed.

Lemma DataFrame_eq df1 df2 :
  grid_id df1 = grid_id df2 → date df1 = date df2 → month df1 = month df2 →
  (∀ c, cols df1 !! c = cols df2 !! c) → df1 = df2.
Proof.
  destruct df1, df2. cbn. intros -> -> -> H. f_equal. by apply map_eq.
Qed.

(** The output of the masker is a table the masker has nothing to do on. *)
Lemma clean_and_mask_already_masked df : already_masked (clean_and_mask df).1.
Proof.
  intros col s Hin. rewrite clean_and_mask_cols, decide_True by done.
  destruct (cols df !! col) as [s0|]; [|done]. cbn. intros [= <-].
  apply mask_is_unmasked.
Qed.

Lemma reindex_lookup {A} order (xs : list A) i j :
  Forall (λ j, (j < length xs)%nat) order →
  order !! i = Some j → reindex order xs !! i = xs !! j.
Proof.
  unfold reindex. intros H. revert i.
  induction H as [|j0 order Hj0 _ IH]; intros i; [done|].
  destruct (lookup_lt_is_Some_2 xs j0 Hj0) as [x Hx].
  cbn [omap list_omap]. rewrite Hx.
  destruct i as [|i]; cbn; [by intros [= <-]|]. apply IH.
Qed.

Lemma series_row_reindex order s i j :
  Forall (λ j, (j < series_len s)%nat) order →
  order !! i = Some j →
  series_row (reindex_series order s) i = series_row s j.
Proof.
  intros H Hi. destruct s as [xs|xs]; cbn in *;
    by rewrite (reindex_lookup _ _ _ _ H Hi).
Qed.

Lemma sort_order_in_range df :
  wf df → Forall (λ j, (j < len df)%nat) (sort_order df).
Proof.
  intros Hwf. apply Forall_forall. intros j Hj.
  rewrite (sort_order_perm df Hwf) in Hj.
  apply list_elem_of_lookup in Hj as [i Hi].
  apply lookup_seq in Hi. lia.
Qed.

Lemma slope_not_covariate : "slope"%string ∉ IMPUTE_COLUMNS.
Proof. decide_by_compute. Defined.

Lemma foldr_Qmin_le v vs w : w ∈ v :: vs → (foldr Qmin v vs <= w)%Q.
Proof.
  induction vs as [|a vs IH]; cbn.
  - intros ->%list_elem_of_singleton. apply Qle_refl.
  - intros [->|[->|Hw]%elem_of_cons]%elem_of_cons.
    + eapply Qle_trans; [apply Q.le_min_r|]. apply IH. by left.
    + apply Q.le_min_l.
    + eapply Qle_trans; [apply Q.le_min_r|]. apply IH. by right.
Qed.

Lemma foldr_Qmax_ge v vs w : w ∈ v :: vs → (w <= foldr Qmax v vs)%Q.
Proof.
  induction vs as [|a vs IH]; cbn.
  - intros ->%list_elem_of_singleton. apply Qle_refl.
  - intros [->|[->|Hw]%elem_of_cons]%elem_of_cons.
    + eapply Qle_trans; [|apply Q.le_max_r]. apply IH. by left.
    + apply Q.le_max_l.
    + eapply Qle_trans; [|apply Q.le_max_r]. apply IH. by right.
Qed.

Lemma minimum_le vs lo w : minimum vs = Some lo → w ∈ vs → (lo <= w)%Q.
Proof.
  destruct vs as [|v vs]; [done|]. intros [= <-]. apply foldr_Qmin_le.
Qed.

Lemma maximum_ge vs hi w : maximum vs = Some hi → w ∈ vs → (w <= hi)%Q.
Proof.
  destruct vs as [|v vs]; [done|]. intros [= <-]. apply foldr_Qmax_ge.
Qed.

(** * The properties of the specification *)

(** The statements use the abbreviations for a column after each stage; the
    proofs work on the stages themselves. *)
Ltac unfold_stages :=
  unfold after_stage3, after_stage2, after_stage1, grid_series, month_series in *.

(** C1.  Stage 1, grid by grid.  The rows of a grid follow each other by
    ascending date in the frame the loop works on.  When the series of the
    grid for a covariate has a valid value, stage 1 leaves no cell of the
    grid missing and keeps the valid ones; a cell in a gap between the
    nearest valid cells before ([i], value [a]) and after ([j], value [b])
    receives the value on the straight line through them, the rows of the
    grid counted as equally spaced; a cell before the first valid cell
    receives its value, and a cell after the last valid cell receives its
    value. *)
Theorem C1_stage1_interpolates (df : DataFrame) (col : string) (xs : list cell) (g : Z) :
  wf df →
  col ∈ IMPUTE_COLUMNS →
  cols (prepared df) !! col = Some (Float64 xs) →
  dropna (grid_series df g xs) ≠ [] →
  StronglySorted date_le (grid_series df g (date (prepared df))) ∧
  (∀ k, (k < length (grid_series df g xs))%nat →
     ∃ v, grid_series df g (after_stage1 df xs) !! k = Some (Some v)) ∧
  (∀ k v, grid_series df g xs !! k = Some (Some v) →
     grid_series df g (after_stage1 df xs) !! k = Some (Some v)) ∧
  (∀ i j k a b,
     (i < k < j)%nat →
     grid_series df g xs !! i = Some (Some a) →
     grid_series df g xs !! j = Some (Some b) →
     (∀ t, (i < t < j)%nat → grid_series df g xs !! t = Some None) →
     ∃ v, grid_series df g (after_stage1 df xs) !! k = Some (Some v) ∧
          (v == a + (b - a) * ((pos k - pos i) / (pos j - pos i)))%Q) ∧
  (∀ j k b,
     (k < j)%nat →
     grid_series df g xs !! j = Some (Some b) →
     (∀ t, (t < j)%nat → grid_series df g xs !! t = Some None) →
     grid_series df g (after_stage1 df xs) !! k = Some (Some b)) ∧
  (∀ i k a,
     (i < k < length (grid_series df g xs))%nat →
     grid_series df g xs !! i = Some (Some a) →
     (∀ t, (i < t < length (grid_series df g xs))%nat →
        grid_series df g xs !! t = Some None) →
     grid_series df g (after_stage1 df xs) !! k = Some (Some a)).
Proof.
  unfold_stages.
  intros Hwf Hin Hx Hne.
  destruct (prepared_lengths df col xs Hwf Hx) as (Hlx & Hlg & _).
  assert (Hlen : length xs = length (grid_id (prepared df))) by congruence.
  rewrite (stage1_group _ _ _ Hlen).
  split_and!.
  - apply group_dates_sorted, sort_values_sorted. by apply clean_and_mask_wf.
  - intros k Hk. by apply interpolate_fills.
  - intros k v. apply interpolate_keeps.
  - intros i j k a b. apply interpolate_interior.
  - intros j k b. apply interpolate_leading.
  - intros i k a. apply interpolate_trailing.
Qed.

Lemma C1_stage1_interpolates_witness :
  dropna (grid_series example_table 1 example_lst) ≠ [] ∧
  ∃ v, grid_series example_table 1
         (after_stage1 example_table example_lst) !! 1%nat
       = Some (Some v) ∧ (v == 22)%Q.
Proof.
  unfold_stages.
  split; [vm_compute; discriminate|].
  destruct (C1_stage1_interpolates example_table "lst_celsius" example_lst 1
              example_table_wf lst_celsius_covariate example_lst_prepared)
    as (_ & _ & _ & Hgap & _).
  { vm_compute. discriminate. }
  destruct (Hgap 0%nat 2%nat 1%nat 20%Q 24%Q) as (v & Hv & Ev).
  - lia.
  - vm_compute. reflexivity.
  - vm_compute. reflexivity.
  - intros t Ht. assert (t = 1%nat) as -> by lia. vm_compute. reflexivity.
  - exists v. split; [exact Hv|]. rewrite Ev. vm_compute. reflexivity.
Defined.

(** C2.  Stages 2 and 3.  The column a present covariate leaves
    [impute_data] with is stage 3 of stage 2 of stage 1.  A cell still
    missing after stage 1 receives in stage 2 the median of the values of
    the covariate after stage 1 in the rows of the same month, over all
    grids: that median is the middle value in ascending order, the midpoint
    average of the two middle values for an even count, and the cell is
    filled whenever the month has a value.  A row whose month is blank
    belongs to no month and is left to stage 3.  A cell still missing after
    stage 2 receives in stage 3 the median, in the same sense, of the values
    of the covariate after stage 2. *)
Theorem C2_median_fallbacks (df : DataFrame) (col : string) (xs : list cell) :
  wf df →
  col ∈ IMPUTE_COLUMNS →
  cols (prepared df) !! col = Some (Float64 xs) →
  (∃ out counts,
     impute_data (clean_and_mask df).1 = Ok (out, counts) ∧
     cols out !! col = Some (Float64 (after_stage3 df xs))) ∧
  (∀ i, after_stage1 df xs !! i = Some None →
     ∃ k, month (prepared df) !! i = Some k ∧
       match k with
       | Some m =>
           after_stage2 df xs !! i =
             Some (median (month_series df m (after_stage1 df xs))) ∧
           (∀ v, after_stage2 df xs !! i = Some (Some v) →
              is_median (dropna (month_series df m (after_stage1 df xs))) v) ∧
           (dropna (month_series df m (after_stage1 df xs)) ≠ [] →
              ∃ v, after_stage2 df xs !! i = Some (Some v))
       | None => after_stage2 df xs !! i = Some None
       end) ∧
  (∀ i, after_stage2 df xs !! i = Some None →
     after_stage3 df xs !! i = Some (median (after_stage2 df xs)) ∧
     (∀ v, after_stage3 df xs !! i = Some (Some v) →
        is_median (dropna (after_stage2 df xs)) v) ∧
     (dropna (after_stage2 df xs) ≠ [] →
        ∃ v, after_stage3 df xs !! i = Some (Some v))).
Proof.
  unfold_stages.
  intros Hwf Hin Hx.
  destruct (prepared_lengths df col xs Hwf Hx) as (Hlx & Hlg & Hlm).
  set (grid := grid_id (prepared df)) in *.
  set (months := month (prepared df)) in *.
  split_and!.
  - destruct (pipeline_column df col xs Hin Hx)
      as (out & counts & Hrun & _ & _ & _ & Hc & _).
    by exists out, counts.
  - intros i Hi.
    destruct (lookup_lt_is_Some_2 months i) as [k Hm].
    { rewrite Hlm, <-Hlg. fold grid. rewrite <-(length_stage1 grid xs).
      by eapply lookup_lt_Some. }
    exists k. split; [done|].
    destruct k as [m|]; [|by rewrite stage2_lookup, Hi, Hm].
    assert (E : stage2 months (stage1 grid xs) !! i =
                Some (median (group (Some m) months (stage1 grid xs)))).
    { by rewrite stage2_lookup, Hi, Hm. }
    split_and!; [done| |].
    + intros v Hv. rewrite E in Hv. injection Hv as Hv.
      by apply median_is_median.
    + intros Hne. destruct (median_Some _ Hne) as [v Hv].
      exists v. by rewrite E, Hv.
  - intros i Hi.
    assert (E : stage3 (stage2 months (stage1 grid xs)) !! i =
                Some (median (stage2 months (stage1 grid xs)))).
    { by rewrite stage3_lookup, Hi. }
    split_and!; [done| |].
    + intros v Hv. rewrite E in Hv. injection Hv as Hv.
      by apply median_is_median.
    + intros Hne. destruct (median_Some _ Hne) as [v Hv].
      exists v. by rewrite E, Hv.
Qed.

Lemma C2_median_fallbacks_witness :
  after_stage1 example_table example_lst !! 4%nat = Some None ∧
  month (prepared example_table) !! 4%nat = Some (Some 2) ∧
  month_series example_table 2 (after_stage1 example_table example_lst)
  = [Some (44 # 2)%Q; None; Some 21%Q] ∧
  after_stage2 example_table example_lst !! 4%nat
  = Some (median [Some (44 # 2)%Q; None; Some 21%Q]) ∧
  ∃ v, median [Some (44 # 2)%Q; None; Some 21%Q] = Some v ∧ (v == 43 / 2)%Q.
Proof.
  unfold_stages.
  destruct (C2_median_fallbacks example_table "lst_celsius" example_lst
              example_table_wf lst_celsius_covariate example_lst_prepared)
    as (_ & H2 & _).
  assert (H1 : stage1 (grid_id (prepared example_table)) example_lst !! 4%nat
               = Some None)
    by (vm_compute; reflexivity).
  destruct (H2 4%nat H1) as (k & Hm & E).
  assert (k = Some 2) as -> by (vm_compute in Hm; congruence).
  destruct E as (E & _). unfold_stages.
  split; [exact H1|]. split; [exact Hm|].
  assert (G : group (Some 2) (month (prepared example_table))
                (stage1 (grid_id (prepared example_table)) example_lst)
              = [Some (44 # 2)%Q; None; Some 21%Q])
    by (vm_compute; reflexivity).
  split; [exact G|]. rewrite G in E. split; [exact E|].
  eexists. split; [vm_compute; reflexivity|]. vm_compute. reflexivity.
Defined.

(** C3.  When the table has a temperature column, its cells are missing or
    lie in [10, 60] and differ from -999 after masking, in the sorted frame,
    after each of the three stages, and so in the table [impute_data]
    returns. *)
Theorem C3_temperature_within_bounds (df : DataFrame) (s : Series) :
  wf df →
  cols df !! "lst_celsius"%string = Some s →
  ∃ ms xs out counts,
    cols (clean_and_mask df).1 !! "lst_celsius"%string = Some (Float64 ms) ∧
    Forall temperature_ok ms ∧
    cols (prepared df) !! "lst_celsius"%string = Some (Float64 xs) ∧
    Forall temperature_ok xs ∧
    Forall temperature_ok (after_stage1 df xs) ∧
    Forall temperature_ok (after_stage2 df xs) ∧
    Forall temperature_ok (after_stage3 df xs) ∧
    impute_data (clean_and_mask df).1 = Ok (out, counts) ∧
    cols out !! "lst_celsius"%string = Some (Float64 (after_stage3 df xs)).
Proof.
  unfold_stages.
  intros Hwf Hs.
  pose proof lst_celsius_covariate as Hin.
  assert (Hx : cols (prepared df) !! "lst_celsius"%string =
               Some (Float64 (reindex (sort_order df) (masked_cells "lst_celsius" s)))).
  { by rewrite prepared_cols, decide_True, Hs by done. }
  destruct (pipeline_column df _ _ Hin Hx)
    as (out & counts & Hrun & _ & _ & _ & Hc & _).
  destruct (prepared_lengths df _ _ Hwf Hx) as (Hlx & Hlg & _).
  exists (masked_cells "lst_celsius" s), (reindex (sort_order df) (masked_cells "lst_celsius" s)),
    out, counts.
  assert (H0 : Forall temperature_ok
                 (reindex (sort_order df) (masked_cells "lst_celsius" s))).
  { apply Forall_forall. intros c Hc'%elem_of_reindex.
    by apply (proj1 (Forall_forall _ _) (mask_lst_ok (to_numeric s))). }
  assert (H1 : Forall temperature_ok
                 (stage1 (grid_id (prepared df))
                    (reindex (sort_order df) (masked_cells "lst_celsius" s)))).
  { apply temperature_ok_bounds, stage1_all_bounds; [congruence|].
    by apply temperature_ok_bounds. }
  assert (H2 : Forall temperature_ok
                 (stage2 (month (prepared df))
                    (stage1 (grid_id (prepared df))
                       (reindex (sort_order df) (masked_cells "lst_celsius" s))))).
  { apply temperature_ok_bounds, stage2_all_bounds. by apply temperature_ok_bounds. }
  split_and!; try done.
  - by rewrite clean_and_mask_cols, decide_True, Hs by done.
  - apply mask_lst_ok.
  - apply temperature_ok_bounds, stage3_all_bounds. by apply temperature_ok_bounds.
Qed.

Lemma C3_temperature_within_bounds_witness :
  ∃ out counts zs,
    impute_data (clean_and_mask example_table).1 = Ok (out, counts) ∧
    cols out !! "lst_celsius"%string = Some (Float64 zs) ∧
    Forall temperature_ok zs.
Proof.
  destruct (C3_temperature_within_bounds example_table
              (Object [RBlank; RNum 24; RNum 18; RNum 20; RText "no data"; RNum 5;
                       RNum (-999); RNum 21; RBlank])
              example_table_wf)
    as (ms & xs & out & counts & _ & _ & _ & _ & _ & _ & H3 & Hrun & Hc).
  { vm_compute. reflexivity. }
  exists out, counts. eexists. split; [exact Hrun|]. split; [exact Hc|exact H3].
Defined.

(** C4.  A value in a row without a grid identifier does not count.  In
    [example_blank_grid] the only temperature of the table stands in the row
    whose grid identifier is blank.  The column has a valid value after
    masking, but [groupby('grid_id')] leaves the row out, stage 1 writes NaN
    over its cell, no median is defined, and every cell of the column
    [impute_data] returns is missing; the report counts -1 imputed values
    and three missing ones. *)
Theorem C4_blank_grid_id_loses_value :
  wf example_blank_grid ∧
  cols (clean_and_mask example_blank_grid).1 !! "lst_celsius"%string =
    Some (Float64 [None; Some 20%Q; None]) ∧
  cols (prepared example_blank_grid) !! "lst_celsius"%string =
    Some (Float64 [None; None; Some 20%Q]) ∧
  grid_id (prepared example_blank_grid) = [Some 1; Some 1; None] ∧
  after_stage1 example_blank_grid [None; None; Some 20%Q] = [None; None; None] ∧
  median (after_stage2 example_blank_grid [None; None; Some 20%Q]) = None ∧
  (∃ out counts,
     impute_data (clean_and_mask example_blank_grid).1 = Ok (out, counts) ∧
     cols out !! "lst_celsius"%string = Some (Float64 [None; None; None]) ∧
     counts !! "lst_celsius"%string = Some (-1)) ∧
  (∃ out stats,
     preprocess_file example_blank_grid = Ok (out, stats) ∧
     total_rows stats = 3%nat ∧
     values_imputed stats !! "lst_celsius"%string = Some (-1) ∧
     final_null_count stats !! "lst_celsius"%string = Some 3).
Proof.
  split; [decide_by_compute|].
  split; [vm_compute; reflexivity|].
  split; [vm_compute; reflexivity|].
  split; [vm_compute; reflexivity|].
  split; [vm_compute; reflexivity|].
  split; [vm_compute; reflexivity|].
  split.
  - destruct (impute_data (clean_and_mask example_blank_grid).1)
      as [[out counts]|e] eqn:E.
    + exists out, counts. split; [reflexivity|].
      assert (H : match impute_data (clean_and_mask example_blank_grid).1 with
                  | Ok (o, c) =>
                      (cols o !! "lst_celsius"%string, c !! "lst_celsius"%string)
                  | Err _ => (None, None)
                  end = (Some (Float64 [None; None; None]), Some (-1)))
        by (vm_compute; reflexivity).
      rewrite E in H. injection H as H1 H2. split; [exact H1|exact H2].
    + exfalso.
      assert (H : match impute_data (clean_and_mask example_blank_grid).1 with
                  | Ok _ => true
                  | Err _ => false
                  end = true) by (vm_compute; reflexivity).
      by rewrite E in H.
  - destruct (preprocess_file example_blank_grid) as [[out stats]|e] eqn:E.
    + exists out, stats. split; [reflexivity|].
      assert (H : match preprocess_file example_blank_grid with
                  | Ok (_, st) =>
                      (total_rows st,
                       values_imputed st !! "lst_celsius"%string,
                       final_null_count st !! "lst_celsius"%string)
                  | Err _ => (0%nat, None, None)
                  end = (3%nat, Some (-1), Some 3)) by (vm_compute; reflexivity).
      rewrite E in H. injection H as H1 H2 H3.
      split; [exact H1|]. split; [exact H2|exact H3].
    + exfalso.
      assert (H : match preprocess_file example_blank_grid with
                  | Ok _ => true
                  | Err _ => false
                  end = true) by (vm_compute; reflexivity).
      by rewrite E in H.
Qed.

(** C5.  For a covariate present in the table, the number of missing cells
    after masking is the count [impute_data] reports for it plus the number
    of cells still missing in the column it returns; the report of
    [preprocess_file], whenever one is built, carries these two numbers as
    [values_imputed] and [final_null_count]; and a report is built for every
    table that has the five covariates. *)
Theorem C5_count_conservation (df : DataFrame) (col : string) (ms : list cell) :
  wf df →
  col ∈ IMPUTE_COLUMNS →
  cols (clean_and_mask df).1 !! col = Some (Float64 ms) →
  (∃ out counts imputed zs,
     impute_data (clean_and_mask df).1 = Ok (out, counts) ∧
     counts !! col = Some imputed ∧
     cols out !! col = Some (Float64 zs) ∧
     isna_sum ms = imputed + isna_sum zs) ∧
  (∀ out stats,
     preprocess_file df = Ok (out, stats) →
     ∃ imputed still_missing,
       values_imputed stats !! col = Some imputed ∧
       final_null_count stats !! col = Some still_missing ∧
       isna_sum ms = imputed + still_missing) ∧
  ((∀ c, c ∈ IMPUTE_COLUMNS → is_Some (cols df !! c)) →
   ∃ out stats, preprocess_file df = Ok (out, stats)).
Proof.
  intros Hwf Hin Hms.
  destruct (pipeline_masked df col ms Hwf Hin Hms)
    as (xs & out & counts & Hx & Hp & _ & _ & _ & Hrun & _ & Hc & Hs).
  rewrite (isna_sum_Permutation _ _ Hp) in Hs.
  split_and!.
  - exists out, counts. eexists _, _. split_and!; [done..|]. lia.
  - intros out' stats Hpre.
    destruct (preprocess_file_inv _ _ _ Hpre) as (counts' & nulls & Hrun' & _ & Hn & ->).
    rewrite Hrun in Hrun'. injection Hrun' as <- <-.
    cbn [values_imputed final_null_count].
    eexists _, _. split; [exact Hs|]. rewrite (Hn col Hin), Hc. cbn.
    split; [done|]. lia.
  - apply preprocess_file_ok.
Qed.

Lemma C5_count_conservation_witness :
  ∃ out stats,
    preprocess_file example_table = Ok (out, stats) ∧
    values_imputed stats !! "lst_celsius"%string = Some 5 ∧
    final_null_count stats !! "lst_celsius"%string = Some 0 ∧
    isna_sum [None; Some 24; Some 18; Some 20; None; None; None; Some 21; None]%Q
    = 5 + 0.
Proof.
  destruct (C5_count_conservation example_table "lst_celsius"
              [None; Some 24; Some 18; Some 20; None; None; None; Some 21; None]%Q
              example_table_wf lst_celsius_covariate)
    as (_ & Hrep & Hok).
  { vm_compute. reflexivity. }
  destruct (Hok example_table_complete) as (out & stats & Hpre).
  destruct (Hrep out stats Hpre) as (a & b & Ha & Hb & E).
  exists out, stats. split; [exact Hpre|].
  assert (Ha' : match preprocess_file example_table with
                | Ok (_, st) => values_imputed st !! "lst_celsius"%string
                | Err _ => None
                end = Some 5) by (vm_compute; reflexivity).
  assert (Hb' : match preprocess_file example_table with
                | Ok (_, st) => final_null_count st !! "lst_celsius"%string
                | Err _ => None
                end = Some 0) by (vm_compute; reflexivity).
  rewrite Hpre in Ha', Hb'. rewrite Ha' in Ha. rewrite Hb' in Hb.
  injection Ha as <-. injection Hb as <-.
  split; [exact Ha'|]. split; [exact Hb'|]. exact E.
Defined.

(** C6.  On a table without the [ndvi] column the masker and the imputer
    skip [ndvi] and report nothing for it, but [preprocess_file] builds no
    report: selecting the five covariates for the final count of missing
    cells raises a KeyError that names [ndvi]. *)
Theorem C6_absent_covariate_raises :
  wf example_without_ndvi ∧
  cols example_without_ndvi !! "ndvi"%string = None ∧
  cols (clean_and_mask example_without_ndvi).1 !! "ndvi"%string = None ∧
  (clean_and_mask example_without_ndvi).2 !! "ndvi"%string = None ∧
  (∃ out counts,
     impute_data (clean_and_mask example_without_ndvi).1 = Ok (out, counts) ∧
     cols out !! "ndvi"%string = None ∧
     counts !! "ndvi"%string = None) ∧
  preprocess_file example_without_ndvi = Err (KeyError ["ndvi"%string]).
Proof.
  split; [decide_by_compute|].
  split; [vm_compute; reflexivity|].
  split; [vm_compute; reflexivity|].
  split; [vm_compute; reflexivity|].
  split; [|vm_compute; reflexivity].
  destruct (impute_data (clean_and_mask example_without_ndvi).1)
    as [[out counts]|e] eqn:E.
  - exists out, counts. split; [reflexivity|].
    assert (H : match impute_data (clean_and_mask example_without_ndvi).1 with
                | Ok (o, c) => (cols o !! "ndvi"%string, c !! "ndvi"%string)
                | Err _ => (None, Some 0)
                end = (None, None)) by (vm_compute; reflexivity).
    rewrite E in H. injection H as H1 H2. split; [exact H1|exact H2].
  - exfalso.
    assert (H : match impute_data (clean_and_mask example_without_ndvi).1 with
                | Ok _ => true
                | Err _ => false
                end = true) by (vm_compute; reflexivity).
    by rewrite E in H.
Qed.

(** C7.  For a covariate present in the table whose cells are all missing
    after masking, [impute_data] returns, every cell of the column is still
    missing and its count of missing cells is the number of rows; the report
    of [preprocess_file], whenever one is built, gives that number both as
    [total_rows] and as [final_null_count] of the covariate; and a report is
    built for every table that has the five covariates. *)
Theorem C7_all_missing_covariate (df : DataFrame) (col : string) (ms : list cell) :
  wf df →
  col ∈ IMPUTE_COLUMNS →
  cols (clean_and_mask df).1 !! col = Some (Float64 ms) →
  dropna ms = [] →
  (∃ out counts zs,
     impute_data (clean_and_mask df).1 = Ok (out, counts) ∧
     cols out !! col = Some (Float64 zs) ∧
     length zs = len df ∧
     (∀ i, (i < len df)%nat → zs !! i = Some None) ∧
     isna_sum zs = Z.of_nat (len df)) ∧
  (∀ out stats,
     preprocess_file df = Ok (out, stats) →
     total_rows stats = len df ∧
     final_null_count stats !! col = Some (Z.of_nat (total_rows stats))) ∧
  ((∀ c, c ∈ IMPUTE_COLUMNS → is_Some (cols df !! c)) →
   ∃ out stats, preprocess_file df = Ok (out, stats)).
Proof.
  intros Hwf Hin Hms Hnone.
  destruct (pipeline_masked df col ms Hwf Hin Hms)
    as (xs & out & counts & Hx & Hp & Hlx & Hlg & Hlm & Hrun & Hlen & Hc & _).
  assert (Hd : dropna xs = []).
  { pose proof (dropna_Permutation _ _ Hp) as Hp'. rewrite Hnone in Hp'.
    by apply Permutation_nil_r in Hp'. }
  rewrite impute_series_all_missing in Hc by congruence.
  assert (Hall : ∀ i, (i < length xs)%nat → xs !! i = Some None)
    by (intros i Hi; by apply all_missing_lookup).
  assert (Hsum : isna_sum xs = Z.of_nat (len df))
    by (rewrite isna_sum_all_missing by done; by rewrite Hlx).
  split_and!.
  - exists out, counts, xs. split_and!; try done.
    intros i Hi. apply Hall. lia.
  - intros out' stats Hpre.
    destruct (preprocess_file_inv _ _ _ Hpre) as (counts' & nulls & Hrun' & _ & Hn & ->).
    rewrite Hrun in Hrun'. injection Hrun' as <- <-.
    cbn [total_rows final_null_count]. split; [done|].
    rewrite (Hn col Hin), Hc. cbn. by rewrite Hsum, Hlen.
  - apply preprocess_file_ok.
Qed.

Lemma C7_all_missing_covariate_witness :
  ∃ out stats,
    preprocess_file example_table = Ok (out, stats) ∧
    total_rows stats = 9%nat ∧
    final_null_count stats !! "radar_vh"%string = Some 9 ∧
    cols out !! "radar_vh"%string = Some (Float64 (replicate 9 None)).
Proof.
  destruct (C7_all_missing_covariate example_table "radar_vh" (replicate 9 None)
              example_table_wf radar_vh_covariate)
    as (_ & Hrep & Hok).
  { vm_compute. reflexivity. }
  { reflexivity. }
  destruct (Hok example_table_complete) as (out & stats & Hpre).
  destruct (Hrep out stats Hpre) as (Hrows & Hnull).
  exists out, stats. split; [exact Hpre|].
  split; [exact Hrows|]. split; [by rewrite Hnull, Hrows|].
  assert (Hc : match preprocess_file example_table with
               | Ok (o, _) => cols o !! "radar_vh"%string
               | Err _ => None
               end = Some (Float64 (replicate 9 None))) by (vm_compute; reflexivity).
  by rewrite Hpre in Hc.
Defined.

(** C8.  On a table whose covariates hold no sentinel and no out-of-range
    temperature the masker reports zero for every covariate present, and
    masks no cell: a covariate column comes back as its numeric reading
    (text that does not read as a number reads as missing before and
    after), every other column comes back as it is, and a table whose
    covariates are float columns - such as a table the masker has already
    processed - comes back identical. *)
Theorem C8_masking_idempotent (df : DataFrame) :
  already_masked df →
  (∀ col, col ∈ IMPUTE_COLUMNS → is_Some (cols df !! col) →
     (clean_and_mask df).2 !! col = Some 0) ∧
  (∀ col s, col ∈ IMPUTE_COLUMNS → cols df !! col = Some s →
     cols (clean_and_mask df).1 !! col = Some (Float64 (to_numeric s))) ∧
  (∀ col, col ∉ IMPUTE_COLUMNS →
     cols (clean_and_mask df).1 !! col = cols df !! col) ∧
  (numeric IMPUTE_COLUMNS df → (clean_and_mask df).1 = df).
Proof.
  intros Hdf. split_and!.
  - intros col Hin [s Hs]. rewrite clean_and_mask_stats, decide_True, Hs by done.
    cbn. f_equal. apply count_true_unmasked. by apply Hdf.
  - intros col s Hin Hs. rewrite clean_and_mask_cols, decide_True, Hs by done.
    cbn. unfold masked_series. do 2 f_equal. apply mask_unmasked. by apply Hdf.
  - intros col Hin. by rewrite clean_and_mask_cols, decide_False.
  - intros Hnum. destruct (clean_and_mask_keys df) as (Hg & Hd & Hm).
    apply DataFrame_eq; try done.
    intros c. rewrite clean_and_mask_cols. case_decide as Hin; [|done].
    destruct (cols df !! c) as [s|] eqn:Hs; [|done]. cbn.
    destruct (Hnum c s Hin Hs) as [xs ->]. unfold masked_series. cbn.
    do 2 f_equal. apply mask_unmasked. by apply (Hdf c (Float64 xs)).
Qed.

Lemma C8_masking_idempotent_witness :
  (clean_and_mask (clean_and_mask example_table).1).2 !! "lst_celsius"%string
    = Some 0 ∧
  (clean_and_mask (clean_and_mask example_table).1).1 = (clean_and_mask example_table).1 ∧
  (clean_and_mask example_table).2 !! "lst_celsius"%string = Some 2.
Proof.
  destruct (C8_masking_idempotent (clean_and_mask example_table).1
              (clean_and_mask_already_masked example_table))
    as (Hzero & _ & _ & Hsame).
  split; [|split].
  - apply Hzero; [exact lst_celsius_covariate|]. vm_compute. by eexists.
  - apply Hsame, clean_and_mask_numeric.
  - vm_compute. reflexivity.
Defined.

(** C9.  A column that is not one of the five covariates is never masked or
    imputed.  The masker returns it, and the three key columns, as they are
    and reports nothing for it.  The imputer returns the rows in the order of
    [sort_values], a permutation of the row positions that is the same for
    every column, and reports nothing for the column; the row at position
    [i] of the result is the row at position [j] of the input, with the
    value the input has there. *)
Theorem C9_other_columns_pass_through (df : DataFrame) (c : string) :
  wf df →
  c ∉ IMPUTE_COLUMNS →
  (cols (clean_and_mask df).1 !! c = cols df !! c ∧
   grid_id (clean_and_mask df).1 = grid_id df ∧
   date (clean_and_mask df).1 = date df ∧
   month (clean_and_mask df).1 = month df ∧
   (clean_and_mask df).2 !! c = None) ∧
  ∃ out counts,
    impute_data (clean_and_mask df).1 = Ok (out, counts) ∧
    sort_order df ≡ₚ seq 0 (len df) ∧
    cols out !! c = reindex_series (sort_order df) <$> cols df !! c ∧
    grid_id out = reindex (sort_order df) (grid_id df) ∧
    date out = reindex (sort_order df) (date df) ∧
    month out = reindex (sort_order df) (month df) ∧
    counts !! c = None ∧
    (∀ i j s s',
       sort_order df !! i = Some j →
       cols df !! c = Some s → cols out !! c = Some s' →
       series_row s' i = series_row s j) ∧
    (∀ i j,
       sort_order df !! i = Some j →
       grid_id out !! i = grid_id df !! j ∧
       date out !! i = date df !! j ∧
       month out !! i = month df !! j).
Proof.
  intros Hwf Hc.
  destruct (clean_and_mask_keys df) as (Hg & Hd & Hm).
  split.
  { split_and!; try done.
    - by rewrite clean_and_mask_cols, decide_False.
    - by rewrite clean_and_mask_stats, decide_False. }
  destruct (impute_data_ok _ (clean_and_mask_numeric df))
    as (out & counts & Hrun & Hg' & Hd' & Hm' & Hc' & Hs').
  fold (prepared df) in *.
  destruct (prepared_keys df) as (Hpg & Hpd & Hpm).
  rewrite Hpg in Hg'. rewrite Hpd in Hd'. rewrite Hpm in Hm'.
  assert (Hcol : cols out !! c = reindex_series (sort_order df) <$> cols df !! c).
  { by rewrite Hc', decide_False, prepared_cols, decide_False. }
  pose proof (sort_order_in_range df Hwf) as Hrange.
  destruct Hwf as (Hld & Hlm & Hlc).
  exists out, counts. split_and!; try done.
  - by apply sort_order_perm.
  - by rewrite Hs', decide_False.
  - intros i j s s' Hi Hs. rewrite Hcol, Hs. cbn. intros [= <-].
    apply series_row_reindex; [|done]. by rewrite (Hlc c s Hs).
  - intros i j Hi. rewrite Hg', Hd', Hm'. split_and!.
    + by apply reindex_lookup.
    + apply reindex_lookup; [|done]. by rewrite Hld.
    + apply reindex_lookup; [|done]. by rewrite Hlm.
Qed.

Lemma C9_other_columns_pass_through_witness :
  sort_order example_table = [3; 6; 1; 0; 4; 8; 2; 7; 5]%nat ∧
  ∃ out counts,
    impute_data (clean_and_mask example_table).1 = Ok (out, counts) ∧
    cols out !! "slope"%string =
      Some (Float64 [Some 1; Some 1; Some 1; Some 2; Some 2; Some 2;
                     Some 3; Some 3; Some 3]%Q) ∧
    counts !! "slope"%string = None.
Proof.
  split; [vm_compute; reflexivity|].
  destruct (C9_other_columns_pass_through example_table "slope"
              example_table_wf slope_not_covariate)
    as (_ & out & counts & Hrun & _ & Hcol & _ & _ & _ & Hcnt & _).
  exists out, counts. split; [exact Hrun|]. split; [|exact Hcnt].
  rewrite Hcol. vm_compute. reflexivity.
Defined.

(** C10.  A value in a row without a grid identifier is overwritten.  In
    [example_blank_grid] the vegetation index of the row whose grid
    identifier is blank is a valid 9/10.  [groupby('grid_id')] leaves the
    row out and stage 1 writes NaN over the cell; stage 2 then fills it with
    the median of its month, 1/5.  The column [impute_data] returns holds
    1/5 where the input held 9/10, and the report counts no imputed
    value. *)
Theorem C10_blank_grid_id_overwritten :
  cols (clean_and_mask example_blank_grid).1 !! "ndvi"%string =
    Some (Float64 [Some (1 # 5); Some (9 # 10); Some (2 # 5)]%Q) ∧
  sort_order example_blank_grid = [0; 2; 1]%nat ∧
  cols (prepared example_blank_grid) !! "ndvi"%string =
    Some (Float64 [Some (1 # 5); Some (2 # 5); Some (9 # 10)]%Q) ∧
  grid_id (prepared example_blank_grid) = [Some 1; Some 1; None] ∧
  after_stage1 example_blank_grid [Some (1 # 5); Some (2 # 5); Some (9 # 10)]%Q =
    [Some (1 # 5); Some (2 # 5); None]%Q ∧
  after_stage2 example_blank_grid [Some (1 # 5); Some (2 # 5); Some (9 # 10)]%Q =
    [Some (1 # 5); Some (2 # 5); Some (1 # 5)]%Q ∧
  (∃ out counts,
     impute_data (clean_and_mask example_blank_grid).1 = Ok (out, counts) ∧
     cols out !! "ndvi"%string =
       Some (Float64 [Some (1 # 5); Some (2 # 5); Some (1 # 5)]%Q) ∧
     counts !! "ndvi"%string = Some 0).
Proof.
  split; [vm_compute; reflexivity|].
  split; [vm_compute; reflexivity|].
  split; [vm_compute; reflexivity|].
  split; [vm_compute; reflexivity|].
  split; [vm_compute; reflexivity|].
  split; [vm_compute; reflexivity|].
  destruct (impute_data (clean_and_mask example_blank_grid).1)
    as [[out counts]|e] eqn:E.
  - exists out, counts. split; [reflexivity|].
    assert (H : match impute_data (clean_and_mask example_blank_grid).1 with
                | Ok (o, c) => (cols o !! "ndvi"%string, c !! "ndvi"%string)
                | Err _ => (None, None)
                end = (Some (Float64 [Some (1 # 5); Some (2 # 5); Some (1 # 5)]%Q),
                       Some 0)) by (vm_compute; reflexivity).
    rewrite E in H. injection H as H1 H2. split; [exact H1|exact H2].
  - exfalso.
    assert (H : match impute_data (clean_and_mask example_blank_grid).1 with
                | Ok _ => true
                | Err _ => false
                end = true) by (vm_compute; reflexivity).
    by rewrite E in H.
Qed.

(** * Further properties of the code *)

(** ** clean_and_mask *)

Lemma mask_lookup inv xs i :
  mask inv xs !! i = (λ c : cell, if inv c then None else c) <$> xs !! i.
Proof. unfold mask. by rewrite list_lookup_fmap. Qed.

Lemma isna_sum_cons c xs :
  isna_sum (c :: xs) = (if c is None then 1 else 0) + isna_sum xs.
Proof.
  unfold isna_sum. rewrite filter_cons. destruct c; cbn [decide].
  - rewrite decide_False by done. lia.
  - rewrite decide_True by done. cbn [length]. lia.
Qed.

Lemma count_true_cons inv c xs :
  count_true inv (c :: xs) = (if inv c then 1 else 0) + count_true inv xs.
Proof.
  unfold count_true. rewrite filter_cons. destruct (inv c).
  - rewrite decide_True by done. cbn [length]. lia.
  - rewrite decide_False by done. lia.
Qed.

Lemma isna_sum_range xs : 0 ≤ isna_sum xs ≤ Z.of_nat (length xs).
Proof.
  induction xs as [|c xs IH]; [done|].
  rewrite isna_sum_cons. cbn [length]. destruct c; lia.
Qed.

(** Masking adds the flagged cells, which all hold a number, to the missing
    ones. *)
Lemma mask_accounting col xs :
  isna_sum (mask (invalid col) xs) = isna_sum xs + count_true (invalid col) xs ∧
  0 ≤ count_true (invalid col) xs ≤ Z.of_nat (length xs) - isna_sum xs.
Proof.
  induction xs as [|c xs [IH1 IH2]]; [done|].
  unfold mask in *. cbn [fmap list_fmap].
  rewrite !isna_sum_cons, count_true_cons, IH1. cbn [length].
  destruct c as [v|]; [|cbn; lia].
  destruct (invalid col (Some v)); lia.
Qed.

(** X1.  The cells of a covariate after masking.  For a covariate present in
    the table, the masked column has the rows of the input column; a cell
    whose numeric reading is not the sentinel -999 and, in the temperature
    column, lies in [10, 60] comes back as that reading; every other cell
    comes back missing.  Outside the temperature column only the sentinel is
    masked. *)
Theorem X1_masked_cells (df : DataFrame) (col : string) (s : Series) :
  col ∈ IMPUTE_COLUMNS →
  cols df !! col = Some s →
  ∃ ms,
    cols (clean_and_mask df).1 !! col = Some (Float64 ms) ∧
    length ms = series_len s ∧
    (∀ i c, to_numeric s !! i = Some c → unmasked col c → ms !! i = Some c) ∧
    (∀ i c, to_numeric s !! i = Some c → ¬ unmasked col c → ms !! i = Some None) ∧
    (∀ i v, col ≠ "lst_celsius"%string → to_numeric s !! i = Some (Some v) →
       ¬ (v == -999)%Q → ms !! i = Some (Some v)).
Proof.
  intros Hin Hs. exists (masked_cells col s).
  assert (Hkeep : ∀ i c, to_numeric s !! i = Some c → unmasked col c →
                    masked_cells col s !! i = Some c).
  { intros i c Hc Hu. unfold masked_cells. rewrite mask_lookup, Hc. cbn.
    by rewrite (proj2 (invalid_false_unmasked col c) Hu). }
  split_and!.
  - by rewrite clean_and_mask_cols, decide_True, Hs by done.
  - unfold masked_cells. by rewrite length_mask, length_to_numeric.
  - done.
  - intros i c Hc Hu. unfold masked_cells. rewrite mask_lookup, Hc. cbn.
    destruct (invalid col c) eqn:E; [done|].
    by apply invalid_false_unmasked in E.
  - intros i v Hne Hv Hs999. apply Hkeep; [done|]. by split.
Qed.

Lemma X1_masked_cells_witness :
  ∃ ms,
    cols (clean_and_mask example_table).1 !! "rainfall_mm"%string = Some (Float64 ms) ∧
    ms !! 1%nat = Some None ∧ ms !! 5%nat = Some (Some 40%Q).
Proof.
  destruct (X1_masked_cells example_table "rainfall_mm"
              (Float64 [Some 12; Some (-999); Some 3; Some 7; Some 0; Some 40;
                        Some 9; Some 11; Some 2]%Q))
    as (ms & Hms & _ & _ & Hdrop & Hkeep).
  { decide_by_compute. }
  { vm_compute. reflexivity. }
  exists ms. split; [exact Hms|]. split.
  - apply (Hdrop 1%nat (Some (-999)%Q)); [reflexivity|].
    intros [H _]. apply H. reflexivity.
  - apply (Hkeep 5%nat 40%Q); [discriminate|reflexivity|].
    intros H. vm_compute in H. discriminate.
Defined.

(** X2.  The count the masker reports.  For a covariate present in the table
    the reported count is the number of cells that held a number and were
    masked: the missing cells after masking are the cells that do not read
    as a number plus the reported count, so that blanks and text are not
    counted; the count lies between 0 and the number of cells that read as a
    number. *)
Theorem X2_masked_count (df : DataFrame) (col : string) (s : Series) :
  col ∈ IMPUTE_COLUMNS →
  cols df !! col = Some s →
  ∃ ms n,
    cols (clean_and_mask df).1 !! col = Some (Float64 ms) ∧
    (clean_and_mask df).2 !! col = Some n ∧
    isna_sum ms = isna_sum (to_numeric s) + n ∧
    0 ≤ n ≤ Z.of_nat (series_len s) - isna_sum (to_numeric s).
Proof.
  intros Hin Hs. exists (masked_cells col s), (count_true (invalid col) (to_numeric s)).
  destruct (mask_accounting col (to_numeric s)) as [H1 H2].
  rewrite length_to_numeric in H2. split_and!.
  - by rewrite clean_and_mask_cols, decide_True, Hs by done.
  - by rewrite clean_and_mask_stats, decide_True, Hs by done.
  - exact H1.
  - apply H2.
  - apply H2.
Qed.

Lemma X2_masked_count_witness :
  ∃ ms,
    cols (clean_and_mask example_table).1 !! "lst_celsius"%string = Some (Float64 ms) ∧
    (clean_and_mask example_table).2 !! "lst_celsius"%string = Some 2 ∧
    isna_sum ms = 3 + 2.
Proof.
  destruct (X2_masked_count example_table "lst_celsius"
              (Object [RBlank; RNum 24; RNum 18; RNum 20; RText "no data"; RNum 5;
                       RNum (-999); RNum 21; RBlank]) lst_celsius_covariate)
    as (ms & n & Hms & Hn & Hsum & _).
  { vm_compute. reflexivity. }
  assert (Hn' : (clean_and_mask example_table).2 !! "lst_celsius"%string = Some 2)
    by (vm_compute; reflexivity).
  rewrite Hn' in Hn. injection Hn as <-.
  exists ms. split; [exact Hms|]. split; [exact Hn'|]. exact Hsum.
Defined.

(** ** impute_data on a numeric frame *)

Lemma sort_values_lengths df xs c :
  wf df → cols (sort_values df) !! c = Some (Float64 xs) →
  length xs = len df ∧
  length (grid_id (sort_values df)) = len df ∧
  length (month (sort_values df)) = len df.
Proof.
  intros Hwf Hx. pose proof (sort_values_wf df Hwf) as (_ & Hm & Hc).
  rewrite <-(sort_values_len df Hwf). split_and!; [|done..].
  apply (Hc c _ Hx).
Qed.

Lemma imputed_series_len grid months s n :
  series_len s = n → length grid = n → length months = n →
  series_len (imputed_series grid months s) = n.
Proof.
  intros Hs Hg Hm. destruct s as [xs|xs]; cbn in *; [done|].
  rewrite length_impute_series; congruence.
Qed.

(** The columns of the imputed table are the columns of the input. *)
Lemma impute_data_columns df out counts c :
  impute_data (clean_and_mask df).1 = Ok (out, counts) →
  (is_Some (cols out !! c) ↔ is_Some (cols df !! c)).
Proof.
  intros Hrun.
  destruct (impute_data_ok _ (clean_and_mask_numeric df))
    as (out' & counts' & Hrun' & _ & _ & _ & Hc & _).
  rewrite Hrun in Hrun'. injection Hrun' as <- <-.
  rewrite Hc. fold (prepared df). rewrite prepared_cols.
  repeat case_decide; by rewrite !fmap_is_Some.
Qed.

(** X3.  Columns and report keys.  Neither the masker nor the imputer adds or
    drops a column, and each reports a count for exactly the covariates that
    are columns of the table. *)
Theorem X3_report_keys (df : DataFrame) (c : string) :
  (is_Some (cols (clean_and_mask df).1 !! c) ↔ is_Some (cols df !! c)) ∧
  (is_Some ((clean_and_mask df).2 !! c) ↔
     c ∈ IMPUTE_COLUMNS ∧ is_Some (cols df !! c)) ∧
  ∃ out counts,
    impute_data (clean_and_mask df).1 = Ok (out, counts) ∧
    (is_Some (cols out !! c) ↔ is_Some (cols df !! c)) ∧
    (is_Some (counts !! c) ↔ c ∈ IMPUTE_COLUMNS ∧ is_Some (cols df !! c)).
Proof.
  assert (Hm : is_Some (cols (clean_and_mask df).1 !! c) ↔ is_Some (cols df !! c)).
  { rewrite clean_and_mask_cols. case_decide; [|done]. by rewrite fmap_is_Some. }
  split_and!; [done| |].
  - rewrite clean_and_mask_stats. case_decide as Hin.
    + rewrite fmap_is_Some. split; [by split|by intros [_ ?]].
    + split; [by intros [? ?]|by intros [? _]].
  - destruct (impute_data_ok _ (clean_and_mask_numeric df))
      as (out & counts & Hrun & _ & _ & _ & _ & Hs).
    exists out, counts. split; [done|]. split.
    + by eapply impute_data_columns.
    + rewrite Hs. case_decide as Hin.
      * rewrite fmap_is_Some. fold (prepared df).
        rewrite prepared_cols, decide_True, fmap_is_Some by done.
        split; [by split|by intros [_ ?]].
      * split; [by intros [? ?]|by intros [? _]].
Qed.

(** X4.  The table the imputer returns.  On a table whose covariates are
    float columns [impute_data] returns; the result has the rows of the
    input, as many as the input, in ascending order of grid identifier, the
    rows without one last, and, among rows with the same grid identifier,
    of date with missing dates last, whether or not any covariate is
    present; and every column has that many rows. *)
Theorem X4_imputed_table_sorted (df : DataFrame) :
  wf df →
  numeric IMPUTE_COLUMNS df →
  ∃ out counts,
    impute_data df = Ok (out, counts) ∧
    wf out ∧
    len out = len df ∧
    sort_order df ≡ₚ seq 0 (len df) ∧
    grid_id out = reindex (sort_order df) (grid_id df) ∧
    date out = reindex (sort_order df) (date df) ∧
    month out = reindex (sort_order df) (month df) ∧
    StronglySorted key_le (zip (grid_id out) (date out)).
Proof.
  intros Hwf Hnum.
  destruct (impute_data_ok df Hnum)
    as (out & counts & Hrun & Hg & Hd & Hm & Hc & _).
  pose proof (sort_values_wf df Hwf) as (Hsd & Hsm & Hsc).
  pose proof (sort_values_len df Hwf) as Hlen.
  assert (Hlo : len out = len df) by (unfold len at 1; by rewrite Hg).
  exists out, counts. split_and!; try done.
  - unfold wf. rewrite Hlo, Hd, Hm, <-Hlen. split_and!; [done..|].
    intros c s. rewrite Hc. case_decide.
    + destruct (cols (sort_values df) !! c) as [s0|] eqn:E; [|done].
      cbn. intros [= <-]. apply imputed_series_len; [by apply (Hsc c)|done..].
    + apply Hsc.
  - by apply sort_order_perm.
  - rewrite Hg, Hd. by apply sort_values_sorted.
Qed.

Lemma X4_imputed_table_sorted_witness :
  ∃ out counts,
    impute_data (clean_and_mask example_table).1 = Ok (out, counts) ∧
    grid_id out = Some <$> [1; 1; 1; 2; 2; 2; 3; 3; 3] ∧
    date out = [Some 1; Some 32; Some 60; Some 1; Some 32; Some 60;
                Some 1; Some 32; Some 60] ∧
    len out = 9%nat.
Proof.
  destruct (X4_imputed_table_sorted (clean_and_mask example_table).1)
    as (out & counts & Hrun & _ & Hlen & _ & Hg & Hd & _).
  { apply (bool_decide_unpack _). vm_compute. exact I. }
  { apply clean_and_mask_numeric. }
  exists out, counts. split; [exact Hrun|].
  rewrite Hg, Hd, Hlen. vm_compute. auto.
Defined.

(** X8.  The covariates [preprocess_file] needs.  Among the tables that
    have the key columns [grid_id], [date] and [month], which are the tables
    a [DataFrame] stands for: on a table that has the five covariate columns
    [preprocess_file] returns the imputed table with a report whose
    [total_rows] is the number of rows of that table, whose
    [outliers_masked] is the masker's report and whose [values_imputed] is
    the imputer's; on a table that lacks one of them it raises a KeyError
    that lists exactly the covariates that are not columns, in the order of
    [IMPUTE_COLUMNS].  (A table without a key column raises a KeyError at
    line 88, 57, 72 or 102 and is not covered.) *)
Theorem X8_preprocess_file_outcome (df : DataFrame) :
  (filter (λ c, cols df !! c = None) IMPUTE_COLUMNS = [] →
   ∃ out counts stats,
     impute_data (clean_and_mask df).1 = Ok (out, counts) ∧
     preprocess_file df = Ok (out, stats) ∧
     total_rows stats = len out ∧
     outliers_masked stats = (clean_and_mask df).2 ∧
     values_imputed stats = counts) ∧
  (filter (λ c, cols df !! c = None) IMPUTE_COLUMNS ≠ [] →
   preprocess_file df =
     Err (KeyError (filter (λ c, cols df !! c = None) IMPUTE_COLUMNS))).
Proof.
  destruct (impute_data_ok _ (clean_and_mask_numeric df))
    as (out & counts & Hrun & _).
  assert (Hsame : filter (λ c, cols out !! c = None) IMPUTE_COLUMNS =
                  filter (λ c, cols df !! c = None) IMPUTE_COLUMNS).
  { apply list_filter_iff. intros c.
    pose proof (impute_data_columns df out counts c Hrun) as Hp.
    rewrite <-!not_eq_None_Some in Hp. split; intros E.
    - destruct (cols df !! c) eqn:E'; [|done]. exfalso. by apply (proj2 Hp).
    - destruct (cols out !! c) eqn:E'; [|done]. exfalso. by apply (proj1 Hp). }
  split.
  - intros Hall. destruct (preprocess_file_ok df) as (out' & stats & Hpre).
    { by apply select_missing. }
    destruct (preprocess_file_inv _ _ _ Hpre) as (counts' & nulls & Hrun' & _ & _ & ->).
    rewrite Hrun in Hrun'. injection Hrun' as <- <-.
    by eexists _, _, _.
  - intros Hne. rewrite preprocess_file_unfold, Hrun.
    cbn [mbind result_bind fst]. unfold null_counts, select. rewrite Hsame.
    set (missing := filter (λ c, cols df !! c = None) IMPUTE_COLUMNS) in *.
    by destruct missing.
Qed.

Lemma X8_preprocess_file_outcome_witness :
  preprocess_file example_without_ndvi = Err (KeyError ["ndvi"%string]).
Proof.
  rewrite (proj2 (X8_preprocess_file_outcome example_without_ndvi)).
  - vm_compute. reflexivity.
  - vm_compute. discriminate.
Defined.

(** ** Sorting a sorted table *)

Lemma zip_seq_sorted ks m :
  StronglySorted key_le ks → StronglySorted row_le (zip ks (seq m (length ks))).
Proof.
  intros H. revert m. induction H as [|k ks Hs IH Hk]; intros m; [constructor|].
  cbn. constructor; [apply IH|].
  apply Forall_forall. intros [k' p] Hin.
  apply list_elem_of_lookup in Hin as [i Hi].
  rewrite lookup_zip_with in Hi.
  destruct (ks !! i) as [k''|] eqn:Ek; [|done]. cbn in Hi.
  destruct (seq (S m) (length ks) !! i) as [p'|] eqn:Ep; [|done]. cbn in Hi.
  injection Hi as -> ->. apply lookup_seq in Ep as [-> _].
  rewrite Forall_forall in Hk. split; cbn.
  - apply Hk. by eapply list_elem_of_lookup_2.
  - intros _. lia.
Qed.

(** A stable sort leaves a sorted list of keys in place. *)
Lemma argsort_sorted ks :
  StronglySorted key_le ks → argsort ks = seq 0 (length ks).
Proof.
  intros H. unfold argsort.
  rewrite (StronglySorted_unique_strong row_le
             (merge_sort row_le (zip ks (seq 0 (length ks))))
             (zip ks (seq 0 (length ks)))).
  - apply snd_zip. by rewrite length_seq.
  - intros [k1 p1] [k2 p2] H1 H2 [H12' H12] [H21 H21'].
    rewrite merge_sort_Permutation in H1.
    pose proof (proj1 (Forall_forall _ _) (zip_seq_tagged ks) _ H1) as T1.
    pose proof (proj1 (Forall_forall _ _) (zip_seq_tagged ks) _ H2) as T2.
    cbn in *. specialize (H12 H21). specialize (H21' H12').
    assert (p1 = p2) as -> by lia.
    congruence.
  - apply StronglySorted_merge_sort; apply _.
  - by apply zip_seq_sorted.
  - apply merge_sort_Permutation.
Qed.

Lemma reindex_series_seq s : reindex_series (seq 0 (series_len s)) s = s.
Proof. destruct s; cbn [reindex_series series_len]; by rewrite reindex_seq. Qed.

(** [sort_values] returns a table that is already in order as it is. *)
Lemma sort_values_sorted_id df :
  wf df → StronglySorted key_le (zip (grid_id df) (date df)) → sort_values df = df.
Proof.
  intros (Hd & Hm & Hc) Hs.
  assert (Ho : sort_order df = seq 0 (len df)).
  { unfold sort_order. rewrite (argsort_sorted _ Hs), length_zip_with.
    unfold len in *. by rewrite Hd, Nat.min_id. }
  apply DataFrame_eq; unfold sort_values; cbn [grid_id date month cols];
    rewrite Ho.
  - apply reindex_seq.
  - rewrite <-Hd. apply reindex_seq.
  - rewrite <-Hm. apply reindex_seq.
  - intros c. rewrite lookup_fmap.
    destruct (cols df !! c) as [s|] eqn:E; [|done]. cbn.
    by rewrite <-(Hc c s E), reindex_series_seq.
Qed.

(** ** Columns the imputer has nothing to do on *)

Lemma isna_sum_complete xs : Forall is_Some xs → isna_sum xs = 0.
Proof.
  induction 1 as [|c xs [v ->] _ IH]; [done|].
  by rewrite isna_sum_cons, IH.
Qed.

Lemma impute_series_complete grid months xs :
  length xs = length grid → length xs = length months →
  Forall is_Some grid →
  Forall is_Some xs → impute_series grid months xs = xs.
Proof.
  intros Hg Hm Hgrid Hxs. apply list_eq. intros i.
  destruct (xs !! i) as [c|] eqn:E.
  - rewrite Forall_lookup in Hxs. destruct (Hxs i c E) as [v ->].
    destruct (lookup_lt_is_Some_2 grid i) as [k Hk].
    { rewrite <-Hg. by eapply lookup_lt_Some. }
    rewrite Forall_lookup in Hgrid. destruct (Hgrid i k Hk) as [z ->].
    unfold impute_series. apply stage3_keeps, stage2_keeps.
    + rewrite length_stage1. congruence.
    + by eapply stage1_keeps.
  - apply lookup_ge_None in E. apply lookup_ge_None_2.
    rewrite length_impute_series by done. lia.
Qed.

(** After the three stages a column is complete, or no row with a grid
    identifier held a value and the column is missing throughout. *)
Lemma impute_series_outcome grid months xs :
  length xs = length grid → length xs = length months →
  (dropna (located grid xs) ≠ [] ∧
   Forall is_Some (impute_series grid months xs)) ∨
  (dropna (located grid xs) = [] ∧
   dropna (impute_series grid months xs) = []).
Proof.
  intros Hg Hm. destruct (decide (dropna (located grid xs) = [])) as [E|Hne].
  - right. split; [done|].
    destruct (dropna (impute_series grid months xs)) as [|v vs] eqn:Ed; [done|].
    exfalso.
    assert (Hv : Some v ∈ impute_series grid months xs)
      by (apply elem_of_dropna; rewrite Ed; left).
    apply list_elem_of_lookup in Hv as [i Hi].
    rewrite impute_series_empty in Hi; [done..|].
    apply lookup_lt_Some in Hi. by rewrite length_impute_series in Hi.
  - left. split; [done|]. apply Forall_lookup. intros i c Hc.
    destruct (impute_series_fills grid months xs i Hg Hm Hne) as [v Hv].
    + apply lookup_lt_Some in Hc. by rewrite length_impute_series in Hc.
    + rewrite Hv in Hc. injection Hc as <-. by eexists.
Qed.

Lemma impute_series_idempotent grid months xs :
  length xs = length grid → length xs = length months →
  Forall is_Some grid →
  impute_series grid months (impute_series grid months xs) =
  impute_series grid months xs.
Proof.
  intros Hg Hm Hgrid.
  destruct (impute_series_outcome grid months xs Hg Hm) as [[_ H]|[_ H]].
  - apply impute_series_complete; [rewrite length_impute_series; done..|done|done].
  - apply impute_series_all_missing; [by rewrite length_impute_series..|done].
Qed.

Lemma reindex_fmap {A B} (f : A → B) order (xs : list A) :
  reindex order (f <$> xs) = f <$> reindex order xs.
Proof.
  unfold reindex. induction order as [|i order IH]; [done|].
  cbn [omap list_omap]. rewrite IH, list_lookup_fmap.
  by destruct (xs !! i).
Qed.

(** Blanking the cells of the rows without grid identifier and sorting
    commute. *)
Lemma located_reindex order grid xs :
  length xs = length grid →
  located (reindex order grid) (reindex order xs) =
  reindex order (located grid xs).
Proof.
  intros Hlen. unfold located.
  rewrite (zip_with_zip transformed (reindex order grid)).
  rewrite (zip_with_zip transformed grid).
  rewrite <-reindex_zip by done. by rewrite reindex_fmap.
Qed.

(** Sorting keeps the values of the rows with a grid identifier. *)
Lemma located_prepared df xs :
  wf df → length xs = len df →
  located (grid_id (prepared df)) (reindex (sort_order df) xs) ≡ₚ
  located (grid_id df) xs.
Proof.
  intros Hwf Hlen. destruct (prepared_keys df) as (-> & _).
  rewrite located_reindex by done.
  apply reindex_Permutation. unfold located.
  rewrite length_zip_with. unfold len in Hlen. rewrite Hlen, Nat.min_id.
  by apply sort_order_perm.
Qed.

(** The result of [impute_data] on a numeric table, for reuse. *)
Lemma impute_data_numeric_facts df :
  wf df →
  numeric IMPUTE_COLUMNS df →
  ∃ out counts,
    impute_data df = Ok (out, counts) ∧
    wf out ∧
    len out = len df ∧
    StronglySorted key_le (zip (grid_id out) (date out)) ∧
    grid_id out = grid_id (sort_values df) ∧
    month out = month (sort_values df) ∧
    (∀ c, cols out !! c =
       if decide (c ∈ IMPUTE_COLUMNS)
       then imputed_series (grid_id (sort_values df)) (month (sort_values df))
              <$> cols (sort_values df) !! c
       else cols (sort_values df) !! c).
Proof.
  intros Hwf Hnum.
  destruct (impute_data_ok df Hnum)
    as (out & counts & Hrun & Hg & Hd & Hm & Hc & _).
  pose proof (sort_values_wf df Hwf) as (Hsd & Hsm & Hsc).
  pose proof (sort_values_len df Hwf) as Hlen.
  assert (Hlo : len out = len df) by (unfold len at 1; by rewrite Hg).
  exists out, counts. split_and!; try done.
  - unfold wf. rewrite Hlo, Hd, Hm, <-Hlen. split_and!; [done..|].
    intros c s. rewrite Hc. case_decide.
    + destruct (cols (sort_values df) !! c) as [s0|] eqn:E; [|done].
      cbn. intros [= <-]. apply imputed_series_len; [by apply (Hsc c)|done..].
    + apply Hsc.
  - rewrite Hg, Hd. by apply sort_values_sorted.
Qed.

(** X5.  All or nothing in the report.  In a report of [preprocess_file],
    for each covariate: when a row with a grid identifier holds a value
    after masking, no cell is left missing, [final_null_count] is 0 and
    [values_imputed] is the number of cells that were missing after masking;
    otherwise every cell is left missing, [final_null_count] is
    [total_rows] and [values_imputed] is the number of cells that were
    missing after masking less [total_rows], which is 0 when the column had
    no value and negative when its values stood in rows without grid
    identifier. *)
Theorem X5_report_all_or_nothing (df out : DataFrame) (stats : Stats) (col : string) :
  wf df →
  col ∈ IMPUTE_COLUMNS →
  preprocess_file df = Ok (out, stats) →
  ∃ ms,
    cols (clean_and_mask df).1 !! col = Some (Float64 ms) ∧
    ((dropna (located (grid_id df) ms) ≠ [] ∧
      values_imputed stats !! col = Some (isna_sum ms) ∧
      final_null_count stats !! col = Some 0) ∨
     (dropna (located (grid_id df) ms) = [] ∧
      values_imputed stats !! col =
        Some (isna_sum ms - Z.of_nat (total_rows stats)) ∧
      final_null_count stats !! col = Some (Z.of_nat (total_rows stats)))).
Proof.
  intros Hwf Hin Hpre.
  destruct (preprocess_file_inv _ _ _ Hpre) as (counts & nulls & Hrun & Hnull & Hn & ->).
  pose proof (null_counts_inv _ _ Hnull col Hin) as Hpres.
  apply (impute_data_present df out counts col Hin Hrun) in Hpres as [s Hs].
  assert (Hms : cols (clean_and_mask df).1 !! col =
                Some (Float64 (masked_cells col s)))
    by by rewrite clean_and_mask_cols, decide_True, Hs.
  destruct (pipeline_masked df col _ Hwf Hin Hms)
    as (xs & out' & counts' & Hx & Hp & Hlx & Hlg & Hlm & Hrun' & Hlen & Hc & Hcnt).
  rewrite Hrun in Hrun'. injection Hrun' as <- <-.
  assert (Hxs : xs = reindex (sort_order df) (masked_cells col s)).
  { rewrite prepared_cols, decide_True, Hs in Hx by done. cbn in Hx. congruence. }
  assert (Hlms : length (masked_cells col s) = len df).
  { rewrite <-Hlx. symmetry. by apply Permutation_length. }
  exists (masked_cells col s). split; [done|].
  cbn [values_imputed final_null_count total_rows].
  rewrite (Hn col Hin), Hc, Hcnt. cbn [fmap option_fmap option_map series_isna_sum].
  pose proof (isna_sum_Permutation _ _ Hp) as Hperm.
  assert (Hd : dropna (located (grid_id (prepared df)) xs) = [] ↔
               dropna (located (grid_id df) (masked_cells col s)) = []).
  { pose proof (dropna_Permutation _ _
                  (located_prepared df (masked_cells col s) Hwf Hlms)) as Hp'.
    rewrite <-Hxs in Hp'. split; intros E; rewrite E in Hp'.
    - by apply Permutation_nil_l in Hp'.
    - by apply Permutation_nil_r in Hp'. }
  destruct (impute_series_outcome (grid_id (prepared df)) (month (prepared df)) xs)
    as [[Hne Hfull]|[Hnone Hzero]]; [congruence..| |].
  - left. rewrite (isna_sum_complete _ Hfull). split_and!.
    + by rewrite <-Hd.
    + f_equal. lia.
    + done.
  - right.
    assert (Hall : isna_sum (impute_series (grid_id (prepared df))
                               (month (prepared df)) xs) = Z.of_nat (len out)).
    { rewrite isna_sum_all_missing.
      - rewrite length_impute_series by congruence. by rewrite Hlx, Hlen.
      - intros i Hi. by apply all_missing_lookup. }
    rewrite Hall. split_and!.
    + by apply Hd.
    + f_equal. lia.
    + done.
Qed.

Lemma X5_report_all_or_nothing_witness :
  ∃ out stats,
    preprocess_file example_blank_grid = Ok (out, stats) ∧
    values_imputed stats !! "lst_celsius"%string = Some (-1) ∧
    final_null_count stats !! "lst_celsius"%string = Some 3 ∧
    values_imputed stats !! "ndvi"%string = Some 0 ∧
    final_null_count stats !! "ndvi"%string = Some 0.
Proof.
  destruct (preprocess_file example_blank_grid) as [[out stats]|e] eqn:Hpre;
    last first.
  { exfalso.
    assert (H : match preprocess_file example_blank_grid with
                | Ok _ => true
                | Err _ => false
                end = true) by (vm_compute; reflexivity).
    by rewrite Hpre in H. }
  exists out, stats. split; [reflexivity|].
  assert (Hrows : match preprocess_file example_blank_grid with
                  | Ok (_, st) => total_rows st
                  | Err _ => 0%nat
                  end = 3%nat) by (vm_compute; reflexivity).
  rewrite Hpre in Hrows.
  assert (Hwf : wf example_blank_grid) by decide_by_compute.
  destruct (X5_report_all_or_nothing example_blank_grid out stats "lst_celsius"
              Hwf lst_celsius_covariate Hpre)
    as (ms & Hms & [(Hne & _)|(_ & Hi & Hf)]).
  - exfalso. apply Hne. vm_compute in Hms. injection Hms as <-.
    vm_compute. reflexivity.
  - destruct (X5_report_all_or_nothing example_blank_grid out stats "ndvi"
                Hwf ndvi_covariate Hpre)
      as (ms' & Hms' & [(_ & Hi' & Hf')|(Hnone & _)]).
    + vm_compute in Hms. injection Hms as <-.
      vm_compute in Hms'. injection Hms' as <-.
      rewrite Hrows in Hi, Hf.
      split; [exact Hi|]. split; [exact Hf|]. split; [exact Hi'|exact Hf'].
    + exfalso. vm_compute in Hms'. injection Hms' as <-. discriminate Hnone.
Defined.

(** Sorting keeps the grid identifiers of the rows. *)
Lemma sort_values_grid_present df :
  wf df → Forall is_Some (grid_id df) → Forall is_Some (grid_id (sort_values df)).
Proof.
  intros Hwf Hall. unfold sort_values. cbn [grid_id].
  rewrite reindex_Permutation; [done|]. by apply sort_order_perm.
Qed.

(** X6.  Imputation is idempotent.  For a table in which every row has a
    grid identifier, running [impute_data] on the table it returned gives
    the same table again, rows and cells, and reports 0 for every
    covariate.  (In a row without a grid identifier a second run erases the
    cell again and fills it with a median computed over other rows than in
    the first run; the property is stated for tables without such rows.) *)
Theorem X6_impute_data_idempotent (df out : DataFrame) (counts : gmap string Z) :
  wf df →
  numeric IMPUTE_COLUMNS df →
  Forall is_Some (grid_id df) →
  impute_data df = Ok (out, counts) →
  ∃ counts',
    impute_data out = Ok (out, counts') ∧
    ∀ c, c ∈ IMPUTE_COLUMNS → is_Some (cols df !! c) → counts' !! c = Some 0.
Proof.
  intros Hwf Hnum Hgrid Hrun.
  apply (sort_values_grid_present df Hwf) in Hgrid.
  destruct (impute_data_numeric_facts df Hwf Hnum)
    as (out0 & counts0 & Hrun0 & Hwfo & Hlen & Hsorted & Hg & Hm & Hc).
  rewrite Hrun in Hrun0. injection Hrun0 as <- <-.
  assert (Hnumo : numeric IMPUTE_COLUMNS out).
  { intros c s Hin. rewrite Hc, decide_True by done.
    destruct (cols (sort_values df) !! c) as [s0|] eqn:E; [|done].
    cbn. intros [= <-].
    destruct (sort_values_numeric _ _ Hnum c s0 Hin E) as [xs ->]. by eexists. }
  destruct (impute_data_ok out Hnumo)
    as (out2 & counts2 & Hrun2 & Hg2 & Hd2 & Hm2 & Hc2 & Hs2).
  rewrite (sort_values_sorted_id out Hwfo Hsorted) in *.
  assert (Hcol : ∀ c, c ∈ IMPUTE_COLUMNS →
            (imputed_series (grid_id out) (month out) <$> cols out !! c = cols out !! c) ∧
            (is_Some (cols out !! c) →
             (λ s, series_isna_sum s -
                   series_isna_sum (imputed_series (grid_id out) (month out) s))
               <$> cols out !! c = Some 0)).
  { intros c Hin. rewrite Hc, decide_True by done.
    destruct (cols (sort_values df) !! c) as [s0|] eqn:E; [|by split; [|intros [? ?]]].
    destruct (sort_values_numeric _ _ Hnum c s0 Hin E) as [xs ->].
    destruct (sort_values_lengths df xs c Hwf E) as (Hlx & Hlg & Hlm).
    cbn [fmap option_fmap option_map imputed_series series_isna_sum].
    rewrite Hg, Hm, impute_series_idempotent by (done || congruence).
    split; [done|]. intros _. f_equal. lia. }
  exists counts2. split.
  - rewrite Hrun2. do 2 f_equal. apply DataFrame_eq; try done.
    intros c. rewrite Hc2. case_decide as Hin; [|done]. by apply Hcol.
  - intros c Hin Hpres. rewrite Hs2, decide_True by done.
    apply Hcol; [done|]. rewrite Hc, decide_True, fmap_is_Some by done.
    unfold sort_values. cbn [cols]. by rewrite lookup_fmap, fmap_is_Some.
Qed.

Lemma X6_impute_data_idempotent_witness :
  ∃ out counts counts',
    impute_data (clean_and_mask example_table).1 = Ok (out, counts) ∧
    impute_data out = Ok (out, counts') ∧
    counts !! "lst_celsius"%string = Some 5 ∧
    counts' !! "lst_celsius"%string = Some 0.
Proof.
  destruct (impute_data_ok _ (clean_and_mask_numeric example_table))
    as (out & counts & Hrun & _).
  destruct (X6_impute_data_idempotent (clean_and_mask example_table).1 out counts)
    as (counts' & Hrun' & Hzero).
  { apply (bool_decide_unpack _). vm_compute. exact I. }
  { apply clean_and_mask_numeric. }
  { apply (bool_decide_unpack _). vm_compute. exact I. }
  { exact Hrun. }
  exists out, counts, counts'. split; [exact Hrun|]. split; [exact Hrun'|].
  split.
  - assert (H : match impute_data (clean_and_mask example_table).1 with
                | Ok (_, c) => c !! "lst_celsius"%string
                | Err _ => None
                end = Some 5) by (vm_compute; reflexivity).
    by rewrite Hrun in H.
  - apply Hzero; [exact lst_celsius_covariate|]. vm_compute. by eexists.
Defined.

(** X7.  Covariates are treated one by one.  Two tables with the same key
    columns that agree on a column get the same masked and the same imputed
    column and the same two counts for it, whatever their other columns
    hold and whichever of them are present. *)
Theorem X7_columns_independent (df1 df2 : DataFrame) (c : string) :
  grid_id df1 = grid_id df2 →
  date df1 = date df2 →
  month df1 = month df2 →
  cols df1 !! c = cols df2 !! c →
  cols (clean_and_mask df1).1 !! c = cols (clean_and_mask df2).1 !! c ∧
  (clean_and_mask df1).2 !! c = (clean_and_mask df2).2 !! c ∧
  ∃ out1 counts1 out2 counts2,
    impute_data (clean_and_mask df1).1 = Ok (out1, counts1) ∧
    impute_data (clean_and_mask df2).1 = Ok (out2, counts2) ∧
    cols out1 !! c = cols out2 !! c ∧
    counts1 !! c = counts2 !! c.
Proof.
  intros Hg Hd Hm Hc.
  assert (Ho : sort_order df1 = sort_order df2)
    by (unfold sort_order; by rewrite Hg, Hd).
  assert (Hp : cols (prepared df1) !! c = cols (prepared df2) !! c)
    by by rewrite !prepared_cols, Hc, Ho.
  destruct (prepared_keys df1) as (Hg1 & _ & Hm1).
  destruct (prepared_keys df2) as (Hg2 & _ & Hm2).
  rewrite Ho, Hg in Hg1. rewrite Ho, Hm in Hm1.
  split_and!.
  - by rewrite !clean_and_mask_cols, Hc.
  - by rewrite !clean_and_mask_stats, Hc.
  - destruct (impute_data_ok _ (clean_and_mask_numeric df1))
      as (out1 & counts1 & Hrun1 & _ & _ & _ & Hc1 & Hs1).
    destruct (impute_data_ok _ (clean_and_mask_numeric df2))
      as (out2 & counts2 & Hrun2 & _ & _ & _ & Hc2 & Hs2).
    exists out1, counts1, out2, counts2. fold (prepared df1) in *.
    fold (prepared df2) in *. split_and!; [done..| |].
    + by rewrite Hc1, Hc2, Hg1, Hm1, Hg2, Hm2, Hp.
    + by rewrite Hs1, Hs2, Hg1, Hm1, Hg2, Hm2, Hp.
Qed.

Lemma X7_columns_independent_witness :
  ∃ out1 counts1 out2 counts2,
    impute_data (clean_and_mask example_table).1 = Ok (out1, counts1) ∧
    impute_data (clean_and_mask example_without_ndvi).1 = Ok (out2, counts2) ∧
    cols out1 !! "lst_celsius"%string = cols out2 !! "lst_celsius"%string ∧
    counts1 !! "lst_celsius"%string = counts2 !! "lst_celsius"%string.
Proof.
  destruct (X7_columns_independent example_table example_without_ndvi "lst_celsius")
    as (_ & _ & H); [reflexivity..|vm_compute; reflexivity|exact H].
Defined.

(** ** Stage 1 stays inside the grid *)



(** ** The files main works on *)

Lemma strip_prefix_Some p s r : strip_prefix p s = Some r ↔ s = p +:+ r.
Proof.
  revert s. induction p as [|a p IH]; intros s; cbn.
  { split; [by intros [= ->]|by intros ->]. }
  destruct s as [|b s]; [done|].
  destruct (Ascii.eqb_spec a b) as [->|Hne].
  - rewrite IH. split; [by intros ->|by intros [= ->]].
  - split; [done|]. by intros [= <- _].
Qed.

Lemma ends_with_spec suffix s : ends_with suffix s = true ↔ ∃ r, s = r +:+ suffix.
Proof.
  induction s as [|a s IH]; cbn [ends_with].
  - rewrite orb_false_r, String.eqb_eq. split.
    + intros <-. by exists ""%string.
    + intros [[|b r] Hr]; [done|discriminate Hr].
  - rewrite orb_true_iff, String.eqb_eq, IH. split.
    + intros [<-|[r ->]]; [by exists ""%string|by exists (String a r)].
    + intros [[|b r] Hr]; [by left|]. right. exists r. by injection Hr.
Qed.

Lemma glob_match_spec name :
  glob_match name = true ↔
  ∃ middle, name = ("kerala_env_" +:+ middle +:+ ".csv")%string.
Proof.
  unfold glob_match. split.
  - destruct (strip_prefix _ name) as [rest|] eqn:E; [|done].
    apply strip_prefix_Some in E as ->. intros [r ->]%ends_with_spec. by exists r.
  - intros [middle ->].
    rewrite (proj2 (strip_prefix_Some _ _ (middle +:+ ".csv")) eq_refl).
    apply ends_with_spec. by exists middle.
Qed.

Lemma listdir_elem `{FileIO} (fs : files) (dir name : string) :
  name ∈ listdir fs dir ↔ is_Some (fs !! (dir, name)).
Proof.
  unfold listdir. rewrite list_elem_of_fmap. split.
  - intros ([d n] & -> & [Hd Hin]%list_elem_of_filter). cbn in *. subst d.
    apply list_elem_of_fmap in Hin as ([p c] & -> & Hin).
    apply elem_of_map_to_list in Hin. by exists c.
  - intros [c Hc]. exists (dir, name). split; [done|].
    apply list_elem_of_filter. split; [done|].
    apply list_elem_of_fmap. exists (dir, name, c). split; [done|].
    by apply elem_of_map_to_list.
Qed.

Lemma listdir_NoDup `{FileIO} (fs : files) (dir : string) : NoDup (listdir fs dir).
Proof.
  unfold listdir. apply NoDup_fmap_2_strong.
  - intros [d1 n1] [d2 n2] [H1 _]%list_elem_of_filter [H2 _]%list_elem_of_filter.
    cbn in *. congruence.
  - apply NoDup_filter, NoDup_fst_map_to_list.
Qed.

Lemma csv_files_elem `{FileIO} (fs : files) (dir name : string) :
  name ∈ csv_files fs dir ↔ is_Some (fs !! (dir, name)) ∧ glob_match name = true.
Proof.
  unfold csv_files. rewrite merge_sort_Permutation, list_elem_of_filter, listdir_elem.
  tauto.
Qed.

Lemma csv_files_NoDup `{FileIO} (fs : files) (dir : string) : NoDup (csv_files fs dir).
Proof.
  unfold csv_files. rewrite merge_sort_Permutation.
  apply NoDup_filter, listdir_NoDup.
Qed.

Lemma summary_not_csv `{FileIO} (fs : files) (dir : string) : summary_name ∉ csv_files fs dir.
Proof. rewrite csv_files_elem. by intros [_ ?]. Qed.

(** ** One file *)

Lemma cleaned_insert_ne `{FileIO} (fs : files) (p : path) (c : content) (source : path) :
  p ≠ source → cleaned (<[p := c]> fs) source = cleaned fs source.
Proof. intros Hne. unfold cleaned. by rewrite lookup_insert_ne. Qed.

(** ** The loop of main *)

(** The report of a file, when it can be processed. *)
Lemma process_files_stats `{FileIO} (data_dir output_dir : string) (names : list string) :
  NoDup names →
  ∀ (fs : files) all_stats,
    (process_files data_dir output_dir names fs all_stats).2 =
    all_stats ++
    omap (λ name, (λ r, (name, r.2)) <$> cleaned fs (data_dir, name)) names.
Proof.
  induction 1 as [|name rest Hnotin Hnd IH]; intros fs all_stats.
  { cbn. by rewrite app_nil_r. }
  cbn [process_files omap list_omap]. unfold preprocess_source.
  destruct (cleaned fs (data_dir, name)) as [r|] eqn:E; cbn.
  - rewrite IH, <-app_assoc. cbn. do 2 f_equal.
    apply list_omap_ext, Forall2_same_length_lookup_2; [done|].
    intros i n n' Hn Hn'. rewrite Hn in Hn'. injection Hn' as <-.
    rewrite cleaned_insert_ne; [done|].
    intros [= _ ->]. apply Hnotin. by eapply list_elem_of_lookup_2.
  - apply IH.
Qed.

Lemma process_files_lookup `{FileIO} (data_dir output_dir : string) (names : list string) :
  NoDup names →
  ∀ (fs : files) all_stats dir name,
    (process_files data_dir output_dir names fs all_stats).1 !! (dir, name) =
    if decide (dir = output_dir ∧ name ∈ names)
    then match cleaned fs (data_dir, name) with
         | Some r => Some (to_csv r.1)
         | None => fs !! (dir, name)
         end
    else fs !! (dir, name).
Proof.
  induction 1 as [|n rest Hnotin Hnd IH]; intros fs all_stats dir name.
  { cbn. case_decide as Hd; [|done]. destruct Hd as [_ Hd]. by apply elem_of_nil in Hd. }
  cbn [process_files]. unfold preprocess_source.
  destruct (cleaned fs (data_dir, n)) as [r|] eqn:E; cbn.
  - rewrite IH. destruct (decide (name = n)) as [->|Hne].
    + rewrite decide_False by (by intros [_ ?]).
      case_decide as Hd.
      * destruct Hd as [-> _]. by rewrite E, lookup_insert_eq.
      * rewrite lookup_insert_ne; [done|]. intros [= ->]. apply Hd.
        split; [done|]. apply list_elem_of_here.
    + rewrite cleaned_insert_ne by congruence.
      rewrite lookup_insert_ne by congruence.
      assert (Hiff : name ∈ n :: rest ↔ name ∈ rest)
        by (rewrite elem_of_cons; tauto).
      do 2 case_decide; try done; tauto.
  - rewrite IH. destruct (decide (name = n)) as [->|Hne].
    + rewrite decide_False by (by intros [_ ?]).
      case_decide; [by rewrite E|done].
    + assert (Hiff : name ∈ n :: rest ↔ name ∈ rest)
        by (rewrite elem_of_cons; tauto).
      do 2 case_decide; try done; tauto.
Qed.

(** What [main] does after the loop, in terms of the loop's result. *)
Lemma main_unfold `{FileIO} (data_dir output_dir : string) (fs : files) :
  main data_dir output_dir fs =
  let csv := csv_files fs data_dir in
  let fs1 := (process_files data_dir output_dir csv fs []).1 in
  let all_stats := (process_files data_dir output_dir csv fs []).2 in
  match csv, all_stats with
  | [], _ => Returns fs
  | _ :: _, [] => Returns fs1
  | _ :: _, _ :: _ =>
      match mapM (λ f, fs1 !! (output_dir, f) ≫= read_csv) csv with
      | None => Raises fs1
      | Some frames =>
          Returns (<[(output_dir, summary_name) := json_dump all_stats]>
                   (<[(output_dir, master_name) := frame_to_csv (concat frames)]> fs1))
      end
  end.
Proof.
  unfold main. cbn zeta. destruct (csv_files fs data_dir) as [|n rest]; [done|].
  by destruct (process_files data_dir output_dir (n :: rest) fs []) as [fs1 all_stats].
Qed.

(** The reports are empty exactly when no file can be processed. *)
Lemma reports_nil `{FileIO} (fs : files) (data_dir : string) (names : list string) :
  omap (λ name, (λ r, (name, r.2)) <$> cleaned fs (data_dir, name)) names = [] ↔
  ∀ name, name ∈ names → cleaned fs (data_dir, name) = None.
Proof.
  induction names as [|n rest IH]; cbn [omap list_omap].
  { split; [|done]. intros _ name Hin. by apply elem_of_nil in Hin. }
  destruct (cleaned fs (data_dir, n)) as [r|] eqn:E; cbn.
  - split; [done|]. intros Hall. specialize (Hall n (list_elem_of_here _ _)). congruence.
  - rewrite IH. split.
    + intros Hall name [->|Hin]%elem_of_cons; [done|by apply Hall].
    + intros Hall name Hin. apply Hall. by apply list_elem_of_further.
Qed.

(** ** Properties of main *)

(** X10.  The input files.  [main] works on the files of the data directory
    whose name is [kerala_env_], anything, [.csv]; it takes each of them
    once, in ascending order of the names. *)
Theorem X10_csv_files `{FileIO} (fs : files) (data_dir name : string) :
  (name ∈ csv_files fs data_dir ↔
   is_Some (fs !! (data_dir, name)) ∧
   ∃ middle, name = ("kerala_env_" +:+ middle +:+ ".csv")%string) ∧
  NoDup (csv_files fs data_dir) ∧
  StronglySorted String.le (csv_files fs data_dir).
Proof.
  split_and!.
  - by rewrite csv_files_elem, glob_match_spec.
  - apply csv_files_NoDup.
  - apply StronglySorted_merge_sort; apply _.
Qed.

(** X11.  A file that fails is left out and nothing else.  The reports the
    loop of [main] collects are the reports of the files that can be
    processed, each as if it were processed alone on the files [main]
    started with, in the order of the names. *)
Theorem X11_batch_reports `{FileIO} (fs : files) (data_dir output_dir : string) :
  (process_files data_dir output_dir (csv_files fs data_dir) fs []).2 =
  omap (λ name, (λ r, (name, r.2)) <$> cleaned fs (data_dir, name))
       (csv_files fs data_dir).
Proof. by rewrite process_files_stats by apply csv_files_NoDup. Qed.

(** X12.  What the loop writes.  After the loop of [main] the output
    directory holds, under the name of each input file that can be
    processed, its cleaned table; every other file is as it was, also a file
    the output directory held under the name of an input file that fails. *)
Theorem X12_batch_outputs `{FileIO} (fs : files) (data_dir output_dir : string)
    (dir name : string) :
  (process_files data_dir output_dir (csv_files fs data_dir) fs []).1 !! (dir, name) =
  if decide (dir = output_dir ∧ name ∈ csv_files fs data_dir)
  then match cleaned fs (data_dir, name) with
       | Some r => Some (to_csv r.1)
       | None => fs !! (dir, name)
       end
  else fs !! (dir, name).
Proof. by rewrite process_files_lookup by apply csv_files_NoDup. Qed.

(** X13.  A failed file stops the batch at the end.  When one input file can
    be processed and another fails, and the output directory holds no
    readable file under the name of the one that fails, an exception leaves
    [main] after the loop: the cleaned tables are written, the master table
    and the summary are not; in particular the summary file is as before. *)
Theorem X13_main_raises `{FileIO} (fs : files) (data_dir output_dir : string)
    (good bad : string) :
  good ∈ csv_files fs data_dir →
  is_Some (cleaned fs (data_dir, good)) →
  bad ∈ csv_files fs data_dir →
  cleaned fs (data_dir, bad) = None →
  fs !! (output_dir, bad) ≫= read_csv = None →
  main data_dir output_dir fs =
    Raises (process_files data_dir output_dir (csv_files fs data_dir) fs []).1 ∧
  (process_files data_dir output_dir (csv_files fs data_dir) fs []).1
    !! (output_dir, summary_name) = fs !! (output_dir, summary_name).
Proof.
  intros Hgood [r Hr] Hbad Hfail Hstale.
  pose proof (csv_files_NoDup fs data_dir) as Hnd.
  split.
  - rewrite main_unfold. cbn zeta.
    destruct (csv_files fs data_dir) as [|n rest] eqn:Ecsv.
    { by apply elem_of_nil in Hgood. }
    rewrite process_files_stats by done.
    rewrite app_nil_l.
    destruct (omap _ (n :: rest)) as [|st sts] eqn:Est.
    { pose proof (proj1 (reports_nil fs data_dir (n :: rest)) Est good Hgood) as Hn.
      rewrite Hn in Hr. discriminate Hr. }
    assert (Hnone : mapM (λ f, (process_files data_dir output_dir (n :: rest) fs []).1
                                 !! (output_dir, f) ≫= read_csv) (n :: rest) = None).
    { apply mapM_None, Exists_exists. exists bad. split; [done|].
      rewrite process_files_lookup by done.
      by rewrite decide_True, Hfail by done. }
    by rewrite Hnone.
  - rewrite process_files_lookup by done.
    rewrite decide_False; [done|]. intros [_ Hin]. by apply summary_not_csv in Hin.
Qed.

Lemma X13_main_raises_witness :
  @main example_io "data" "out" example_files =
    Raises (@process_files example_io "data" "out"
              (@csv_files example_io example_files "data") example_files []).1 ∧
  (@process_files example_io "data" "out"
     (@csv_files example_io example_files "data") example_files []).1
    !! ("out"%string, summary_name) = None.
Proof.
  destruct (@X13_main_raises example_io example_files "data" "out"
              "kerala_env_2019.csv" "kerala_env_2020.csv") as [Hm Hs].
  - apply (bool_decide_unpack _). vm_compute. exact I.
  - vm_compute. by eexists.
  - apply (bool_decide_unpack _). vm_compute. exact I.
  - vm_compute. reflexivity.
  - vm_compute. reflexivity.
  - split; [exact Hm|]. rewrite Hs. vm_compute. reflexivity.
Defined.

(** X14.  A batch without failures.  When every input file can be processed
    and the cleaned tables can be read back, [main] returns; the master
    table is the concatenation of the cleaned tables as read back, and the
    summary holds the reports, both in the order of the file names. *)
Theorem X14_main_all_processed `{FileIO} (fs : files) (data_dir output_dir : string) :
  csv_files fs data_dir ≠ [] →
  (∀ name, name ∈ csv_files fs data_dir →
     ∃ r, cleaned fs (data_dir, name) = Some r ∧ is_Some (read_csv (to_csv r.1))) →
  ∃ frames fs2,
    Forall2 (λ name fr, ∃ r, cleaned fs (data_dir, name) = Some r ∧
                             read_csv (to_csv r.1) = Some fr)
            (csv_files fs data_dir) frames ∧
    main data_dir output_dir fs = Returns fs2 ∧
    fs2 !! (output_dir, master_name) = Some (frame_to_csv (concat frames)) ∧
    fs2 !! (output_dir, summary_name) =
      Some (json_dump
              (omap (λ name, (λ r, (name, r.2)) <$> cleaned fs (data_dir, name))
                    (csv_files fs data_dir))).
Proof.
  intros Hne Hall.
  pose proof (csv_files_NoDup fs data_dir) as Hnd.
  set (fs1 := (process_files data_dir output_dir (csv_files fs data_dir) fs []).1).
  assert (Hread : ∀ name, name ∈ csv_files fs data_dir →
            fs1 !! (output_dir, name) ≫= read_csv =
            cleaned fs (data_dir, name) ≫= λ r, read_csv (to_csv r.1)).
  { intros name Hin. unfold fs1. rewrite process_files_lookup by done.
    rewrite decide_True by done.
    by destruct (Hall name Hin) as (r & -> & _). }
  destruct (mapM (λ f, fs1 !! (output_dir, f) ≫= read_csv) (csv_files fs data_dir))
    as [frames|] eqn:Emap; last first.
  { exfalso. apply mapM_None, Exists_exists in Emap as (name & Hin & Hnone).
    rewrite (Hread name Hin) in Hnone.
    destruct (Hall name Hin) as (r & Hr & [fr Hfr]). rewrite Hr in Hnone.
    cbn in Hnone. congruence. }
  exists frames.
  exists (<[(output_dir, summary_name) :=
             json_dump (omap (λ name, (λ r, (name, r.2)) <$> cleaned fs (data_dir, name))
                             (csv_files fs data_dir))]>
          (<[(output_dir, master_name) := frame_to_csv (concat frames)]> fs1)).
  split_and!.
  - apply mapM_Some in Emap. apply Forall2_same_length_lookup.
    split; [by eapply Forall2_length|]. intros i name fr Hn Hf.
    pose proof (Forall2_lookup_lr _ _ _ _ _ _ Emap Hn Hf) as Hfr. cbn beta in Hfr.
    assert (Hin : name ∈ csv_files fs data_dir) by by eapply list_elem_of_lookup_2.
    rewrite (Hread name Hin) in Hfr.
    destruct (Hall name Hin) as (r & Hr & _). exists r. split; [done|].
    by rewrite Hr in Hfr.
  - rewrite main_unfold. cbn zeta. fold fs1.
    rewrite process_files_stats by done. rewrite app_nil_l, Emap.
    destruct (csv_files fs data_dir) as [|n rest] eqn:Ecsv; [done|].
    destruct (omap _ (n :: rest)) as [|st sts] eqn:Est; [|reflexivity].
    pose proof (proj1 (reports_nil fs data_dir (n :: rest)) Est n
                  (list_elem_of_here _ _)) as Hn.
    destruct (Hall n (list_elem_of_here _ _)) as (r & Hr & _). congruence.
  - rewrite lookup_insert_ne by (by intros [= ?]). by rewrite lookup_insert_eq.
  - by rewrite lookup_insert_eq.
Qed.

Lemma X14_main_all_processed_witness :
  ∃ frames fs2,
    @main example_io "data" "out" example_files_good = Returns fs2 ∧
    fs2 !! ("out"%string, master_name) = Some (Tables (mjoin frames)) ∧
    length frames = 2%nat.
Proof.
  assert (Ecsv : @csv_files example_io example_files_good "data" =
                 ["kerala_env_2019.csv"; "kerala_env_2021.csv"]%string)
    by (vm_compute; reflexivity).
  destruct (@X14_main_all_processed example_io example_files_good "data" "out")
    as (frames & fs2 & HF & Hmain & Hmaster & _).
  - rewrite Ecsv. discriminate.
  - intros name Hin.
    destruct (@cleaned example_io example_files_good ("data"%string, name))
      as [r|] eqn:Er.
    + exists r. split; [reflexivity|]. cbn. by eexists.
    + exfalso. rewrite Ecsv in Hin.
      apply elem_of_cons in Hin as [->|Hin];
        [|apply list_elem_of_singleton in Hin as ->];
        vm_compute in Er; discriminate Er.
  - exists frames, fs2. split; [exact Hmain|]. split; [exact Hmaster|].
    apply Forall2_length in HF. rewrite Ecsv in HF. symmetry. exact HF.
Defined.

(** X15.  An older output stands in for a failed file.  When an input file
    fails and the output directory holds a readable file under its name,
    left there before the run, a run of [main] that returns with a master
    table has taken that file into the master table, at the place of the
    failed file. *)
Theorem X15_master_takes_older_output `{FileIO} (fs fs2 : files)
    (data_dir output_dir good bad : string) (c : content) (fr : frame) :
  good ∈ csv_files fs data_dir →
  is_Some (cleaned fs (data_dir, good)) →
  bad ∈ csv_files fs data_dir →
  cleaned fs (data_dir, bad) = None →
  fs !! (output_dir, bad) = Some c →
  read_csv c = Some fr →
  main data_dir output_dir fs = Returns fs2 →
  ∃ frames i,
    csv_files fs data_dir !! i = Some bad ∧
    frames !! i = Some fr ∧
    length frames = length (csv_files fs data_dir) ∧
    fs2 !! (output_dir, master_name) = Some (frame_to_csv (concat frames)).
Proof.
  intros Hgood [r Hr] Hbad Hfail Hold Hfr Hmain.
  pose proof (csv_files_NoDup fs data_dir) as Hnd.
  rewrite main_unfold in Hmain. cbn zeta in Hmain.
  rewrite process_files_stats in Hmain by done. rewrite app_nil_l in Hmain.
  set (fs1 := (process_files data_dir output_dir (csv_files fs data_dir) fs []).1) in *.
  assert (Hst : omap (λ name, (λ r, (name, r.2)) <$> cleaned fs (data_dir, name))
                     (csv_files fs data_dir) ≠ []).
  { intros Est. pose proof (proj1 (reports_nil fs data_dir _) Est good Hgood) as Hn.
    congruence. }
  assert (Hold1 : fs1 !! (output_dir, bad) = Some c).
  { unfold fs1. rewrite process_files_lookup by done.
    by rewrite decide_True, Hfail by done. }
  destruct (list_elem_of_lookup_1 _ _ Hbad) as [i Hi].
  destruct (csv_files fs data_dir) as [|n rest] eqn:Ecsv; [done|].
  destruct (omap _ (n :: rest)) as [|st sts] eqn:Est; [done|].
  destruct (mapM _ (n :: rest)) as [frames|] eqn:Emap; [|done].
  injection Hmain as <-. apply mapM_Some in Emap.
  destruct (Forall2_lookup_l _ _ _ _ _ Emap Hi) as (fr' & Hfr' & Hread).
  cbn beta in Hread. rewrite Hold1 in Hread. cbn in Hread.
  exists frames, i. split_and!.
  - done.
  - congruence.
  - symmetry. by eapply Forall2_length.
  - rewrite lookup_insert_ne by (by intros [= ?]). by rewrite lookup_insert_eq.
Qed.

Lemma X15_master_takes_older_output_witness :
  ∃ fs2 frames,
    @main example_io "data" "out" example_files_stale = Returns fs2 ∧
    frames !! 1%nat = Some [example_without_ndvi] ∧
    length frames = 3%nat ∧
    fs2 !! ("out"%string, master_name) = Some (Tables (mjoin frames)).
Proof.
  assert (Hret : match @main example_io "data" "out" example_files_stale with
                 | Returns _ => True
                 | Raises _ => False
                 end) by (vm_compute; exact I).
  destruct (@main example_io "data" "out" example_files_stale) as [fs2|] eqn:Hmain;
    [|destruct Hret].
  assert (Ecsv : @csv_files example_io example_files_stale "data" =
                 ["kerala_env_2019.csv"; "kerala_env_2020.csv";
                  "kerala_env_2021.csv"]%string)
    by (vm_compute; reflexivity).
  destruct (@X15_master_takes_older_output example_io example_files_stale fs2
              "data" "out" "kerala_env_2019.csv" "kerala_env_2020.csv"
              (Table example_without_ndvi) [example_without_ndvi])
    as (frames & i & Hi & Hfr & Hlen & Hmaster).
  - apply (bool_decide_unpack _). vm_compute. exact I.
  - vm_compute. by eexists.
  - apply (bool_decide_unpack _). vm_compute. exact I.
  - vm_compute. reflexivity.
  - vm_compute. reflexivity.
  - reflexivity.
  - exact Hmain.
  - exists fs2, frames. split; [reflexivity|].
    rewrite Ecsv in Hi, Hlen.
    destruct i as [|[|[|i]]]; try discriminate Hi.
    split; [exact Hfr|]. split; [exact Hlen|exact Hmaster].
Defined.

(** X16.  Nothing to do.  When no file of the data directory has a matching
    name, or none of them can be processed, [main] returns and leaves every
    file as it was: it writes no master table and no summary. *)
Theorem X16_main_nothing_processed `{FileIO} (fs : files)
    (data_dir output_dir : string) :
  (∀ name, name ∈ csv_files fs data_dir → cleaned fs (data_dir, name) = None) →
  main data_dir output_dir fs = Returns fs.
Proof.
  intros Hall. pose proof (csv_files_NoDup fs data_dir) as Hnd.
  rewrite main_unfold. cbn zeta.
  rewrite process_files_stats by done. rewrite app_nil_l.
  rewrite (proj2 (reports_nil fs data_dir _) Hall).
  destruct (csv_files fs data_dir) as [|n rest] eqn:Ecsv; [done|].
  f_equal. apply map_eq. intros [dir name].
  rewrite process_files_lookup by done.
  case_decide as Hd; [|done]. destruct Hd as [_ Hin]. by rewrite (Hall name Hin).
Qed.

Lemma X16_main_nothing_processed_witness :
  @main example_io "data" "out"
    {[ ("data", "kerala_env_2020.csv")%string := Garbage ]} =
  Returns {[ ("data", "kerala_env_2020.csv")%string := Garbage ]}.
Proof.
  apply (@X16_main_nothing_processed example_io).
  intros name Hin.
  assert (Ecsv : @csv_files example_io
                   {[ ("data", "kerala_env_2020.csv")%string := Garbage ]} "data" =
                 ["kerala_env_2020.csv"]%string) by (vm_compute; reflexivity).
  rewrite Ecsv in Hin. apply list_elem_of_singleton in Hin as ->.
  vm_compute. reflexivity.
Defined.

(** X17.  The master table has the name of an input.  After a run of [main]
    that wrote the master table, the master table is among the input files
    of a run that takes the output directory as its data directory. *)
Theorem X17_master_is_an_input `{FileIO} (fs fs2 : files)
    (data_dir output_dir good : string) :
  good ∈ csv_files fs data_dir →
  is_Some (cleaned fs (data_dir, good)) →
  main data_dir output_dir fs = Returns fs2 →
  master_name ∈ csv_files fs2 output_dir.
Proof.
  intros Hgood [r Hr] Hmain.
  pose proof (csv_files_NoDup fs data_dir) as Hnd.
  rewrite main_unfold in Hmain. cbn zeta in Hmain.
  rewrite process_files_stats in Hmain by done. rewrite app_nil_l in Hmain.
  assert (Hst : omap (λ name, (λ r, (name, r.2)) <$> cleaned fs (data_dir, name))
                     (csv_files fs data_dir) ≠ []).
  { intros Est. pose proof (proj1 (reports_nil fs data_dir _) Est good Hgood) as Hn.
    congruence. }
  destruct (csv_files fs data_dir) as [|n rest] eqn:Ecsv.
  { by apply elem_of_nil in Hgood. }
  destruct (omap _ (n :: rest)) as [|st sts] eqn:Est; [done|].
  destruct (mapM _ (n :: rest)) as [frames|] eqn:Emap; [|done].
  injection Hmain as <-. apply csv_files_elem. split; [|reflexivity].
  rewrite lookup_insert_ne by (by intros [= ?]). rewrite lookup_insert_eq. by eexists.
Qed.

Lemma X17_master_is_an_input_witness :
  ∃ fs2,
    @main example_io "data" "out" example_files_good = Returns fs2 ∧
    master_name ∈ @csv_files example_io fs2 "out".
Proof.
  assert (Hret : match @main example_io "data" "out" example_files_good with
                 | Returns _ => True
                 | Raises _ => False
                 end) by (vm_compute; exact I).
  destruct (@main example_io "data" "out" example_files_good) as [fs2|] eqn:Hmain;
    [|destruct Hret].
  exists fs2. split; [reflexivity|].
  apply (@X17_master_is_an_input example_io example_files_good fs2
           "data" "out" "kerala_env_2019.csv").
  - apply (bool_decide_unpack _). vm_compute. exact I.
  - vm_compute. by eexists.
  - exact Hmain.
Defined.

(** ** The order of the input rows *)

Global Instance key_le_antisymm : AntiSymm (=) key_le.
Proof.
  intros [g1 d1] [g2 d2]. unfold key_le, key_leb. cbn.
  intros H1 H2.
  apply orb_true_iff in H1 as [H1|[H1 H1']%andb_true_iff];
    apply orb_true_iff in H2 as [H2|[H2 H2']%andb_true_iff];
    destruct g1 as [a|], g2 as [b|]; cbn in *; try done; try lia.
  - assert (a = b) as -> by lia. f_equal.
    destruct d1 as [x|], d2 as [y|]; cbn in *; try done.
    f_equal. lia.
  - f_equal. destruct d1 as [x|], d2 as [y|]; cbn in *; try done.
    f_equal. lia.
Qed.

Lemma length_reindex_in_range {A} order (xs : list A) :
  Forall (λ j, (j < length xs)%nat) order →
  length (reindex order xs) = length order.
Proof.
  unfold reindex. induction 1 as [|j order Hj _ IH]; [done|].
  destruct (lookup_lt_is_Some_2 xs j Hj) as [x Hx].
  cbn [omap list_omap]. rewrite Hx. cbn. by rewrite IH.
Qed.

Lemma reindex_cons {A} i order (xs : list A) :
  reindex (i :: order) xs =
  match xs !! i with
  | Some x => x :: reindex order xs
  | None => reindex order xs
  end.
Proof. done. Qed.

Lemma reindex_compose {A} order1 order2 (xs : list A) :
  Forall (λ j, (j < length xs)%nat) order2 →
  reindex order1 (reindex order2 xs) = reindex (reindex order1 order2) xs.
Proof.
  intros H. induction order1 as [|i order1 IH]; [done|].
  rewrite !reindex_cons, IH.
  destruct (order2 !! i) as [j|] eqn:Ei.
  - rewrite (reindex_lookup order2 xs i j H Ei), reindex_cons.
    by destruct (xs !! j).
  - assert (reindex order2 xs !! i = None) as ->; [|done].
    apply lookup_ge_None. rewrite length_reindex_in_range by done.
    by apply lookup_ge_None.
Qed.

Lemma reindex_inj {A} (xs : list A) order1 order2 :
  NoDup xs →
  Forall (λ j, (j < length xs)%nat) order1 →
  Forall (λ j, (j < length xs)%nat) order2 →
  reindex order1 xs = reindex order2 xs → order1 = order2.
Proof.
  intros Hnd H1. revert order2. unfold reindex.
  induction H1 as [|i order1 Hi _ IH]; intros order2 H2 Heq.
  - destruct H2 as [|j order2 Hj _]; [done|].
    destruct (lookup_lt_is_Some_2 xs j Hj) as [x Hx].
    cbn [omap list_omap] in Heq. by rewrite Hx in Heq.
  - destruct (lookup_lt_is_Some_2 xs i Hi) as [x Hx].
    cbn [omap list_omap] in Heq. rewrite Hx in Heq. cbn in Heq.
    destruct H2 as [|j order2 Hj H2]; [done|].
    destruct (lookup_lt_is_Some_2 xs j Hj) as [y Hy].
    cbn [omap list_omap] in Heq. rewrite Hy in Heq. cbn in Heq.
    injection Heq as <- Heq.
    rewrite (NoDup_lookup xs i j x Hnd Hx Hy). f_equal. by apply IH.
Qed.

Lemma in_range_Permutation order n :
  order ≡ₚ seq 0 n → Forall (λ j, (j < n)%nat) order.
Proof.
  intros Hp. apply Forall_forall. intros j Hj. rewrite Hp in Hj.
  apply list_elem_of_lookup in Hj as [i Hi]. apply lookup_seq in Hi. lia.
Qed.

Lemma take_rows_wf order df :
  wf df → order ≡ₚ seq 0 (len df) →
  wf (take_rows order df) ∧ len (take_rows order df) = len df.
Proof.
  intros (Hd & Hm & Hc) Hp.
  assert (Hlen : len (take_rows order df) = len df).
  { unfold len at 1. cbn. by apply length_reindex. }
  split; [|done]. unfold wf. rewrite Hlen. cbn. split_and!.
  - rewrite length_reindex; [done|]. by rewrite Hd.
  - rewrite length_reindex; [done|]. by rewrite Hm.
  - intros c s. rewrite lookup_fmap.
    destruct (cols df !! c) as [s0|] eqn:E; [|done]. cbn. intros [= <-].
    specialize (Hc c s0 E). cbn in Hc.
    rewrite length_reindex_series; [done|]. by rewrite Hc.
Qed.

(** Sorting does not see the order of rows with different keys. *)
Lemma sort_values_take_rows order df :
  wf df → order ≡ₚ seq 0 (len df) →
  NoDup (zip (grid_id df) (date df)) →
  sort_values (take_rows order df) = sort_values df.
Proof.
  intros Hwf Hp Hnd.
  destruct (take_rows_wf order df Hwf Hp) as [Hwf' Hlen'].
  pose proof Hwf as (Hd & Hm & Hc).
  set (ks := zip (grid_id df) (date df)).
  assert (Hks : length ks = len df).
  { unfold ks. rewrite length_zip_with. unfold len in *. rewrite Hd. lia. }
  assert (Hr : Forall (λ j, (j < len df)%nat) order) by by apply in_range_Permutation.
  assert (Hks' : zip (grid_id (take_rows order df)) (date (take_rows order df)) =
                 reindex order ks).
  { cbn. unfold ks. by rewrite reindex_zip. }
  assert (Ho : reindex (sort_order (take_rows order df)) order = sort_order df).
  { apply (reindex_inj ks); [done|..].
    - apply Forall_forall. intros j Hj. apply elem_of_reindex in Hj.
      rewrite Hks. by apply (proj1 (Forall_forall _ _) Hr).
    - rewrite Hks. by apply sort_order_in_range.
    - rewrite <-reindex_compose by by rewrite Hks.
      apply (StronglySorted_unique key_le).
      + unfold sort_order. rewrite Hks'. apply reindex_argsort_sorted.
      + apply reindex_argsort_sorted.
      + rewrite reindex_Permutation.
        * rewrite reindex_Permutation by by rewrite Hks.
          symmetry. apply reindex_Permutation, argsort_Permutation.
        * rewrite length_reindex by by rewrite Hks.
          rewrite Hks, <-Hlen'. by apply sort_order_perm. }
  assert (Hcol : ∀ A (xs : list A), length xs = len df →
            reindex (sort_order (take_rows order df)) (reindex order xs) =
            reindex (sort_order df) xs).
  { intros A xs Hx. rewrite reindex_compose by by rewrite Hx. by rewrite Ho. }
  apply DataFrame_eq; unfold sort_values; cbn [grid_id date month cols take_rows].
  - by apply Hcol.
  - by apply Hcol.
  - by apply Hcol.
  - intros c. rewrite !lookup_fmap.
    destruct (cols df !! c) as [s|] eqn:E; [|done]. cbn.
    specialize (Hc c s E). cbn in Hc. f_equal.
    destruct s as [xs|xs]; cbn in *; f_equal; by apply Hcol.
Qed.

Lemma count_true_Permutation inv xs ys :
  xs ≡ₚ ys → count_true inv xs = count_true inv ys.
Proof. intros Hp. unfold count_true. by rewrite Hp. Qed.

Lemma to_numeric_reindex order s :
  to_numeric (reindex_series order s) = reindex order (to_numeric s).
Proof. destruct s as [xs|xs]; cbn; [by rewrite reindex_fmap|done]. Qed.

(** The masker works row by row. *)
Lemma clean_and_mask_take_rows order df :
  wf df → order ≡ₚ seq 0 (len df) →
  (clean_and_mask (take_rows order df)).1 = take_rows order (clean_and_mask df).1 ∧
  (clean_and_mask (take_rows order df)).2 = (clean_and_mask df).2.
Proof.
  intros Hwf Hp. pose proof Hwf as (_ & _ & Hc).
  destruct (clean_and_mask_keys df) as (Hg & Hd & Hm).
  destruct (clean_and_mask_keys (take_rows order df)) as (Hg' & Hd' & Hm').
  split.
  - apply DataFrame_eq.
    + rewrite Hg'. cbn [take_rows grid_id]. by rewrite Hg.
    + rewrite Hd'. cbn [take_rows date]. by rewrite Hd.
    + rewrite Hm'. cbn [take_rows month]. by rewrite Hm.
    + intros c. cbn [take_rows cols].
      rewrite lookup_fmap, !clean_and_mask_cols. cbn [take_rows cols].
      rewrite lookup_fmap. case_decide; [|done].
      destruct (cols df !! c) as [s|]; [|done]. cbn.
      unfold masked_series, mask. by rewrite to_numeric_reindex, reindex_fmap.
  - apply map_eq. intros c. rewrite !clean_and_mask_stats. cbn [take_rows cols].
    rewrite lookup_fmap. case_decide; [|done].
    destruct (cols df !! c) as [s|] eqn:E; [|done]. cbn. f_equal.
    rewrite to_numeric_reindex. apply count_true_Permutation, reindex_Permutation.
    rewrite length_to_numeric. specialize (Hc c s E). cbn in Hc. by rewrite Hc.
Qed.

(** X18.  The order of the input rows does not matter.  For a table in
    which no two rows have the same grid and date, [preprocess_file] returns
    the same table and the same report, or raises the same error, whatever
    the order of the input rows. *)
Theorem X18_row_order_irrelevant (df : DataFrame) (order : list nat) :
  wf df →
  order ≡ₚ seq 0 (len df) →
  NoDup (zip (grid_id df) (date df)) →
  preprocess_file (take_rows order df) = preprocess_file df.
Proof.
  intros Hwf Hp Hnd.
  destruct (clean_and_mask_take_rows order df Hwf Hp) as [H1 H2].
  destruct (clean_and_mask_keys df) as (Hg & Hd & Hm).
  rewrite !preprocess_file_unfold, H1, H2. unfold impute_data.
  rewrite sort_values_take_rows; [done|by apply clean_and_mask_wf|..].
  - by rewrite clean_and_mask_len.
  - by rewrite Hg, Hd.
Qed.

Lemma X18_row_order_irrelevant_witness :
  preprocess_file (take_rows (reverse (seq 0 9)) example_table) =
  preprocess_file example_table.
Proof.
  apply X18_row_order_irrelevant.
  - exact example_table_wf.
  - apply (bool_decide_unpack _). vm_compute. exact I.
  - apply (bool_decide_unpack _). vm_compute. exact I.
Defined.

(** ** The column labels *)

Lemma append_cons a s t : String a s +:+ t = String a (s +:+ t).
Proof. done. Qed.

Lemma append_nil_r s : s +:+ "" = s.
Proof. induction s as [|a s IH]; [done|]. by rewrite append_cons, IH. Qed.

Lemma append_assoc s t u : (s +:+ t) +:+ u = s +:+ (t +:+ u).
Proof. induction s as [|a s IH]; [done|]. by rewrite !append_cons, IH. Qed.

Lemma lstrip_decomp s :
  ∃ l, s = l +:+ lstrip s ∧ all_space l = true ∧ starts_with_space (lstrip s) = false.
Proof.
  induction s as [|a s (l & Hs & Hl & Hst)]; [by exists ""|].
  cbn [lstrip]. destruct (isspace a) eqn:Ea.
  - exists (String a l). rewrite append_cons, <-Hs. cbn. by rewrite Ea, Hl.
  - by exists "".
Qed.

Lemma lstrip_id s : starts_with_space s = false → lstrip s = s.
Proof. destruct s as [|a s]; [done|]. cbn. by intros ->. Qed.

Lemma lstrip_app l s : all_space l = true → lstrip (l +:+ s) = lstrip s.
Proof.
  induction l as [|a l IH]; [done|]. cbn [all_space].
  intros [Ha Hl]%andb_true_iff. rewrite append_cons. cbn [lstrip]. rewrite Ha. by apply IH.
Qed.

Lemma rstrip_all_space r : all_space r = true → rstrip r = "".
Proof.
  induction r as [|a r IH]; [done|]. cbn [all_space rstrip].
  intros [Ha Hr]%andb_true_iff. by rewrite (IH Hr), Ha.
Qed.

Lemma rstrip_nil_inv s : rstrip s = "" → all_space s = true.
Proof.
  induction s as [|a s IH]; [done|]. cbn [all_space rstrip].
  destruct (rstrip s) as [|b r]; [|done].
  destruct (isspace a); [|done]. intros _. by rewrite IH.
Qed.

Lemma rstrip_decomp s :
  ∃ r, s = rstrip s +:+ r ∧ all_space r = true ∧ ends_with_space (rstrip s) = false.
Proof.
  induction s as [|a s (r & Hs & Hr & Hend)]; [by exists ""|].
  cbn [rstrip]. destruct (rstrip s) as [|b t] eqn:Et.
  - destruct (isspace a) eqn:Ea.
    + exists (String a s). split; [done|]. cbn. rewrite Ea. cbn.
      split; [|done]. by apply rstrip_nil_inv.
    + exists r. rewrite append_cons, <-Hs. cbn. by rewrite Ea.
  - exists r. rewrite append_cons, <-Hs. done.
Qed.

Lemma rstrip_id s : ends_with_space s = false → rstrip s = s.
Proof.
  induction s as [|a s IH]; [done|]. cbn [ends_with_space rstrip].
  destruct s as [|b s]; [by intros ->|]. intros H. by rewrite (IH H).
Qed.

Lemma rstrip_app s r : all_space r = true → rstrip (s +:+ r) = rstrip s.
Proof.
  intros Hr. induction s as [|a s IH].
  - by rewrite rstrip_all_space.
  - rewrite append_cons. cbn [rstrip]. by rewrite IH.
Qed.

Lemma rstrip_starts s :
  starts_with_space s = false → starts_with_space (rstrip s) = false.
Proof.
  destruct s as [|a s]; [done|]. cbn [starts_with_space rstrip]. intros Ha.
  destruct (rstrip s); [by rewrite Ha|done].
Qed.

Lemma strip_decomp s :
  ∃ l r, s = l +:+ strip s +:+ r ∧ all_space l = true ∧ all_space r = true.
Proof.
  destruct (lstrip_decomp s) as (l & Hs & Hl & _).
  destruct (rstrip_decomp (lstrip s)) as (r & Hs' & Hr & _).
  exists l, r. unfold strip. by rewrite <-Hs', <-Hs.
Qed.

Lemma strip_trimmed s : trimmed (strip s).
Proof.
  destruct (lstrip_decomp s) as (_ & _ & _ & Hst).
  destruct (rstrip_decomp (lstrip s)) as (_ & _ & _ & Hend).
  split; [by apply rstrip_starts|done].
Qed.

Lemma strip_id s : strip s = s ↔ trimmed s.
Proof.
  split.
  - intros <-. apply strip_trimmed.
  - intros [Hst Hend]. unfold strip. by rewrite (lstrip_id s Hst), rstrip_id.
Qed.

Lemma starts_with_space_app c s :
  c ≠ ""%string → starts_with_space (c +:+ s) = starts_with_space c.
Proof. by destruct c. Qed.

Lemma strip_surrounded l c r :
  trimmed c → c ≠ ""%string → all_space l = true → all_space r = true →
  strip (l +:+ c +:+ r) = c.
Proof.
  intros [Hst Hend] Hne Hl Hr. unfold strip.
  rewrite lstrip_app by done.
  rewrite lstrip_id by by rewrite starts_with_space_app.
  rewrite rstrip_app by done. by apply rstrip_id.
Qed.

Lemma covariate_trimmed c : c ∈ IMPUTE_COLUMNS → trimmed c ∧ c ≠ ""%string.
Proof.
  unfold IMPUTE_COLUMNS. rewrite !elem_of_cons, elem_of_nil.
  intros [->|[->|[->|[->|[->|[]]]]]]; by vm_compute.
Qed.

(** X19.  Normalising the column labels.  [_normalize_columns] leaves no
    label with white space at either end, changes no label that has none
    there, and so does nothing when applied again. *)
Theorem X19_normalize_columns (columns : list string) :
  Forall trimmed (_normalize_columns columns) ∧
  (_normalize_columns columns = columns ↔ Forall trimmed columns) ∧
  _normalize_columns (_normalize_columns columns) = _normalize_columns columns.
Proof.
  assert (Hall : Forall trimmed (_normalize_columns columns)).
  { apply Forall_fmap, Forall_true. intros c. apply strip_trimmed. }
  assert (Hid : ∀ l, _normalize_columns l = l ↔ Forall trimmed l).
  { intros l. unfold _normalize_columns. induction l as [|c l IH]; [done|].
    rewrite fmap_cons, Forall_cons, <-IH, <-strip_id. split.
    - by intros [= -> ->].
    - by intros [-> ->]. }
  split_and!; [done|apply Hid|by apply Hid].
Qed.

(** X20.  The covariates of a table as read.  After [_normalize_columns] a
    covariate is among the column labels exactly when the table as read has
    a column labelled with the name of the covariate between any white
    space. *)
Theorem X20_covariate_labels (columns : list string) (c : string) :
  c ∈ IMPUTE_COLUMNS →
  (c ∈ _normalize_columns columns ↔
   ∃ l r, all_space l = true ∧ all_space r = true ∧ l +:+ c +:+ r ∈ columns).
Proof.
  intros [Htr Hne]%covariate_trimmed. unfold _normalize_columns.
  rewrite list_elem_of_fmap. split.
  - intros (name & -> & Hin).
    destruct (strip_decomp name) as (l & r & Hname & Hl & Hr).
    exists l, r. by rewrite <-Hname.
  - intros (l & r & Hl & Hr & Hin). exists (l +:+ c +:+ r).
    split; [|done]. by rewrite strip_surrounded.
Qed.

Lemma X20_covariate_labels_witness :
  "ndvi"%string ∈ _normalize_columns ["grid_id "; " ndvi  "; "slope"]%string.
Proof.
  apply (X20_covariate_labels _ "ndvi").
  - exact ndvi_covariate.
  - exists " "%string, "  "%string. split; [reflexivity|]. split; [reflexivity|].
    apply (bool_decide_unpack _). vm_compute. exact I.
Defined.

(** ** The rows the imputer can draw on *)

(** The masked column of a covariate and its column in the sorted frame
    have the same values in the rows with a grid identifier. *)
Lemma prepared_located df col ms :
  wf df → col ∈ IMPUTE_COLUMNS →
  cols (clean_and_mask df).1 !! col = Some (Float64 ms) →
  ∃ xs,
    cols (prepared df) !! col = Some (Float64 xs) ∧
    length ms = len df ∧
    (dropna (located (grid_id (prepared df)) xs) = [] ↔
     dropna (located (grid_id df) ms) = []).
Proof.
  intros Hwf Hin Hms. pose proof Hwf as (_ & _ & Hc).
  rewrite clean_and_mask_cols, decide_True in Hms by done.
  destruct (cols df !! col) as [s|] eqn:Hs; [|done].
  cbn in Hms. injection Hms as <-. fold (masked_cells col s).
  assert (Hlen : length (masked_cells col s) = len df).
  { unfold masked_cells. rewrite length_mask, length_to_numeric. by apply (Hc col). }
  exists (reindex (sort_order df) (masked_cells col s)). split_and!.
  - by rewrite prepared_cols, decide_True, Hs by done.
  - done.
  - pose proof (dropna_Permutation _ _
                  (located_prepared df (masked_cells col s) Hwf Hlen)) as Hp.
    split; intros E; rewrite E in Hp.
    + by apply Permutation_nil_l in Hp.
    + by apply Permutation_nil_r in Hp.
Qed.

(** X21.  Which cells stay missing.  For a covariate present in the table, a
    cell of the column [impute_data] returns is missing exactly when no row
    with a grid identifier holds a valid value after masking, which is
    exactly when the global median of stage 3 is undefined.  In a table in
    which every row has a grid identifier that is when the column has no
    valid value after masking. *)
Theorem X21_missing_iff_no_located_value (df : DataFrame) (col : string)
    (ms : list cell) :
  wf df →
  col ∈ IMPUTE_COLUMNS →
  cols (clean_and_mask df).1 !! col = Some (Float64 ms) →
  ∃ xs out counts zs,
    cols (prepared df) !! col = Some (Float64 xs) ∧
    impute_data (clean_and_mask df).1 = Ok (out, counts) ∧
    cols out !! col = Some (Float64 zs) ∧
    length zs = len df ∧
    (∀ i, (i < len df)%nat →
       (zs !! i = Some None ↔ dropna (located (grid_id df) ms) = [])) ∧
    (median (after_stage2 df xs) = None ↔
     dropna (located (grid_id df) ms) = []) ∧
    (Forall is_Some (grid_id df) → located (grid_id df) ms = ms).
Proof.
  unfold_stages.
  intros Hwf Hin Hms.
  destruct (pipeline_masked df col ms Hwf Hin Hms)
    as (xs & out & counts & Hx & Hp & Hlx & Hlg & Hlm & Hrun & _ & Hc & _).
  destruct (prepared_located df col ms Hwf Hin Hms) as (xs' & Hx' & Hlms & Hd).
  rewrite Hx in Hx'. injection Hx' as <-.
  assert (Hg : length xs = length (grid_id (prepared df))) by congruence.
  assert (Hm : length xs = length (month (prepared df))) by congruence.
  exists xs, out, counts. eexists. split_and!; [done..| | | |].
  - by rewrite length_impute_series.
  - intros i Hi. rewrite <-Hd. split.
    + intros Hz.
      destruct (decide (dropna (located (grid_id (prepared df)) xs) = []))
        as [|Hne]; [done|].
      destruct (impute_series_fills (grid_id (prepared df)) (month (prepared df))
                  xs i Hg Hm Hne) as [v Hv]; [lia|].
      congruence.
    + intros E. apply impute_series_empty; [done..|lia].
  - rewrite <-Hd, median_None. split.
    + intros E.
      destruct (decide (dropna (located (grid_id (prepared df)) xs) = []))
        as [|Hne]; [done|].
      exfalso. apply (stage2_nonempty (month (prepared df))
                        (stage1 (grid_id (prepared df)) xs)); [| |done].
      * rewrite length_stage1. congruence.
      * by apply stage1_nonempty.
    + intros E. pose proof (stage1_empty _ _ Hg E) as H1.
      rewrite stage2_all_missing; [done| |done].
      rewrite length_stage1. congruence.
  - intros Hall. apply located_all; [|done]. by rewrite Hlms.
Qed.

Lemma X21_missing_iff_no_located_value_witness :
  (∃ out counts zs,
     impute_data (clean_and_mask example_blank_grid).1 = Ok (out, counts) ∧
     cols out !! "lst_celsius"%string = Some (Float64 zs) ∧
     zs !! 2%nat = Some None) ∧
  (∃ out counts zs,
     impute_data (clean_and_mask example_table).1 = Ok (out, counts) ∧
     cols out !! "ndvi"%string = Some (Float64 zs) ∧
     zs !! 6%nat ≠ Some None).
Proof.
  split.
  - destruct (X21_missing_iff_no_located_value example_blank_grid "lst_celsius"
                [None; Some 20%Q; None])
      as (xs & out & counts & zs & _ & Hrun & Hc & _ & Hiff & _).
    { decide_by_compute. }
    { exact lst_celsius_covariate. }
    { vm_compute. reflexivity. }
    exists out, counts, zs. split; [exact Hrun|]. split; [exact Hc|].
    apply Hiff; [vm_compute; lia|reflexivity].
  - destruct (X21_missing_iff_no_located_value example_table "ndvi"
                [Some (1 # 2); Some (3 # 10); None; Some (2 # 5); Some (1 # 2);
                 Some (3 # 5); Some (1 # 5); Some (7 # 10); Some (1 # 2)]%Q
                example_table_wf ndvi_covariate)
      as (xs & out & counts & zs & _ & Hrun & Hc & _ & Hiff & _).
    { vm_compute. reflexivity. }
    exists out, counts, zs. split; [exact Hrun|]. split; [exact Hc|].
    intros Hz. apply Hiff in Hz; [discriminate Hz|vm_compute; lia].
Defined.

(** X22.  What the stages keep.  For a covariate present in the table,
    stage 1 keeps the valid cells of the rows with a grid identifier and
    leaves NaN in the rows without one, whatever they held; stages 2 and 3
    keep every cell that holds a value.  The column [impute_data] returns is
    the result of the third stage. *)
Theorem X22_stages_keep_values (df : DataFrame) (col : string) (xs : list cell) :
  wf df →
  col ∈ IMPUTE_COLUMNS →
  cols (prepared df) !! col = Some (Float64 xs) →
  (∀ i (k : Z) v,
     grid_id (prepared df) !! i = Some (Some k) →
     xs !! i = Some (Some v) →
     after_stage1 df xs !! i = Some (Some v)) ∧
  (∀ i, grid_id (prepared df) !! i = Some None →
     after_stage1 df xs !! i = Some None) ∧
  (∀ i v, after_stage1 df xs !! i = Some (Some v) →
     after_stage2 df xs !! i = Some (Some v)) ∧
  (∀ i v,
     after_stage2 df xs !! i = Some (Some v) →
     after_stage3 df xs !! i = Some (Some v)) ∧
  ∃ out counts,
    impute_data (clean_and_mask df).1 = Ok (out, counts) ∧
    cols out !! col = Some (Float64 (after_stage3 df xs)).
Proof.
  unfold_stages.
  intros Hwf Hin Hx.
  destruct (prepared_lengths df col xs Hwf Hx) as (Hlx & Hlg & Hlm).
  assert (Hg : length xs = length (grid_id (prepared df))) by congruence.
  split_and!.
  - intros i k v. by apply stage1_keeps.
  - intros i. apply stage1_blank.
  - intros i v. apply stage2_keeps. rewrite length_stage1. congruence.
  - intros i v. apply stage3_keeps.
  - destruct (pipeline_column df col xs Hin Hx)
      as (out & counts & Hrun & _ & _ & _ & Hc & _).
    by exists out, counts.
Qed.

Lemma X22_stages_keep_values_witness :
  after_stage1 example_blank_grid [Some (1 # 5); Some (2 # 5); Some (9 # 10)]%Q
    !! 1%nat = Some (Some (2 # 5)%Q) ∧
  after_stage1 example_blank_grid [Some (1 # 5); Some (2 # 5); Some (9 # 10)]%Q
    !! 2%nat = Some None.
Proof.
  destruct (X22_stages_keep_values example_blank_grid "ndvi"
              [Some (1 # 5); Some (2 # 5); Some (9 # 10)]%Q)
    as (Hkeep & Hblank & _).
  - decide_by_compute.
  - exact ndvi_covariate.
  - vm_compute. reflexivity.
  - split.
    + apply (Hkeep 1%nat 1); vm_compute; reflexivity.
    + apply (Hblank 2%nat). vm_compute. reflexivity.
Defined.

(** X23.  The range of the values written.  For a covariate present in the
    table with a valid value after masking, let [lo] and [hi] be the least
    and the greatest valid value of its column.  In the exact arithmetic of
    the model every value a stage writes into a missing cell lies in
    [lo, hi]: an interpolated value between its two neighbours, a median
    between the values it is the median of. *)
Theorem X23_imputed_values_in_range (df : DataFrame) (col : string)
    (xs : list cell) :
  wf df →
  col ∈ IMPUTE_COLUMNS →
  cols (prepared df) !! col = Some (Float64 xs) →
  dropna xs ≠ [] →
  ∃ lo hi,
    minimum (dropna xs) = Some lo ∧
    maximum (dropna xs) = Some hi ∧
    (∀ i v, xs !! i = Some None →
       after_stage1 df xs !! i = Some (Some v) →
       (lo <= v <= hi)%Q) ∧
    (∀ i v, after_stage1 df xs !! i = Some None →
       after_stage2 df xs !! i = Some (Some v) →
       (lo <= v <= hi)%Q) ∧
    (∀ i v,
       after_stage2 df xs !! i = Some None →
       after_stage3 df xs !! i = Some (Some v) →
       (lo <= v <= hi)%Q).
Proof.
  unfold_stages.
  intros Hwf Hin Hx Hne.
  destruct (prepared_lengths df col xs Hwf Hx) as (Hlx & Hlg & Hlm).
  assert (Hg : length xs = length (grid_id (prepared df))) by congruence.
  destruct (minimum (dropna xs)) as [lo|] eqn:Elo; [|by destruct (dropna xs)].
  destruct (maximum (dropna xs)) as [hi|] eqn:Ehi; [|by destruct (dropna xs)].
  assert (H0 : ∀ w, Some w ∈ xs → (lo <= w <= hi)%Q).
  { intros w Hw%elem_of_dropna. split.
    - by eapply minimum_le.
    - by eapply maximum_ge. }
  pose proof (stage1_all_bounds lo hi _ _ Hg H0) as H1.
  pose proof (stage2_all_bounds lo hi (month (prepared df)) _ H1) as H2.
  exists lo, hi. split_and!; try done.
  - intros i v _. by apply stage1_bounds.
  - intros i v _. by apply stage2_bounds.
  - intros i v _. by apply stage3_bounds.
Qed.

Lemma X23_imputed_values_in_range_witness :
  minimum (dropna example_lst) = Some 18%Q ∧
  maximum (dropna example_lst) = Some 24%Q ∧
  example_lst !! 4%nat = Some None ∧
  ∃ v, after_stage2 example_table example_lst !! 4%nat
       = Some (Some v) ∧ (18 <= v <= 24)%Q.
Proof.
  unfold_stages.
  destruct (X23_imputed_values_in_range example_table "lst_celsius" example_lst
              example_table_wf lst_celsius_covariate example_lst_prepared)
    as (lo & hi & Hlo & Hhi & _ & H2 & _).
  { vm_compute. discriminate. }
  assert (Elo : minimum (dropna example_lst) = Some 18%Q) by (vm_compute; reflexivity).
  assert (Ehi : maximum (dropna example_lst) = Some 24%Q) by (vm_compute; reflexivity).
  rewrite Elo in Hlo. rewrite Ehi in Hhi. injection Hlo as <-. injection Hhi as <-.
  split; [exact Elo|]. split; [exact Ehi|]. split; [reflexivity|].
  exists (86 # 4)%Q. split; [vm_compute; reflexivity|].
  apply (H2 4%nat); vm_compute; reflexivity.
Defined.
